(** * Terminal image encoders of endcord: [endcord_cython/media.pyx]

    A shallow embedding of the two encoders [img_to_term] (glyph-density) and
    [img_to_term_block] (half-block), and the properties of their output:
    line count, visible width, escape-sequence shape, colour coalescing, row
    pairing and padding.

    Conventions of the embedding.
    - A Cython [int] is a [Z]; every [int] operation of the source goes
      through [wrap], the two's-complement reduction to 32 bits.
    - A Python [str] is a Rocq [string] holding its UTF-8 bytes.
    - [img.load()] gives a pixel accessor; reading outside the picture raises,
      which is [None] here.
    - A Python exception ends the call: the [Err] case of [result].
    - The source reads the ramp unchecked ([boundscheck=False],
      [wraparound=False]). What a read outside the list yields is not
      determined by the source: the compiled code may go on with a foreign
      object or be killed. The embedding follows a call up to such a read
      and stops there with [Err (IndexError i)], [i] the index read: that
      result says that the call reached the read, not that Python raised,
      and nothing is said of a call beyond it. *)

From Stdlib Require Import ZArith String Ascii List Bool Lia.
From Stdlib Require Import DecimalString DecimalZ DecimalPos.
Import ListNotations.

Local Open Scope string_scope.
Local Open Scope Z_scope.

(** ** Cython [int] arithmetic *)

Definition int_min : Z := - 2 ^ 31.
Definition int_max : Z := 2 ^ 31 - 1.

(** The values a Cython [int] holds. *)
Definition c_int (z : Z) : Prop := int_min <= z <= int_max.

Definition c_intb (z : Z) : bool := (int_min <=? z) && (z <=? int_max).

(** Reduction of a mathematical result to the 32-bit two's-complement value
    stored in an [int]. *)
Definition wrap (z : Z) : Z := (z - int_min) mod 2 ^ 32 + int_min.

Definition int_add (a b : Z) : Z := wrap (a + b).
Definition int_sub (a b : Z) : Z := wrap (a - b).
Definition int_mul (a b : Z) : Z := wrap (a * b).

(** [a // b] on two [int]s. Without the [cdivision] directive Cython keeps
    Python's rounding toward minus infinity; the source divides by the
    constants 2 and 255 only. *)
Definition floordiv (a b : Z) : Z := a / b.

(** ** Failure *)

Inductive error : Type :=
| IndexError (i : Z)          (* unchecked list read at [i], outside the list *)
| PixelError (x y : Z)        (* pixel access at [(x, y)], outside the picture *)
| OverflowError (v : Z).      (* a Python integer that does not fit an [int] *)

Inductive result (A : Type) : Type :=
| Ok (a : A)
| Err (e : error).

Arguments Ok {A} a.
Arguments Err {A} e.

Definition bind {A B : Type} (r : result A) (k : A -> result B) : result B :=
  match r with
  | Ok a => k a
  | Err e => Err e
  end.

Notation "x <- r ;; k" := (bind r (fun x => k))
  (at level 61, r at next level, right associativity).
Notation "' p <- r ;; k" := (bind r (fun p => k))
  (at level 61, p pattern, r at next level, right associativity).

Definition is_ok {A : Type} (r : result A) : bool :=
  match r with
  | Ok _ => true
  | Err _ => false
  end.

(** [for x in xs: s = body(s, x)], stopping at the first exception. *)
Fixpoint foldM {S X : Type} (body : S -> X -> result S) (xs : list X) (s : S)
  : result S :=
  match xs with
  | [] => Ok s
  | x :: xs' => s' <- body s x ;; foldM body xs' s'
  end.

(** ** Python values used by the encoders *)

(** What [img.load()] returns: [pixels[x, y]], or an exception. *)
Definition pixel_access : Type := Z -> Z -> option Z.

Definition read (pixels : pixel_access) (x y : Z) : result Z :=
  match pixels x y with
  | Some v => Ok v
  | None => Err (PixelError x y)
  end.

(** Storing a Python integer in a variable declared [cdef int]. *)
Definition as_int (v : Z) : result Z :=
  if c_intb v then Ok v else Err (OverflowError v).

(** [range(n)] and [range(0, n, 2)]. *)
Definition range (n : Z) : list Z := map Z.of_nat (seq 0 (Z.to_nat n)).

Definition range_by2 (n : Z) : list Z :=
  map (fun k => 2 * Z.of_nat k) (seq 0 (Z.to_nat ((n + 1) / 2))).

(** [str(n)] of an integer. *)
Definition str (n : Z) : string := NilZero.string_of_int (Z.to_int n).

(** [s * n]: [n] copies of [s], none when [n <= 0]. *)
Definition str_mul (s : string) (n : Z) : string :=
  String.concat "" (repeat s (Z.to_nat n)).

(** ["".join(parts)] and ["\n".join(lines)]. *)
Definition join (sep : string) (parts : list string) : string :=
  String.concat sep parts.

(** [l[i]] on a [list] with [boundscheck=False, wraparound=False]: defined
    for [0 <= i < len(l)] only. Outside the list the source has no defined
    behaviour; the embedding stops there and records the index. *)
Definition getitem (l : list string) (i : Z) : result string :=
  if (0 <=? i) && (i <? Z.of_nat (length l)) then
    match nth_error l (Z.to_nat i) with
    | Some g => Ok g
    | None => Err (IndexError i)
    end
  else Err (IndexError i).

(** The call reached the unchecked read of a list at the index [i], which
    lies outside the list. *)
Definition reads_outside {A : Type} (r : result A) (i : Z) : Prop :=
  r = Err (IndexError i).

(** [l.append(x)] *)
Definition push {A : Type} (l : list A) (x : A) : list A := (l ++ [x])%list.

(** ** Constants of both encoders *)

Definition esc_char : ascii := ascii_of_nat 27.
Definition nl_char : ascii := ascii_of_nat 10.

Definition ESC : string := String esc_char "".
Definition RESET : string := ESC ++ "[0m".
Definition NL : string := String nl_char "".
Definition UPPER_HALF_BLOCK : string := "▀".

(** [bg = ESC + "[48;5;" + str(bg_color) + "m"] *)
Definition bg_of (bg_color : Z) : string := ESC ++ "[48;5;" ++ str bg_color ++ "m".

(** A row of padding: [bg + " " * screen_width + RESET]. *)
Definition padding_row (bg : string) (screen_width : Z) : string :=
  bg ++ str_mul " " screen_width ++ RESET.

(** [for y in range(padding_h): out_lines.append(bg + " " * screen_width + RESET)] *)
Definition top_padding (bg : string) (screen_width padding_h : Z)
  : list string :=
  fold_left (fun out_lines _ => push out_lines (padding_row bg screen_width))
            (range padding_h) [].

(** [while len(out_lines) < screen_height: out_lines.append(...)]. Every turn
    makes [out_lines] one longer, so [screen_height] turns always suffice;
    [bottom_padding] runs the loop with that bound. *)
Fixpoint bottom_loop (turns : nat) (bg : string) (screen_width screen_height : Z)
  (out_lines : list string) : list string :=
  match turns with
  | O => out_lines
  | S turns' =>
      if Z.of_nat (length out_lines) <? screen_height
      then bottom_loop turns' bg screen_width screen_height
             (push out_lines (padding_row bg screen_width))
      else out_lines
  end.

Definition bottom_padding (bg : string) (screen_width screen_height : Z)
  (out_lines : list string) : list string :=
  bottom_loop (Z.to_nat screen_height) bg screen_width screen_height out_lines.

(** Left padding of an image row. *)
Definition left_padding (bg : string) (padding_w : Z) (line_parts : list string)
  : list string :=
  if padding_w >? 0 then push (push line_parts bg) (str_mul " " padding_w)
  else line_parts.

(** Right padding and the closing reset of an image row. *)
Definition right_padding (bg : string) (screen_width padding_w img_width : Z)
  (line_parts : list string) : list string :=
  let visible_len := int_add padding_w img_width in
  let line_parts :=
    if visible_len <? screen_width
    then push (push line_parts bg)
              (str_mul " " (int_sub screen_width visible_len))
    else line_parts in
  push line_parts RESET.

(** ** The glyph-density encoder [img_to_term] *)

(** The index into the ramp: [(gray_val * ascii_palette_len) // 255]. *)
Definition ramp_index (gray_val ascii_palette_len : Z) : Z :=
  floordiv (int_mul gray_val ascii_palette_len) 255.

(** Body of [for x in range(img_width)]; the state is [line_parts] and
    [current_fg]. *)
Definition term_cell (pixels pixels_gray : pixel_access)
  (ascii_palette : list string) (ascii_palette_len : Z) (y : Z)
  (st : list string * Z) (x : Z) : result (list string * Z) :=
  let '(line_parts, current_fg) := st in
  g <- read pixels_gray x y ;;
  gray_val <- as_int g ;;
  p <- read pixels x y ;;
  color <- as_int (p + 16) ;;
  let '(line_parts, current_fg) :=
    if negb (color =? current_fg)
    then (push (push (push (push line_parts ESC) "[38;5;") (str color)) "m",
          color)
    else (line_parts, current_fg) in
  glyph <- getitem ascii_palette (ramp_index gray_val ascii_palette_len) ;;
  Ok (push line_parts glyph, current_fg).

(** Body of [for y in range(img_height)]: one image row. *)
Definition term_row (pixels pixels_gray : pixel_access) (bg : string)
  (ascii_palette : list string) (ascii_palette_len : Z)
  (screen_width img_width padding_w : Z) (y : Z) : result string :=
  let line_parts := [] in
  let current_fg := -1 in
  let line_parts := left_padding bg padding_w line_parts in
  '(line_parts, _) <-
     foldM (term_cell pixels pixels_gray ascii_palette ascii_palette_len y)
           (range img_width) (line_parts, current_fg) ;;
  Ok (join "" (right_padding bg screen_width padding_w img_width line_parts)).

(** The list [out_lines] at the [return]. *)
Definition img_to_term_lines (pixels pixels_gray : pixel_access) (bg_color : Z)
  (ascii_palette : list string) (ascii_palette_len : Z)
  (screen_width screen_height img_width img_height : Z)
  : result (list string) :=
  let padding_h := floordiv (int_sub screen_height img_height) 2 in
  let padding_w := floordiv (int_sub screen_width img_width) 2 in
  let bg := bg_of bg_color in
  let out_lines := top_padding bg screen_width padding_h in
  out_lines <-
    foldM (fun out_lines y =>
             line <- term_row pixels pixels_gray bg ascii_palette
                       ascii_palette_len screen_width img_width padding_w y ;;
             Ok (push out_lines line))
          (range img_height) out_lines ;;
  Ok (bottom_padding bg screen_width screen_height out_lines).

Definition img_to_term (pixels pixels_gray : pixel_access) (bg_color : Z)
  (ascii_palette : list string) (ascii_palette_len : Z)
  (screen_width screen_height img_width img_height : Z) : result string :=
  out_lines <- img_to_term_lines pixels pixels_gray bg_color ascii_palette
                 ascii_palette_len screen_width screen_height img_width
                 img_height ;;
  Ok (join NL out_lines).

(** ** The half-block encoder [img_to_term_block] *)

(** Body of [for x in range(img_width)]; the state is [line_parts],
    [current_fg] and [current_bg]. *)
Definition block_cell (pixels : pixel_access) (y : Z)
  (st : list string * Z * Z) (x : Z) : result (list string * Z * Z) :=
  let '(line_parts, current_fg, current_bg) := st in
  t <- read pixels x y ;;
  top_color <- as_int (t + 16) ;;
  b <- read pixels x (int_add y 1) ;;
  bot_color <- as_int (b + 16) ;;
  let '(line_parts, current_fg) :=
    if negb (top_color =? current_fg)
    then (push (push (push (push line_parts ESC) "[38;5;") (str top_color)) "m",
          top_color)
    else (line_parts, current_fg) in
  let '(line_parts, current_bg) :=
    if negb (bot_color =? current_bg)
    then (push (push (push (push line_parts ESC) "[48;5;") (str bot_color)) "m",
          bot_color)
    else (line_parts, current_bg) in
  Ok (push line_parts UPPER_HALF_BLOCK, current_fg, current_bg).

(** Body of [for y in range(0, img_height - 1, 2)]: one row of cells from
    the source rows [y] and [y + 1]. *)
Definition block_row (pixels : pixel_access) (bg : string)
  (screen_width img_width padding_w : Z) (y : Z) : result string :=
  let line_parts := [] in
  let current_fg := -1 in
  let current_bg := -1 in
  let line_parts := left_padding bg padding_w line_parts in
  '(line_parts, _, _) <-
     foldM (block_cell pixels y) (range img_width)
           (line_parts, current_fg, current_bg) ;;
  Ok (join "" (right_padding bg screen_width padding_w img_width line_parts)).

Definition img_to_term_block_lines (pixels : pixel_access) (bg_color : Z)
  (screen_width screen_height img_width img_height : Z)
  : result (list string) :=
  let padding_h := floordiv (int_sub screen_height (floordiv img_height 2)) 2 in
  let padding_w := floordiv (int_sub screen_width img_width) 2 in
  let bg := bg_of bg_color in
  let out_lines := top_padding bg screen_width padding_h in
  out_lines <-
    foldM (fun out_lines y =>
             line <- block_row pixels bg screen_width img_width padding_w y ;;
             Ok (push out_lines line))
          (range_by2 (int_sub img_height 1)) out_lines ;;
  Ok (bottom_padding bg screen_width screen_height out_lines).

Definition img_to_term_block (pixels : pixel_access) (bg_color : Z)
  (screen_width screen_height img_width img_height : Z) : result string :=
  out_lines <- img_to_term_block_lines pixels bg_color screen_width
                 screen_height img_width img_height ;;
  Ok (join NL out_lines).

(** ** Reading the output back

    What a terminal makes of a line: an escape sequence runs from the control
    character [ESC] to the next letter [m]; every other byte belongs to a
    printed character. *)

Inductive token : Type :=
| Cell (c : ascii)      (* a byte of printed text *)
| Seq (e : string).     (* a whole escape sequence, [ESC] and [m] included *)

Fixpoint scan (pending : option string) (s : string) : list token :=
  match s with
  | EmptyString =>
      match pending with
      | None => []
      | Some e => [Seq e]
      end
  | String c s' =>
      match pending with
      | None =>
          if Ascii.eqb c esc_char then scan (Some (String c "")) s'
          else Cell c :: scan None s'
      | Some e =>
          if Ascii.eqb c "m" then Seq (e ++ String c "") :: scan None s'
          else scan (Some (e ++ String c "")) s'
      end
  end.

Definition tokens (line : string) : list token := scan None line.

Definition seqs (toks : list token) : list string :=
  flat_map (fun t => match t with Seq e => [e] | Cell _ => [] end) toks.

Definition printed (toks : list token) : list ascii :=
  flat_map (fun t => match t with Cell c => [c] | Seq _ => [] end) toks.

(** The escape sequences of a line, in order. *)
Definition escapes (line : string) : list string := seqs (tokens line).

(** The line with its escape sequences removed. *)
Definition visible (line : string) : string :=
  string_of_list_ascii (printed (tokens line)).

(** Bytes [0x80 .. 0xBF] continue a UTF-8 character; any other byte starts
    one. *)
Definition continuation (c : ascii) : bool :=
  let n := nat_of_ascii c in (128 <=? n)%nat && (n <? 192)%nat.

(** The number of characters of a text, one cell each. *)
Fixpoint width (s : string) : nat :=
  match s with
  | EmptyString => O
  | String c s' => if continuation c then width s' else S (width s')
  end.

Definition visible_width (line : string) : nat := width (visible line).

Fixpoint all_chars (p : ascii -> bool) (s : string) : bool :=
  match s with
  | EmptyString => true
  | String c s' => p c && all_chars p s'
  end.

Definition plain_char (c : ascii) : bool :=
  negb (Ascii.eqb c esc_char) && negb (Ascii.eqb c nl_char).

(** A glyph of the ramp: one character, neither a control sequence nor a line
    break. *)
Definition is_glyph (g : string) : bool :=
  (width g =? 1)%nat && all_chars plain_char g.

(** The three escape sequences; [bg_of] is above. *)
Definition fg_of (color : Z) : string := ESC ++ "[38;5;" ++ str color ++ "m".

Definition is_fg (e : string) : bool := prefix (ESC ++ "[38;5;") e.

Definition fg_escapes (line : string) : list string :=
  filter is_fg (escapes line).

(** [text.split("\n")] *)
Fixpoint split_lines (text : string) : list string :=
  match text with
  | EmptyString => [""]
  | String c text' =>
      if Ascii.eqb c nl_char then "" :: split_lines text'
      else match split_lines text' with
           | l :: ls => String c l :: ls
           | [] => [String c ""]
           end
  end.

Definition ends_with_reset (line : string) : Prop :=
  exists body, line = body ++ RESET /\ tokens line = (tokens body ++ [Seq RESET])%list.

(** The first value of every maximal run of equal values, and the number of
    such runs. *)
Fixpoint run_heads (l : list Z) : list Z :=
  match l with
  | [] => []
  | a :: l' =>
      match l' with
      | [] => [a]
      | b :: _ => if a =? b then run_heads l' else a :: run_heads l'
      end
  end.

Definition runs (l : list Z) : nat := length (run_heads l).

(** ** Conditions on a call *)

(** The picture fits the screen, and the four sizes are [int]s. *)
Definition valid_geometry (screen_width screen_height img_width img_height : Z)
  : Prop :=
  c_int screen_width /\ c_int screen_height /\
  0 <= img_width <= screen_width /\ 0 <= img_height <= screen_height.

(** [ok x y] at every pixel of [img_width] by [img_height]. *)
Definition all_pixels (ok : Z -> Z -> bool) (img_width img_height : Z) : bool :=
  forallb (fun y => forallb (fun x => ok x y) (range img_width))
          (range img_height).

(** The pixel can be read and, offset by 16, fits an [int]. *)
Definition pixel_ok (pixels : pixel_access) (x y : Z) : bool :=
  match pixels x y with
  | Some v => c_intb (v + 16)
  | None => false
  end.

(** The pixel holds a palette index (it is not negative). *)
Definition pixel_index (pixels : pixel_access) (x y : Z) : bool :=
  match pixels x y with
  | Some v => (0 <=? v) && c_intb (v + 16)
  | None => false
  end.

(** The luminance can be read and fits an [int]. *)
Definition gray_ok (pixels_gray : pixel_access) (x y : Z) : bool :=
  match pixels_gray x y with
  | Some g => c_intb g
  | None => false
  end.

(** The luminance lies in [0, 255]. *)
Definition gray_byte (pixels_gray : pixel_access) (x y : Z) : bool :=
  match pixels_gray x y with
  | Some g => (0 <=? g) && (g <=? 255)
  | None => false
  end.

(** The luminance can be read and selects a glyph inside the ramp. *)
Definition gray_in_ramp (pixels_gray : pixel_access)
  (ascii_palette : list string) (ascii_palette_len : Z) (x y : Z) : bool :=
  match pixels_gray x y with
  | Some g =>
      c_intb g && (0 <=? ramp_index g ascii_palette_len)
      && (ramp_index g ascii_palette_len <? Z.of_nat (length ascii_palette))
  | None => false
  end.

(** ** The rows, as texts

    What the cell loops read, and the text they build from it. The lemmas
    below show that the loops of the encoders compute exactly these. *)

Fixpoint mapM {X Y : Type} (f : X -> result Y) (xs : list X) : result (list Y) :=
  match xs with
  | [] => Ok []
  | x :: xs' => y <- f x ;; ys <- mapM f xs' ;; Ok (y :: ys)
  end.

(** Colour and glyph of the cell at [(x, y)]. *)
Definition term_read (pixels pixels_gray : pixel_access)
  (ascii_palette : list string) (ascii_palette_len : Z) (y x : Z)
  : result (Z * string) :=
  g <- read pixels_gray x y ;;
  gray_val <- as_int g ;;
  p <- read pixels x y ;;
  color <- as_int (p + 16) ;;
  glyph <- getitem ascii_palette (ramp_index gray_val ascii_palette_len) ;;
  Ok (color, glyph).

(** Upper and lower colour of the cell at [(x, y)], [(x, y + 1)]. *)
Definition block_read (pixels : pixel_access) (y x : Z) : result (Z * Z) :=
  t <- read pixels x y ;;
  top_color <- as_int (t + 16) ;;
  b <- read pixels x (int_add y 1) ;;
  bot_color <- as_int (b + 16) ;;
  Ok (top_color, bot_color).

Fixpoint paint_term (current_fg : Z) (cells : list (Z * string)) : string :=
  match cells with
  | [] => ""
  | (color, glyph) :: cells' =>
      (if color =? current_fg then "" else fg_of color)
      ++ glyph ++ paint_term color cells'
  end.

Fixpoint paint_block (current_fg current_bg : Z) (cells : list (Z * Z))
  : string :=
  match cells with
  | [] => ""
  | (top_color, bot_color) :: cells' =>
      (if top_color =? current_fg then "" else fg_of top_color)
      ++ (if bot_color =? current_bg then "" else bg_of bot_color)
      ++ UPPER_HALF_BLOCK ++ paint_block top_color bot_color cells'
  end.

Definition left_text (bg : string) (padding_w : Z) : string :=
  if padding_w >? 0 then bg ++ str_mul " " padding_w else "".

Definition right_text (bg : string) (screen_width padding_w img_width : Z)
  : string :=
  if int_add padding_w img_width <? screen_width
  then bg ++ str_mul " " (int_sub screen_width (int_add padding_w img_width))
  else "".

(** The colours a run of cells switches to, starting from [current]. *)
Fixpoint heads_from (current : Z) (l : list Z) : list Z :=
  match l with
  | [] => []
  | a :: l' => if a =? current then heads_from a l' else a :: heads_from a l'
  end.

(** ** The rows, as tokens *)

(** [s] is read as [toks], whatever follows it. *)
Definition renders (s : string) (toks : list token) : Prop :=
  forall rest, scan None (s ++ rest) = (toks ++ scan None rest)%list.

Definition text_tokens (s : string) : list token :=
  map Cell (list_ascii_of_string s).

Definition spaces_tokens (n : Z) : list token :=
  repeat (Cell " "%char) (Z.to_nat n).

Fixpoint term_tokens (current_fg : Z) (cells : list (Z * string))
  : list token :=
  match cells with
  | [] => []
  | (color, glyph) :: cells' =>
      (if color =? current_fg then [] else [Seq (fg_of color)])
      ++ text_tokens glyph ++ term_tokens color cells'
  end%list.

Fixpoint block_tokens (current_fg current_bg : Z) (cells : list (Z * Z))
  : list token :=
  match cells with
  | [] => []
  | (top_color, bot_color) :: cells' =>
      (if top_color =? current_fg then [] else [Seq (fg_of top_color)])
      ++ (if bot_color =? current_bg then [] else [Seq (bg_of bot_color)])
      ++ text_tokens UPPER_HALF_BLOCK
      ++ block_tokens top_color bot_color cells'
  end%list.

Definition left_tokens (bg : string) (padding_w : Z) : list token :=
  if padding_w >? 0 then Seq bg :: spaces_tokens padding_w else [].

Definition right_tokens (bg : string) (screen_width padding_w img_width : Z)
  : list token :=
  if int_add padding_w img_width <? screen_width
  then Seq bg
       :: spaces_tokens (int_sub screen_width (int_add padding_w img_width))
  else [].

(** [n] columns of padding: nothing for [n = 0], else the background
    sequence and [n] spaces. *)
Definition padding_tokens (bg : string) (n : nat) : list token :=
  match n with
  | O => []
  | S _ => Seq bg :: repeat (Cell " "%char) n
  end.

Definition digit_or_minus (c : ascii) : bool :=
  let n := nat_of_ascii c in
  ((48 <=? n)%nat && (n <=? 57)%nat) || (n =? 45)%nat.

Definition not_m (c : ascii) : bool := negb (Ascii.eqb c "m").

Definition not_esc (c : ascii) : bool := negb (Ascii.eqb c esc_char).

Definition not_nl (c : ascii) : bool := negb (Ascii.eqb c nl_char).

(** The number of cells a list of tokens prints. *)
Definition token_width (toks : list token) : nat :=
  width (string_of_list_ascii (printed toks)).

(** ** The escape sequences a call may emit *)

(** For [img_to_term]: the reset, the background of the padding, or the
    foreground of a pixel of the picture. *)
Definition term_escape (pixels : pixel_access)
  (bg_color img_width img_height : Z) (e : string) : Prop :=
  e = ESC ++ "[0m"
  \/ e = ESC ++ "[48;5;" ++ str bg_color ++ "m"
  \/ exists x y p,
       0 <= x < img_width /\ 0 <= y < img_height /\ pixels x y = Some p
       /\ e = ESC ++ "[38;5;" ++ str (p + 16) ++ "m".

(** For [img_to_term_block]: the reset, the background of the padding, the
    foreground of a pixel of an upper row [y], or the background of a pixel
    of the row [y + 1] under it. *)
Definition block_escape (pixels : pixel_access)
  (bg_color img_width img_height : Z) (e : string) : Prop :=
  e = ESC ++ "[0m"
  \/ e = ESC ++ "[48;5;" ++ str bg_color ++ "m"
  \/ exists x y p,
       0 <= x < img_width /\ In y (range_by2 (int_sub img_height 1))
       /\ ((pixels x y = Some p
            /\ e = ESC ++ "[38;5;" ++ str (p + 16) ++ "m")
           \/ (pixels x (y + 1) = Some p
               /\ e = ESC ++ "[48;5;" ++ str (p + 16) ++ "m")).

(** The colours of the pixels of row [y], after the offset of 16 (0 stands
    for a pixel that cannot be read). *)
Definition row_colors (pixels : pixel_access) (img_width y : Z) : list Z :=
  map (fun x => match pixels x y with Some p => p + 16 | None => 0 end)
      (range img_width).

(** ** Pictures for the examples *)

(** A picture of [w] by [h] pixels, each holding [v]; reading outside it
    raises. *)
Definition flat_picture (w h v : Z) : pixel_access :=
  fun x y =>
    if (0 <=? x) && (x <? w) && (0 <=? y) && (y <? h) then Some v else None.

(** The picture whose rows are the lists [rows]. *)
Definition grid_picture (rows : list (list Z)) : pixel_access :=
  fun x y =>
    if (0 <=? x) && (0 <=? y) then
      match nth_error rows (Z.to_nat y) with
      | Some row => nth_error row (Z.to_nat x)
      | None => None
      end
    else None.

(** No picture at all: every read raises. *)
Definition no_picture : pixel_access := fun _ _ => None.

(** ** A terminal

    How a terminal draws a line: it keeps a pen, the foreground and the
    background colour in force (none after a reset), changes it on the escape
    sequences of the three forms and draws every printed byte with it. *)

Inductive sgr : Type :=
| SetFg (code : Z)
| SetBg (code : Z)
| ResetAll.

(** The value of a decimal numeral. *)
Definition code_of (s : string) : option Z :=
  option_map Z.of_int (NilZero.int_of_string s).

(** The meaning of an escape sequence: [ESC[0m], or one of the two prefixes
    of seven bytes, a numeral and the final [m]. *)
Definition sgr_of (e : string) : option sgr :=
  if String.eqb e RESET then Some ResetAll
  else
    let code := substring 7 (String.length e - 8) e in
    if prefix (ESC ++ "[38;5;") e then option_map SetFg (code_of code)
    else if prefix (ESC ++ "[48;5;") e then option_map SetBg (code_of code)
    else None.

Record pen : Type := Pen { pen_fg : option Z; pen_bg : option Z }.

Definition blank_pen : pen := Pen None None.

Definition apply_sgr (p : pen) (e : string) : pen :=
  match sgr_of e with
  | Some (SetFg code) => Pen (Some code) (pen_bg p)
  | Some (SetBg code) => Pen (pen_fg p) (Some code)
  | Some ResetAll => blank_pen
  | None => p
  end.

(** The bytes drawn, each with the pen that draws it. *)
Fixpoint replay (p : pen) (toks : list token) : list (ascii * pen) :=
  match toks with
  | [] => []
  | Cell c :: toks' => (c, p) :: replay p toks'
  | Seq e :: toks' => replay (apply_sgr p e) toks'
  end.

(** The pen left after the tokens. *)
Fixpoint pen_after (p : pen) (toks : list token) : pen :=
  match toks with
  | [] => p
  | Cell _ :: toks' => pen_after p toks'
  | Seq e :: toks' => pen_after (apply_sgr p e) toks'
  end.

Definition display (line : string) : list (ascii * pen) :=
  replay blank_pen (tokens line).

(** A text drawn with one pen. *)
Definition drawn (p : pen) (s : string) : list (ascii * pen) :=
  map (fun c => (c, p)) (list_ascii_of_string s).

(** The glyphs of the cells of a row of [img_to_term], each drawn in the
    colour of its cell over the background [bg]. *)
Definition drawn_glyphs (bg : option Z) (cells : list (Z * string))
  : list (ascii * pen) :=
  flat_map (fun cell => drawn (Pen (Some (fst cell)) bg) (snd cell)) cells.

(** The half blocks of the cells of a row of [img_to_term_block]: the upper
    colour in front, the lower one behind. *)
Definition drawn_blocks (cells : list (Z * Z)) : list (ascii * pen) :=
  flat_map (fun cell =>
              drawn (Pen (Some (fst cell)) (Some (snd cell))) UPPER_HALF_BLOCK)
           cells.

(** The foreground left by a run of colours. *)
Definition last_color (colors : list Z) : option Z :=
  last (map Some colors) None.

Definition is_bg (e : string) : bool := prefix (ESC ++ "[48;5;") e.

Definition bg_escapes (line : string) : list string :=
  filter is_bg (escapes line).

(** The number of line breaks of a text. *)
Fixpoint count_nl (text : string) : nat :=
  match text with
  | EmptyString => O
  | String c text' =>
      if Ascii.eqb c nl_char then S (count_nl text') else count_nl text'
  end.

(** * Properties *)

(** ** Arithmetic on [int]s *)

Lemma c_intb_spec (z : Z) : c_intb z = true <-> c_int z.
Proof.
  unfold c_intb, c_int. rewrite andb_true_iff, !Z.leb_le. tauto.
Qed.

Lemma wrap_id (z : Z) : c_int z -> wrap z = z.
Proof.
  unfold c_int, wrap, int_min, int_max. intros H.
  rewrite Z.mod_small by lia. lia.
Qed.

Lemma as_int_ok (v : Z) : c_int v -> as_int v = Ok v.
Proof.
  intros H. unfold as_int. apply c_intb_spec in H. now rewrite H.
Qed.

Lemma as_int_inv (v w : Z) : as_int v = Ok w -> w = v /\ c_int v.
Proof.
  unfold as_int. destruct (c_intb v) eqn:E; [|discriminate].
  intros [= <-]. split; [reflexivity|]. now apply c_intb_spec.
Qed.

Section Geometry.

Variables screen_width screen_height img_width img_height : Z.
Hypothesis geometry :
  valid_geometry screen_width screen_height img_width img_height.

Lemma geometry_padding_w :
  floordiv (int_sub screen_width img_width) 2
  = (screen_width - img_width) / 2.
Proof.
  destruct geometry as (Hw & _ & Hi & _). unfold floordiv, int_sub.
  rewrite wrap_id; [reflexivity|]. unfold c_int, int_min, int_max in *. lia.
Qed.

Lemma geometry_padding_h :
  floordiv (int_sub screen_height img_height) 2
  = (screen_height - img_height) / 2.
Proof.
  destruct geometry as (_ & Hh & _ & Hi). unfold floordiv, int_sub.
  rewrite wrap_id; [reflexivity|]. unfold c_int, int_min, int_max in *. lia.
Qed.

Lemma geometry_padding_h_block :
  floordiv (int_sub screen_height (floordiv img_height 2)) 2
  = (screen_height - img_height / 2) / 2.
Proof.
  destruct geometry as (_ & Hh & _ & Hi). unfold floordiv, int_sub.
  assert (0 <= img_height / 2 <= img_height).
  { split; [apply Z.div_pos; lia|]. apply Z.div_le_upper_bound; lia. }
  rewrite wrap_id; [reflexivity|]. unfold c_int, int_min, int_max in *. lia.
Qed.

Lemma geometry_padding_w_bounds :
  0 <= (screen_width - img_width) / 2
  /\ (screen_width - img_width) / 2 + img_width <= screen_width.
Proof.
  destruct geometry as (_ & _ & Hi & _).
  split; [apply Z.div_pos; lia|].
  assert ((screen_width - img_width) / 2 <= screen_width - img_width)
    by (apply Z.div_le_upper_bound; lia).
  lia.
Qed.

Lemma geometry_visible_len :
  int_add ((screen_width - img_width) / 2) img_width
  = (screen_width - img_width) / 2 + img_width.
Proof.
  pose proof geometry_padding_w_bounds as Hb.
  destruct geometry as (Hw & _ & Hi & _). unfold int_add.
  apply wrap_id. unfold c_int, int_min, int_max in *. lia.
Qed.

Lemma geometry_right_width :
  int_sub screen_width ((screen_width - img_width) / 2 + img_width)
  = screen_width - ((screen_width - img_width) / 2 + img_width).
Proof.
  pose proof geometry_padding_w_bounds as Hb.
  destruct geometry as (Hw & _ & Hi & _). unfold int_sub.
  apply wrap_id. unfold c_int, int_min, int_max in *. lia.
Qed.

End Geometry.

(** ** Ranges and the padding loops *)

Lemma range_length (n : Z) : length (range n) = Z.to_nat n.
Proof.
  unfold range. now rewrite length_map, length_seq.
Qed.

Lemma in_range (x n : Z) : In x (range n) <-> 0 <= x < n.
Proof.
  unfold range. rewrite in_map_iff. split.
  - intros (k & <- & Hk). apply in_seq in Hk. lia.
  - intros H. exists (Z.to_nat x). split; [lia|]. apply in_seq. lia.
Qed.

Lemma in_range_by2 (y n : Z) :
  In y (range_by2 n) <-> 0 <= y < n /\ y mod 2 = 0.
Proof.
  unfold range_by2. rewrite in_map_iff. split.
  - intros (k & <- & Hk). apply in_seq in Hk.
    assert (Z.of_nat k < (n + 1) / 2) by lia.
    assert (2 * Z.of_nat k + 1 + 1 <= n + 1).
    { pose proof (Z.mul_div_le (n + 1) 2). lia. }
    split; [lia|]. rewrite Z.mul_comm. apply Z.mod_mul. lia.
  - intros (Hy & Hm). exists (Z.to_nat (y / 2)).
    pose proof (Z.div_mod y 2). split; [lia|]. apply in_seq.
    assert (y / 2 < (n + 1) / 2).
    { apply Z.div_lt_upper_bound; [lia|].
      pose proof (Z.div_mod (n + 1) 2). pose proof (Z.mod_pos_bound (n + 1) 2).
      lia. }
    lia.
Qed.

Lemma range_by2_length (n : Z) : length (range_by2 n) = Z.to_nat ((n + 1) / 2).
Proof.
  unfold range_by2. now rewrite length_map, length_seq.
Qed.

Lemma fold_push {A B : Type} (r : A) (xs : list B) (acc : list A) :
  fold_left (fun l _ => push l r) xs acc = (acc ++ repeat r (length xs))%list.
Proof.
  revert acc. induction xs as [|x xs IH]; intros acc; simpl.
  - now rewrite app_nil_r.
  - rewrite IH. unfold push. rewrite <- app_assoc. reflexivity.
Qed.

Lemma top_padding_repeat (bg : string) (screen_width padding_h : Z) :
  top_padding bg screen_width padding_h
  = repeat (padding_row bg screen_width) (Z.to_nat padding_h).
Proof.
  unfold top_padding. rewrite fold_push, range_length. reflexivity.
Qed.

Lemma bottom_loop_repeat (bg : string) (screen_width screen_height : Z) :
  forall (turns : nat) (out_lines : list string),
    (Z.to_nat (screen_height - Z.of_nat (length out_lines)) <= turns)%nat ->
    bottom_loop turns bg screen_width screen_height out_lines
    = (out_lines ++ repeat (padding_row bg screen_width)
         (Z.to_nat (screen_height - Z.of_nat (length out_lines))))%list.
Proof.
  induction turns as [|turns IH]; intros out_lines Hturns; simpl.
  - replace (Z.to_nat _) with O by lia. simpl. now rewrite app_nil_r.
  - destruct (Z.ltb_spec (Z.of_nat (length out_lines)) screen_height) as [Hlt|Hge].
    + rewrite IH; unfold push; rewrite length_app; simpl; [|lia].
      rewrite <- app_assoc. f_equal.
      replace (Z.to_nat (screen_height - Z.of_nat (length out_lines)))
        with (S (Z.to_nat (screen_height
                           - Z.of_nat (length out_lines + 1)%nat))) by lia.
      reflexivity.
    + replace (Z.to_nat _) with O by lia. simpl. now rewrite app_nil_r.
Qed.

Lemma bottom_padding_repeat (bg : string) (screen_width screen_height : Z)
  (out_lines : list string) :
  bottom_padding bg screen_width screen_height out_lines
  = (out_lines ++ repeat (padding_row bg screen_width)
       (Z.to_nat (screen_height - Z.of_nat (length out_lines))))%list.
Proof.
  unfold bottom_padding. apply bottom_loop_repeat. lia.
Qed.

(** The loop stops on its own test, with at least [screen_height] lines. *)
Lemma bottom_padding_exit (bg : string) (screen_width screen_height : Z)
  (out_lines : list string) :
  (Z.of_nat (length (bottom_padding bg screen_width screen_height out_lines))
   <? screen_height) = false.
Proof.
  rewrite bottom_padding_repeat, length_app, repeat_length.
  apply Z.ltb_ge. lia.
Qed.

(** ** Texts *)

Lemma append_empty_r (s : string) : s ++ "" = s.
Proof.
  induction s as [|c s IH]; simpl; [reflexivity|now rewrite IH].
Qed.

Lemma append_assoc (a b c : string) : (a ++ b) ++ c = a ++ b ++ c.
Proof.
  induction a as [|x a IH]; simpl; [reflexivity|now rewrite IH].
Qed.

Lemma join_cons (x : string) (xs : list string) :
  join "" (x :: xs) = x ++ join "" xs.
Proof.
  unfold join. destruct xs; simpl; [now rewrite append_empty_r|reflexivity].
Qed.

Lemma join_app (xs ys : list string) :
  join "" (xs ++ ys) = join "" xs ++ join "" ys.
Proof.
  induction xs as [|x xs IH]; [reflexivity|].
  rewrite <- app_comm_cons, !join_cons, IH, append_assoc. reflexivity.
Qed.

Lemma join_push (parts : list string) (x : string) :
  join "" (push parts x) = join "" parts ++ x.
Proof.
  unfold push. rewrite join_app. reflexivity.
Qed.

(** ** The cell loops build the painted text *)

Lemma join_left_padding (bg : string) (padding_w : Z) :
  join "" (left_padding bg padding_w []) = left_text bg padding_w.
Proof.
  unfold left_padding, left_text.
  destruct (padding_w >? 0); [|reflexivity].
  now rewrite !join_push.
Qed.

Lemma join_right_padding (bg : string) (screen_width padding_w img_width : Z)
  (line_parts : list string) :
  join "" (right_padding bg screen_width padding_w img_width line_parts)
  = join "" line_parts
    ++ right_text bg screen_width padding_w img_width ++ RESET.
Proof.
  unfold right_padding, right_text.
  destruct (int_add padding_w img_width <? screen_width).
  - now rewrite !join_push, !append_assoc.
  - now rewrite join_push.
Qed.

Lemma term_cell_step (pixels pixels_gray : pixel_access)
  (ascii_palette : list string) (ascii_palette_len y x : Z)
  (line_parts : list string) (current_fg : Z) :
  term_cell pixels pixels_gray ascii_palette ascii_palette_len y
    (line_parts, current_fg) x
  = '(color, glyph) <-
      term_read pixels pixels_gray ascii_palette ascii_palette_len y x ;;
    Ok (push (if color =? current_fg then line_parts
              else push (push (push (push line_parts ESC) "[38;5;")
                           (str color)) "m") glyph,
        color).
Proof.
  unfold term_cell, term_read.
  destruct (read pixels_gray x y) as [g|]; simpl; [|reflexivity].
  destruct (as_int g) as [gray_val|]; simpl; [|reflexivity].
  destruct (read pixels x y) as [p|]; simpl; [|reflexivity].
  destruct (as_int (p + 16)) as [color|]; simpl; [|reflexivity].
  destruct (color =? current_fg) eqn:Hc; simpl;
    destruct (getitem ascii_palette _); simpl; rewrite ?Hc;
    try reflexivity.
  apply Z.eqb_eq in Hc. now subst.
Qed.

Lemma term_loop_paint (pixels pixels_gray : pixel_access)
  (ascii_palette : list string) (ascii_palette_len y : Z) :
  forall (xs : list Z) (line_parts : list string) (current_fg : Z),
    match foldM (term_cell pixels pixels_gray ascii_palette ascii_palette_len y)
                xs (line_parts, current_fg),
          mapM (term_read pixels pixels_gray ascii_palette ascii_palette_len y)
               xs
    with
    | Ok (line_parts', _), Ok cells =>
        join "" line_parts' = join "" line_parts ++ paint_term current_fg cells
    | Err e, Err e' => e = e'
    | _, _ => False
    end.
Proof.
  induction xs as [|x xs IH]; intros line_parts current_fg.
  - simpl. now rewrite append_empty_r.
  - cbn [foldM mapM]. rewrite term_cell_step.
    destruct (term_read _ _ _ _ _ _) as [[color glyph]|]; simpl;
      [|reflexivity].
    match goal with
    | |- context [foldM _ xs (?parts, _)] => specialize (IH parts color)
    end.
    destruct (foldM _ xs _) as [[parts' fg']|]; destruct (mapM _ xs);
      simpl; try assumption.
    rewrite IH, join_push.
    destruct (color =? current_fg).
    + now rewrite !append_assoc.
    + rewrite !join_push. unfold fg_of. now rewrite !append_assoc.
Qed.

Lemma term_row_text (pixels pixels_gray : pixel_access) (bg : string)
  (ascii_palette : list string)
  (ascii_palette_len screen_width img_width padding_w y : Z) :
  term_row pixels pixels_gray bg ascii_palette ascii_palette_len screen_width
    img_width padding_w y
  = cells <- mapM (term_read pixels pixels_gray ascii_palette
                     ascii_palette_len y) (range img_width) ;;
    Ok (left_text bg padding_w ++ paint_term (-1) cells
        ++ right_text bg screen_width padding_w img_width ++ RESET).
Proof.
  unfold term_row.
  pose proof (term_loop_paint pixels pixels_gray ascii_palette
                ascii_palette_len y (range img_width)
                (left_padding bg padding_w []) (-1)) as H.
  destruct (foldM _ _ _) as [[parts' fg']|]; destruct (mapM _ _); simpl;
    try contradiction.
  - rewrite join_right_padding, H, join_left_padding, !append_assoc.
    reflexivity.
  - now subst.
Qed.

Lemma block_cell_step (pixels : pixel_access) (y x : Z)
  (line_parts : list string) (current_fg current_bg : Z) :
  block_cell pixels y (line_parts, current_fg, current_bg) x
  = '(top_color, bot_color) <- block_read pixels y x ;;
    let line_parts :=
      if top_color =? current_fg then line_parts
      else push (push (push (push line_parts ESC) "[38;5;")
                   (str top_color)) "m" in
    let line_parts :=
      if bot_color =? current_bg then line_parts
      else push (push (push (push line_parts ESC) "[48;5;")
                   (str bot_color)) "m" in
    Ok (push line_parts UPPER_HALF_BLOCK, top_color, bot_color).
Proof.
  unfold block_cell, block_read.
  destruct (read pixels x y) as [t|]; simpl; [|reflexivity].
  destruct (as_int (t + 16)) as [top_color|]; simpl; [|reflexivity].
  destruct (read pixels x (int_add y 1)) as [b|]; simpl; [|reflexivity].
  destruct (as_int (b + 16)) as [bot_color|]; simpl; [|reflexivity].
  destruct (top_color =? current_fg) eqn:Ht;
    destruct (bot_color =? current_bg) eqn:Hb; simpl; rewrite ?Ht, ?Hb;
    try (apply Z.eqb_eq in Ht; subst current_fg);
    try (apply Z.eqb_eq in Hb; subst current_bg); reflexivity.
Qed.

Lemma block_loop_paint (pixels : pixel_access) (y : Z) :
  forall (xs : list Z) (line_parts : list string) (current_fg current_bg : Z),
    match foldM (block_cell pixels y) xs (line_parts, current_fg, current_bg),
          mapM (block_read pixels y) xs
    with
    | Ok (line_parts', _, _), Ok cells =>
        join "" line_parts'
        = join "" line_parts ++ paint_block current_fg current_bg cells
    | Err e, Err e' => e = e'
    | _, _ => False
    end.
Proof.
  induction xs as [|x xs IH]; intros line_parts current_fg current_bg.
  - simpl. now rewrite append_empty_r.
  - cbn [foldM mapM]. rewrite block_cell_step.
    destruct (block_read _ _ _) as [[top_color bot_color]|]; simpl;
      [|reflexivity].
    match goal with
    | |- context [foldM _ xs (?parts, _, _)] =>
        specialize (IH parts top_color bot_color)
    end.
    destruct (foldM _ xs _) as [[[parts' fg'] bg']|]; destruct (mapM _ xs);
      simpl; try assumption.
    rewrite IH, join_push.
    destruct (top_color =? current_fg); destruct (bot_color =? current_bg);
      rewrite ?join_push; unfold fg_of, bg_of; now rewrite ?append_assoc.
Qed.

Lemma block_row_text (pixels : pixel_access) (bg : string)
  (screen_width img_width padding_w y : Z) :
  block_row pixels bg screen_width img_width padding_w y
  = cells <- mapM (block_read pixels y) (range img_width) ;;
    Ok (left_text bg padding_w ++ paint_block (-1) (-1) cells
        ++ right_text bg screen_width padding_w img_width ++ RESET).
Proof.
  unfold block_row.
  pose proof (block_loop_paint pixels y (range img_width)
                (left_padding bg padding_w []) (-1) (-1)) as H.
  destruct (foldM _ _ _) as [[[parts' fg'] bg']|]; destruct (mapM _ _); simpl;
    try contradiction.
  - rewrite join_right_padding, H, join_left_padding, !append_assoc.
    reflexivity.
  - now subst.
Qed.

(** ** The lines of a call *)

Lemma collect_loop {X : Type} (f : X -> result string) :
  forall (xs : list X) (out_lines : list string),
    foldM (fun out_lines y => line <- f y ;; Ok (push out_lines line))
          xs out_lines
    = rows <- mapM f xs ;; Ok (out_lines ++ rows)%list.
Proof.
  induction xs as [|x xs IH]; intros out_lines; simpl.
  - now rewrite app_nil_r.
  - destruct (f x) as [line|]; simpl; [|reflexivity].
    rewrite IH. destruct (mapM f xs); simpl; [|reflexivity].
    unfold push. now rewrite <- app_assoc.
Qed.

Lemma mapM_length {X Y : Type} (f : X -> result Y) :
  forall (xs : list X) (ys : list Y),
    mapM f xs = Ok ys -> length ys = length xs.
Proof.
  induction xs as [|x xs IH]; intros ys; simpl.
  - now intros [= <-].
  - destruct (f x); simpl; [|discriminate].
    destruct (mapM f xs); simpl; [|discriminate].
    intros [= <-]. simpl. f_equal. now apply IH.
Qed.

Lemma mapM_forall2 {X Y : Type} (f : X -> result Y) :
  forall (xs : list X) (ys : list Y),
    mapM f xs = Ok ys <-> Forall2 (fun x y => f x = Ok y) xs ys.
Proof.
  induction xs as [|x xs IH]; intros ys; simpl.
  - split.
    + intros [= <-]. constructor.
    + intros H. inversion H. reflexivity.
  - split.
    + destruct (f x) eqn:Hx; simpl; [|discriminate].
      destruct (mapM f xs) eqn:Hxs; simpl; [|discriminate].
      intros [= <-]. constructor; [assumption|]. now apply IH.
    + intros H. inversion H as [|? y ? ys' Hy Hys]; subst.
      rewrite Hy. simpl. apply IH in Hys. rewrite Hys. reflexivity.
Qed.

Lemma mapM_ok {X Y : Type} (f : X -> result Y) (xs : list X) :
  (forall x, In x xs -> exists y, f x = Ok y) ->
  exists ys, mapM f xs = Ok ys.
Proof.
  induction xs as [|x xs IH]; intros H; simpl.
  - now exists [].
  - destruct (H x) as (y & Hy); [now left|]. rewrite Hy. simpl.
    destruct IH as (ys & Hys); [intros; apply H; now right|].
    rewrite Hys. simpl. now eexists.
Qed.

Lemma mapM_in {X Y : Type} (f : X -> result Y) (xs : list X) (ys : list Y) :
  mapM f xs = Ok ys ->
  forall y, In y ys -> exists x, In x xs /\ f x = Ok y.
Proof.
  intros H. apply mapM_forall2 in H.
  induction H as [|x y xs ys Hxy _ IH]; intros y' Hin; [contradiction|].
  destruct Hin as [<-|Hin].
  - exists x. split; [now left|assumption].
  - destruct (IH _ Hin) as (x' & Hx' & Hf). exists x'. split; [now right|assumption].
Qed.

Lemma mapM_ext {X Y : Type} (f g : X -> result Y) (xs : list X) :
  (forall x, In x xs -> f x = g x) -> mapM f xs = mapM g xs.
Proof.
  induction xs as [|x xs IH]; intros H; simpl; [reflexivity|].
  rewrite (H x) by now left. rewrite IH; [reflexivity|].
  intros; apply H; now right.
Qed.

(** If every element either succeeds or fails with [e], and one of them
    fails, the whole loop fails with [e]. *)
Lemma mapM_fails {X Y : Type} (f : X -> result Y) (e : error) (xs : list X) :
  (forall x, In x xs -> f x = Err e \/ exists y, f x = Ok y) ->
  (exists x, In x xs /\ f x = Err e) ->
  mapM f xs = Err e.
Proof.
  induction xs as [|x xs IH]; intros Hall (x0 & Hin & Hx0); [contradiction|].
  simpl. destruct (Hall x) as [Hx|(y & Hx)]; [now left| |]; rewrite Hx; simpl;
    [reflexivity|].
  destruct Hin as [->|Hin]; [congruence|].
  rewrite IH; [reflexivity| |].
  - intros; apply Hall; now right.
  - now exists x0.
Qed.

Lemma img_to_term_lines_shape (pixels pixels_gray : pixel_access) (bg_color : Z)
  (ascii_palette : list string)
  (ascii_palette_len screen_width screen_height img_width img_height : Z) :
  let padding_h := floordiv (int_sub screen_height img_height) 2 in
  let padding_w := floordiv (int_sub screen_width img_width) 2 in
  let row := padding_row (bg_of bg_color) screen_width in
  img_to_term_lines pixels pixels_gray bg_color ascii_palette
    ascii_palette_len screen_width screen_height img_width img_height
  = rows <- mapM (term_row pixels pixels_gray (bg_of bg_color) ascii_palette
                    ascii_palette_len screen_width img_width padding_w)
                 (range img_height) ;;
    Ok (repeat row (Z.to_nat padding_h) ++ rows
        ++ repeat row
             (Z.to_nat (screen_height
                        - Z.of_nat (Z.to_nat padding_h + length rows))))%list.
Proof.
  intros padding_h padding_w row. unfold img_to_term_lines.
  fold padding_h padding_w. rewrite collect_loop.
  destruct (mapM _ _) as [rows|]; simpl; [|reflexivity].
  rewrite bottom_padding_repeat, top_padding_repeat, length_app,
    repeat_length, <- app_assoc.
  reflexivity.
Qed.

Lemma img_to_term_block_lines_shape (pixels : pixel_access) (bg_color : Z)
  (screen_width screen_height img_width img_height : Z) :
  let padding_h :=
    floordiv (int_sub screen_height (floordiv img_height 2)) 2 in
  let padding_w := floordiv (int_sub screen_width img_width) 2 in
  let row := padding_row (bg_of bg_color) screen_width in
  img_to_term_block_lines pixels bg_color screen_width screen_height img_width
    img_height
  = rows <- mapM (block_row pixels (bg_of bg_color) screen_width img_width
                    padding_w)
                 (range_by2 (int_sub img_height 1)) ;;
    Ok (repeat row (Z.to_nat padding_h) ++ rows
        ++ repeat row
             (Z.to_nat (screen_height
                        - Z.of_nat (Z.to_nat padding_h + length rows))))%list.
Proof.
  intros padding_h padding_w row. unfold img_to_term_block_lines.
  fold padding_h padding_w. rewrite collect_loop.
  destruct (mapM _ _) as [rows|]; simpl; [|reflexivity].
  rewrite bottom_padding_repeat, top_padding_repeat, length_app,
    repeat_length, <- app_assoc.
  reflexivity.
Qed.

(** ** Characters of the emitted texts *)

Lemma all_chars_app (p : ascii -> bool) (a b : string) :
  all_chars p (a ++ b) = all_chars p a && all_chars p b.
Proof.
  induction a as [|c a IH]; simpl; [reflexivity|].
  now rewrite IH, andb_assoc.
Qed.

Lemma all_chars_impl (p q : ascii -> bool) (s : string) :
  (forall c, p c = true -> q c = true) ->
  all_chars p s = true -> all_chars q s = true.
Proof.
  intros Hpq. induction s as [|c s IH]; simpl; [reflexivity|].
  rewrite !andb_true_iff. intros [Hc Hs]. split; [now apply Hpq|now apply IH].
Qed.

Lemma uint_digits (d : Decimal.uint) :
  all_chars digit_or_minus (NilEmpty.string_of_uint d) = true.
Proof.
  induction d; simpl; try assumption; reflexivity.
Qed.

Lemma str_digits (n : Z) : all_chars digit_or_minus (str n) = true.
Proof.
  unfold str. destruct (Z.to_int n) as [d|d]; simpl;
    destruct d; try reflexivity; apply uint_digits.
Qed.

Lemma digit_facts (c : ascii) :
  digit_or_minus c = true ->
  not_m c = true /\ not_esc c = true /\ not_nl c = true.
Proof.
  destruct c as [[] [] [] [] [] [] [] []]; vm_compute; intros H;
    try discriminate H; repeat split.
Qed.

Lemma str_not_m (n : Z) : all_chars not_m (str n) = true.
Proof.
  apply (all_chars_impl digit_or_minus); [|apply str_digits].
  intros c H. now apply digit_facts.
Qed.

Lemma str_not_nl (n : Z) : all_chars not_nl (str n) = true.
Proof.
  apply (all_chars_impl digit_or_minus); [|apply str_digits].
  intros c H. now apply digit_facts.
Qed.

Lemma plain_chars (g : string) :
  all_chars plain_char g = true ->
  all_chars not_esc g = true /\ all_chars not_nl g = true.
Proof.
  intros H. split; apply (all_chars_impl plain_char); try assumption;
    intros c Hc; unfold plain_char in Hc; apply andb_true_iff in Hc; tauto.
Qed.

Lemma glyph_facts (g : string) :
  is_glyph g = true ->
  width g = 1%nat /\ all_chars not_esc g = true /\ all_chars not_nl g = true.
Proof.
  unfold is_glyph. rewrite andb_true_iff, Nat.eqb_eq. intros [Hw Hp].
  split; [assumption|]. now apply plain_chars.
Qed.

Lemma str_mul_not_nl (n : Z) : all_chars not_nl (str_mul " " n) = true.
Proof.
  unfold str_mul. induction (Z.to_nat n) as [|k IH]; [reflexivity|].
  simpl repeat. fold (join "" (" " :: repeat " " k)). rewrite join_cons.
  simpl. exact IH.
Qed.

(** ** Reading the emitted texts back *)

Lemma renders_tokens (s : string) (toks : list token) :
  renders s toks -> tokens s = toks.
Proof.
  intros H. specialize (H ""). rewrite append_empty_r in H.
  simpl in H. now rewrite app_nil_r in H.
Qed.

Lemma renders_empty : renders "" [].
Proof.
  intros rest. reflexivity.
Qed.

Lemma renders_app (a b : string) (ta tb : list token) :
  renders a ta -> renders b tb -> renders (a ++ b) (ta ++ tb).
Proof.
  intros Ha Hb rest. now rewrite append_assoc, Ha, Hb, app_assoc.
Qed.

Lemma renders_text (s : string) :
  all_chars not_esc s = true -> renders s (text_tokens s).
Proof.
  unfold text_tokens. induction s as [|c s IH]; intros H rest.
  - reflexivity.
  - cbn [all_chars] in H. apply andb_true_iff in H. destruct H as [Hc Hs].
    unfold not_esc in Hc. apply negb_true_iff in Hc.
    cbn [append scan list_ascii_of_string map]. rewrite Hc.
    rewrite <- app_comm_cons. f_equal. now apply IH.
Qed.

Lemma scan_pending (body : string) :
  forall (e rest : string),
    all_chars not_m body = true ->
    scan (Some e) (body ++ String "m" rest)
    = Seq (e ++ body ++ "m") :: scan None rest.
Proof.
  induction body as [|c body IH]; intros e rest H.
  - reflexivity.
  - cbn [all_chars] in H. apply andb_true_iff in H. destruct H as [Hc Hb].
    unfold not_m in Hc. apply negb_true_iff in Hc.
    cbn [append scan]. rewrite Hc.
    rewrite IH by assumption. now rewrite append_assoc.
Qed.

Lemma renders_seq (body : string) :
  all_chars not_m body = true ->
  renders (ESC ++ body ++ "m") [Seq (ESC ++ body ++ "m")].
Proof.
  intros H rest. simpl. rewrite append_assoc. simpl.
  now rewrite scan_pending.
Qed.

Lemma renders_fg (color : Z) : renders (fg_of color) [Seq (fg_of color)].
Proof.
  unfold fg_of.
  replace (ESC ++ "[38;5;" ++ str color ++ "m")
    with (ESC ++ ("[38;5;" ++ str color) ++ "m") by reflexivity.
  apply renders_seq. rewrite all_chars_app. simpl. apply str_not_m.
Qed.

Lemma renders_bg (color : Z) : renders (bg_of color) [Seq (bg_of color)].
Proof.
  unfold bg_of.
  replace (ESC ++ "[48;5;" ++ str color ++ "m")
    with (ESC ++ ("[48;5;" ++ str color) ++ "m") by reflexivity.
  apply renders_seq. rewrite all_chars_app. simpl. apply str_not_m.
Qed.

Lemma renders_reset : renders RESET [Seq RESET].
Proof.
  intros rest. reflexivity.
Qed.

Lemma renders_spaces (n : Z) : renders (str_mul " " n) (spaces_tokens n).
Proof.
  unfold str_mul, spaces_tokens. induction (Z.to_nat n) as [|k IH].
  - apply renders_empty.
  - simpl repeat. fold (join "" (" " :: repeat " " k)). rewrite join_cons.
    intros rest. simpl. f_equal. apply IH.
Qed.

Lemma renders_left (bg_color padding_w : Z) :
  renders (left_text (bg_of bg_color) padding_w)
          (left_tokens (bg_of bg_color) padding_w).
Proof.
  unfold left_text, left_tokens. destruct (padding_w >? 0).
  - apply (renders_app _ _ [_]); [apply renders_bg|apply renders_spaces].
  - apply renders_empty.
Qed.

Lemma renders_right (bg_color screen_width padding_w img_width : Z) :
  renders (right_text (bg_of bg_color) screen_width padding_w img_width)
          (right_tokens (bg_of bg_color) screen_width padding_w img_width).
Proof.
  unfold right_text, right_tokens. destruct (_ <? _).
  - apply (renders_app _ _ [_]); [apply renders_bg|apply renders_spaces].
  - apply renders_empty.
Qed.

Lemma renders_padding_row (bg_color screen_width : Z) :
  renders (padding_row (bg_of bg_color) screen_width)
          (Seq (bg_of bg_color) :: spaces_tokens screen_width ++ [Seq RESET]).
Proof.
  unfold padding_row. apply (renders_app _ _ [_]); [apply renders_bg|].
  apply renders_app; [apply renders_spaces|apply renders_reset].
Qed.

Lemma renders_term (cells : list (Z * string)) :
  Forall (fun cell => all_chars not_esc (snd cell) = true) cells ->
  forall current_fg,
    renders (paint_term current_fg cells) (term_tokens current_fg cells).
Proof.
  induction 1 as [|[color glyph] cells Hg _ IH]; intros current_fg;
    cbn [paint_term term_tokens].
  - apply renders_empty.
  - apply renders_app.
    + destruct (color =? current_fg); [apply renders_empty|apply renders_fg].
    + apply renders_app; [now apply renders_text|apply IH].
Qed.

Lemma renders_block (cells : list (Z * Z)) :
  forall current_fg current_bg,
    renders (paint_block current_fg current_bg cells)
            (block_tokens current_fg current_bg cells).
Proof.
  induction cells as [|[top_color bot_color] cells IH];
    intros current_fg current_bg; cbn [paint_block block_tokens].
  - apply renders_empty.
  - apply renders_app.
    + destruct (top_color =? current_fg); [apply renders_empty|apply renders_fg].
    + apply renders_app.
      * destruct (bot_color =? current_bg);
          [apply renders_empty|apply renders_bg].
      * apply renders_app; [now apply renders_text|apply IH].
Qed.

(** ** Cells and escape sequences of the tokens *)

Lemma seqs_app (a b : list token) : seqs (a ++ b) = (seqs a ++ seqs b)%list.
Proof.
  unfold seqs. apply flat_map_app.
Qed.

Lemma printed_app (a b : list token) :
  printed (a ++ b) = (printed a ++ printed b)%list.
Proof.
  unfold printed. apply flat_map_app.
Qed.

Lemma width_chars_app (a b : list ascii) :
  width (string_of_list_ascii (a ++ b))
  = (width (string_of_list_ascii a) + width (string_of_list_ascii b))%nat.
Proof.
  induction a as [|c a IH]; simpl; [reflexivity|].
  destruct (continuation c); rewrite IH; reflexivity.
Qed.

Lemma token_width_app (a b : list token) :
  token_width (a ++ b) = (token_width a + token_width b)%nat.
Proof.
  unfold token_width. now rewrite printed_app, width_chars_app.
Qed.

Lemma visible_width_tokens (line : string) :
  visible_width line = token_width (tokens line).
Proof.
  reflexivity.
Qed.

Lemma printed_text (s : string) : printed (text_tokens s) = list_ascii_of_string s.
Proof.
  unfold text_tokens, printed.
  induction (list_ascii_of_string s) as [|c l IH]; simpl; [reflexivity|].
  now rewrite IH.
Qed.

Lemma seqs_text (s : string) : seqs (text_tokens s) = [].
Proof.
  unfold text_tokens, seqs.
  induction (list_ascii_of_string s) as [|c l IH]; simpl; [reflexivity|].
  exact IH.
Qed.

Lemma token_width_text (s : string) : token_width (text_tokens s) = width s.
Proof.
  unfold token_width.
  now rewrite printed_text, string_of_list_ascii_of_string.
Qed.

Lemma token_width_spaces (n : Z) : token_width (spaces_tokens n) = Z.to_nat n.
Proof.
  unfold token_width, spaces_tokens.
  induction (Z.to_nat n) as [|k IH]; simpl; [reflexivity|].
  now rewrite IH.
Qed.

Lemma seqs_spaces (n : Z) : seqs (spaces_tokens n) = [].
Proof.
  unfold seqs, spaces_tokens.
  induction (Z.to_nat n) as [|k IH]; simpl; [reflexivity|exact IH].
Qed.

Lemma token_width_term (cells : list (Z * string)) :
  Forall (fun cell => width (snd cell) = 1%nat) cells ->
  forall current_fg,
    token_width (term_tokens current_fg cells) = length cells.
Proof.
  induction 1 as [|[color glyph] cells Hg _ IH]; intros current_fg;
    cbn [term_tokens length]; [reflexivity|].
  rewrite !token_width_app, token_width_text, IH. simpl in Hg. rewrite Hg.
  destruct (color =? current_fg); reflexivity.
Qed.

Lemma token_width_block (cells : list (Z * Z)) :
  forall current_fg current_bg,
    token_width (block_tokens current_fg current_bg cells) = length cells.
Proof.
  induction cells as [|[top_color bot_color] cells IH];
    intros current_fg current_bg; cbn [block_tokens length]; [reflexivity|].
  rewrite !token_width_app, token_width_text, IH.
  destruct (top_color =? current_fg); destruct (bot_color =? current_bg);
    reflexivity.
Qed.

Lemma seqs_term (cells : list (Z * string)) :
  forall current_fg,
    seqs (term_tokens current_fg cells)
    = map fg_of (heads_from current_fg (map fst cells)).
Proof.
  induction cells as [|[color glyph] cells IH]; intros current_fg;
    cbn [term_tokens map fst heads_from]; [reflexivity|].
  rewrite !seqs_app, seqs_text, IH.
  destruct (color =? current_fg); reflexivity.
Qed.

Lemma prefix_append (p s : string) : prefix p (p ++ s) = true.
Proof.
  induction p as [|c p IH]; simpl; [now destruct s|].
  destruct (ascii_dec c c); [exact IH|contradiction].
Qed.

Lemma is_fg_fg (color : Z) : is_fg (fg_of color) = true.
Proof.
  unfold is_fg, fg_of.
  change (ESC ++ "[38;5;" ++ str color ++ "m")
    with ((ESC ++ "[38;5;") ++ str color ++ "m").
  apply prefix_append.
Qed.

Lemma is_fg_bg (color : Z) : is_fg (bg_of color) = false.
Proof.
  reflexivity.
Qed.

Lemma filter_fg_map (l : list Z) : filter is_fg (map fg_of l) = map fg_of l.
Proof.
  induction l as [|a l IH]; [reflexivity|].
  cbn [map filter]. rewrite is_fg_fg. now rewrite IH.
Qed.

Lemma fg_seqs_block (cells : list (Z * Z)) :
  forall current_fg current_bg,
    filter is_fg (seqs (block_tokens current_fg current_bg cells))
    = map fg_of (heads_from current_fg (map fst cells)).
Proof.
  induction cells as [|[top_color bot_color] cells IH];
    intros current_fg current_bg; cbn [block_tokens map fst heads_from];
    [reflexivity|].
  rewrite !seqs_app, seqs_text, !filter_app, IH.
  destruct (top_color =? current_fg); destruct (bot_color =? current_bg);
    cbn [seqs flat_map app filter map];
    rewrite ?is_fg_fg, ?is_fg_bg; reflexivity.
Qed.

(** ** Runs of equal colours *)

Lemma run_heads_cons (a : Z) (l : list Z) :
  run_heads (a :: l) = a :: heads_from a l.
Proof.
  revert a. induction l as [|b l IH]; intros a; [reflexivity|].
  change (run_heads (a :: b :: l))
    with (if a =? b then run_heads (b :: l) else a :: run_heads (b :: l)).
  rewrite IH. cbn [heads_from]. rewrite (Z.eqb_sym b a).
  destruct (Z.eqb_spec a b) as [->|Hne]; reflexivity.
Qed.

Lemma heads_from_unset (current : Z) (l : list Z) :
  Forall (fun a => a <> current) l -> heads_from current l = run_heads l.
Proof.
  destruct 1 as [|a l Ha _]; [reflexivity|].
  rewrite run_heads_cons. cbn [heads_from].
  destruct (Z.eqb_spec a current); [contradiction|reflexivity].
Qed.

(** ** What the cell loops read *)

Lemma getitem_in (l : list string) (i : Z) (g : string) :
  getitem l i = Ok g -> In g l.
Proof.
  unfold getitem. destruct (_ && _); [|discriminate].
  destruct (nth_error l (Z.to_nat i)) eqn:E; [|discriminate].
  intros [= <-]. now apply nth_error_In in E.
Qed.

Lemma getitem_inside (l : list string) (i : Z) :
  0 <= i < Z.of_nat (length l) -> exists g, getitem l i = Ok g.
Proof.
  intros H. unfold getitem.
  destruct (Z.leb_spec 0 i); [|lia].
  destruct (Z.ltb_spec i (Z.of_nat (length l))); [|lia]. simpl.
  destruct (nth_error l (Z.to_nat i)) eqn:E; [now eexists|].
  apply nth_error_None in E. lia.
Qed.

Lemma getitem_outside (l : list string) (i : Z) :
  ~ 0 <= i < Z.of_nat (length l) -> getitem l i = Err (IndexError i).
Proof.
  intros H. unfold getitem.
  destruct (Z.leb_spec 0 i); destruct (Z.ltb_spec i (Z.of_nat (length l)));
    simpl; try reflexivity.
  lia.
Qed.

Lemma all_pixels_spec (ok : Z -> Z -> bool) (img_width img_height : Z) :
  all_pixels ok img_width img_height = true
  <-> forall x y, 0 <= x < img_width -> 0 <= y < img_height -> ok x y = true.
Proof.
  unfold all_pixels. rewrite forallb_forall. split.
  - intros H x y Hx Hy. apply in_range in Hx, Hy.
    specialize (H y Hy). rewrite forallb_forall in H. now apply H.
  - intros H y Hy. apply forallb_forall. intros x Hx.
    apply in_range in Hx, Hy. now apply H.
Qed.

Lemma term_read_inv (pixels pixels_gray : pixel_access)
  (ascii_palette : list string) (ascii_palette_len y x color : Z)
  (glyph : string) :
  term_read pixels pixels_gray ascii_palette ascii_palette_len y x
  = Ok (color, glyph) ->
  exists g p,
    pixels_gray x y = Some g /\ c_int g /\
    pixels x y = Some p /\ c_int (p + 16) /\ color = p + 16 /\
    getitem ascii_palette (ramp_index g ascii_palette_len) = Ok glyph.
Proof.
  unfold term_read, read.
  destruct (pixels_gray x y) as [g|]; simpl; [|discriminate].
  destruct (as_int g) as [gray_val|] eqn:Hg; simpl; [|discriminate].
  destruct (pixels x y) as [p|]; simpl; [|discriminate].
  destruct (as_int (p + 16)) as [c|] eqn:Hc; simpl; [|discriminate].
  destruct (getitem _ _) as [gl|] eqn:Hgl; simpl; [|discriminate].
  intros [= <- <-]. apply as_int_inv in Hg, Hc.
  destruct Hg as [-> Hg], Hc as [-> Hc].
  exists g, p. repeat (split; [first [assumption|reflexivity]|]). assumption.
Qed.

Lemma block_read_inv (pixels : pixel_access) (y x top_color bot_color : Z) :
  block_read pixels y x = Ok (top_color, bot_color) ->
  exists t b,
    pixels x y = Some t /\ c_int (t + 16) /\ top_color = t + 16 /\
    pixels x (int_add y 1) = Some b /\ c_int (b + 16) /\ bot_color = b + 16.
Proof.
  unfold block_read, read.
  destruct (pixels x y) as [t|]; simpl; [|discriminate].
  destruct (as_int (t + 16)) as [tc|] eqn:Ht; simpl; [|discriminate].
  destruct (pixels x (int_add y 1)) as [b|]; simpl; [|discriminate].
  destruct (as_int (b + 16)) as [bc|] eqn:Hb; simpl; [|discriminate].
  intros [= <- <-]. apply as_int_inv in Ht, Hb.
  destruct Ht as [-> Ht], Hb as [-> Hb].
  exists t, b. repeat (split; [first [assumption|reflexivity]|]). reflexivity.
Qed.

Lemma term_read_ok (pixels pixels_gray : pixel_access)
  (ascii_palette : list string) (ascii_palette_len y x : Z) :
  pixel_ok pixels x y = true ->
  gray_in_ramp pixels_gray ascii_palette ascii_palette_len x y = true ->
  exists cell,
    term_read pixels pixels_gray ascii_palette ascii_palette_len y x = Ok cell.
Proof.
  unfold pixel_ok, gray_in_ramp, term_read, read.
  destruct (pixels x y) as [p|]; [|discriminate].
  destruct (pixels_gray x y) as [g|]; [|discriminate].
  intros Hp Hg. apply andb_true_iff in Hg. destruct Hg as [Hg Hhi].
  apply andb_true_iff in Hg. destruct Hg as [Hg Hlo].
  apply c_intb_spec in Hp, Hg. apply Z.leb_le in Hlo. apply Z.ltb_lt in Hhi.
  simpl. rewrite (as_int_ok g Hg). simpl. rewrite (as_int_ok _ Hp). simpl.
  destruct (getitem_inside ascii_palette (ramp_index g ascii_palette_len))
    as (glyph & Hglyph); [lia|].
  rewrite Hglyph. simpl. now eexists.
Qed.

Lemma block_read_ok (pixels : pixel_access) (y x : Z) :
  pixel_ok pixels x y = true ->
  pixel_ok pixels x (int_add y 1) = true ->
  exists cell, block_read pixels y x = Ok cell.
Proof.
  unfold pixel_ok, block_read, read.
  destruct (pixels x y) as [t|]; [|discriminate].
  destruct (pixels x (int_add y 1)) as [b|]; [|discriminate].
  intros Ht Hb. apply c_intb_spec in Ht, Hb.
  simpl. rewrite (as_int_ok _ Ht). simpl. rewrite (as_int_ok _ Hb). simpl.
  now eexists.
Qed.

Lemma term_cells_glyphs (pixels pixels_gray : pixel_access)
  (ascii_palette : list string) (ascii_palette_len y : Z)
  (xs : list Z) (cells : list (Z * string)) :
  forallb is_glyph ascii_palette = true ->
  mapM (term_read pixels pixels_gray ascii_palette ascii_palette_len y) xs
  = Ok cells ->
  Forall (fun cell => is_glyph (snd cell) = true) cells.
Proof.
  intros Hramp Hcells. apply Forall_forall. intros [color glyph] Hin.
  destruct (mapM_in _ _ _ Hcells _ Hin) as (x & _ & Hx).
  apply term_read_inv in Hx. destruct Hx as (g & p & _ & _ & _ & _ & _ & Hg).
  apply getitem_in in Hg. rewrite forallb_forall in Hramp. now apply Hramp.
Qed.

(** ** Line breaks *)

Lemma bg_not_nl (color : Z) : all_chars not_nl (bg_of color) = true.
Proof.
  unfold bg_of. rewrite !all_chars_app, str_not_nl. reflexivity.
Qed.

Lemma fg_not_nl (color : Z) : all_chars not_nl (fg_of color) = true.
Proof.
  unfold fg_of. rewrite !all_chars_app, str_not_nl. reflexivity.
Qed.

Lemma left_not_nl (bg_color padding_w : Z) :
  all_chars not_nl (left_text (bg_of bg_color) padding_w) = true.
Proof.
  unfold left_text. destruct (padding_w >? 0); [|reflexivity].
  now rewrite all_chars_app, bg_not_nl, str_mul_not_nl.
Qed.

Lemma right_not_nl (bg_color screen_width padding_w img_width : Z) :
  all_chars not_nl
    (right_text (bg_of bg_color) screen_width padding_w img_width) = true.
Proof.
  unfold right_text. destruct (_ <? _); [|reflexivity].
  now rewrite all_chars_app, bg_not_nl, str_mul_not_nl.
Qed.

Lemma padding_row_not_nl (bg_color screen_width : Z) :
  all_chars not_nl (padding_row (bg_of bg_color) screen_width) = true.
Proof.
  unfold padding_row.
  now rewrite !all_chars_app, bg_not_nl, str_mul_not_nl.
Qed.

Lemma paint_term_not_nl (cells : list (Z * string)) :
  Forall (fun cell => all_chars not_nl (snd cell) = true) cells ->
  forall current_fg, all_chars not_nl (paint_term current_fg cells) = true.
Proof.
  induction 1 as [|[color glyph] cells Hg _ IH]; intros current_fg;
    cbn [paint_term]; [reflexivity|].
  simpl in Hg. rewrite !all_chars_app, Hg, IH.
  destruct (color =? current_fg); [reflexivity|]. now rewrite fg_not_nl.
Qed.

Lemma paint_block_not_nl (cells : list (Z * Z)) :
  forall current_fg current_bg,
    all_chars not_nl (paint_block current_fg current_bg cells) = true.
Proof.
  induction cells as [|[top_color bot_color] cells IH];
    intros current_fg current_bg; cbn [paint_block]; [reflexivity|].
  rewrite !all_chars_app, IH.
  destruct (top_color =? current_fg); destruct (bot_color =? current_bg);
    rewrite ?fg_not_nl, ?bg_not_nl; reflexivity.
Qed.

Lemma split_lines_break (l rest : string) :
  all_chars not_nl l = true ->
  split_lines (l ++ String nl_char rest) = l :: split_lines rest.
Proof.
  induction l as [|c l IH]; intros H.
  - reflexivity.
  - cbn [all_chars] in H. apply andb_true_iff in H. destruct H as [Hc Hl].
    unfold not_nl in Hc. apply negb_true_iff in Hc.
    cbn [append split_lines]. rewrite Hc, IH by assumption. reflexivity.
Qed.

Lemma split_lines_single (l : string) :
  all_chars not_nl l = true -> split_lines l = [l].
Proof.
  induction l as [|c l IH]; intros H.
  - reflexivity.
  - cbn [all_chars] in H. apply andb_true_iff in H. destruct H as [Hc Hl].
    unfold not_nl in Hc. apply negb_true_iff in Hc.
    cbn [split_lines]. rewrite Hc, IH by assumption. reflexivity.
Qed.

Lemma split_lines_join (lines : list string) :
  lines <> [] ->
  Forall (fun l => all_chars not_nl l = true) lines ->
  split_lines (join NL lines) = lines.
Proof.
  intros Hne Hall. induction Hall as [|l lines Hl Hall IH]; [contradiction|].
  destruct lines as [|l' lines].
  - simpl. now apply split_lines_single.
  - change (join NL (l :: l' :: lines))
      with (l ++ String nl_char (join NL (l' :: lines))).
    rewrite split_lines_break by assumption. f_equal. now apply IH.
Qed.

(** ** Anatomy of the lines *)

Lemma reset_closes (body : string) (toks : list token) :
  renders body toks ->
  tokens (body ++ RESET) = (toks ++ [Seq RESET])%list
  /\ ends_with_reset (body ++ RESET).
Proof.
  intros H.
  assert (Ht : tokens (body ++ RESET) = (toks ++ [Seq RESET])%list).
  { apply renders_tokens. apply renders_app; [assumption|apply renders_reset]. }
  split; [assumption|].
  exists body. split; [reflexivity|]. now rewrite Ht, (renders_tokens _ _ H).
Qed.

Lemma padding_row_tokens (bg_color screen_width : Z) :
  tokens (padding_row (bg_of bg_color) screen_width)
  = Seq (bg_of bg_color) :: spaces_tokens screen_width ++ [Seq RESET].
Proof.
  apply renders_tokens, renders_padding_row.
Qed.

Lemma padding_row_reset (bg_color screen_width : Z) :
  ends_with_reset (padding_row (bg_of bg_color) screen_width).
Proof.
  unfold padding_row. rewrite <- append_assoc.
  apply (reset_closes _ (Seq (bg_of bg_color) :: spaces_tokens screen_width)).
  apply (renders_app _ _ [_]); [apply renders_bg|apply renders_spaces].
Qed.

Lemma padding_row_width (bg_color screen_width : Z) :
  visible_width (padding_row (bg_of bg_color) screen_width)
  = Z.to_nat screen_width.
Proof.
  rewrite visible_width_tokens, padding_row_tokens.
  change (Seq (bg_of bg_color) :: spaces_tokens screen_width ++ [Seq RESET])
    with ([Seq (bg_of bg_color)] ++ spaces_tokens screen_width
          ++ [Seq RESET])%list.
  rewrite !token_width_app, token_width_spaces. unfold token_width. simpl. lia.
Qed.

Lemma padding_row_escapes (bg_color screen_width : Z) :
  escapes (padding_row (bg_of bg_color) screen_width)
  = [bg_of bg_color; RESET].
Proof.
  unfold escapes. rewrite padding_row_tokens.
  change (Seq (bg_of bg_color) :: spaces_tokens screen_width ++ [Seq RESET])
    with ([Seq (bg_of bg_color)] ++ spaces_tokens screen_width
          ++ [Seq RESET])%list.
  rewrite !seqs_app, seqs_spaces. reflexivity.
Qed.

Lemma term_row_anatomy (pixels pixels_gray : pixel_access) (bg_color : Z)
  (ascii_palette : list string)
  (ascii_palette_len screen_width img_width padding_w y : Z) (row : string) :
  forallb is_glyph ascii_palette = true ->
  term_row pixels pixels_gray (bg_of bg_color) ascii_palette ascii_palette_len
    screen_width img_width padding_w y = Ok row ->
  exists cells body,
    mapM (term_read pixels pixels_gray ascii_palette ascii_palette_len y)
         (range img_width) = Ok cells
    /\ Forall (fun cell => is_glyph (snd cell) = true) cells
    /\ body = left_text (bg_of bg_color) padding_w ++ paint_term (-1) cells
              ++ right_text (bg_of bg_color) screen_width padding_w img_width
    /\ row = body ++ RESET
    /\ renders body
         (left_tokens (bg_of bg_color) padding_w ++ term_tokens (-1) cells
          ++ right_tokens (bg_of bg_color) screen_width padding_w img_width).
Proof.
  intros Hramp Hrow. rewrite term_row_text in Hrow.
  destruct (mapM _ _) as [cells|] eqn:Hcells; simpl in Hrow; [|discriminate].
  injection Hrow as <-.
  pose proof (term_cells_glyphs _ _ _ _ _ _ _ Hramp Hcells) as Hglyphs.
  exists cells. eexists. split; [reflexivity|]. split; [assumption|].
  split; [reflexivity|]. split; [now rewrite !append_assoc|].
  apply renders_app; [apply renders_left|].
  apply renders_app; [|apply renders_right].
  apply renders_term. eapply Forall_impl; [|exact Hglyphs].
  intros cell Hc. now apply glyph_facts in Hc.
Qed.

Lemma block_row_anatomy (pixels : pixel_access) (bg_color : Z)
  (screen_width img_width padding_w y : Z) (row : string) :
  block_row pixels (bg_of bg_color) screen_width img_width padding_w y
  = Ok row ->
  exists cells body,
    mapM (block_read pixels y) (range img_width) = Ok cells
    /\ body = left_text (bg_of bg_color) padding_w
              ++ paint_block (-1) (-1) cells
              ++ right_text (bg_of bg_color) screen_width padding_w img_width
    /\ row = body ++ RESET
    /\ renders body
         (left_tokens (bg_of bg_color) padding_w
          ++ block_tokens (-1) (-1) cells
          ++ right_tokens (bg_of bg_color) screen_width padding_w img_width).
Proof.
  intros Hrow. rewrite block_row_text in Hrow.
  destruct (mapM _ _) as [cells|] eqn:Hcells; simpl in Hrow; [|discriminate].
  injection Hrow as <-.
  exists cells. eexists. split; [reflexivity|].
  split; [reflexivity|]. split; [now rewrite !append_assoc|].
  apply renders_app; [apply renders_left|].
  apply renders_app; [apply renders_block|apply renders_right].
Qed.

(** Every line of a call is a padding row or an image row. *)
Lemma img_to_term_lines_in (pixels pixels_gray : pixel_access) (bg_color : Z)
  (ascii_palette : list string)
  (ascii_palette_len screen_width screen_height img_width img_height : Z)
  (lines : list string) :
  img_to_term_lines pixels pixels_gray bg_color ascii_palette
    ascii_palette_len screen_width screen_height img_width img_height
  = Ok lines ->
  forall line, In line lines ->
    line = padding_row (bg_of bg_color) screen_width
    \/ exists y,
        0 <= y < img_height
        /\ term_row pixels pixels_gray (bg_of bg_color) ascii_palette
             ascii_palette_len screen_width img_width
             (floordiv (int_sub screen_width img_width) 2) y = Ok line.
Proof.
  rewrite img_to_term_lines_shape.
  destruct (mapM _ _) as [rows|] eqn:Hrows; simpl; [|discriminate].
  intros [= <-] line Hin. rewrite !in_app_iff in Hin.
  destruct Hin as [Hin|[Hin|Hin]].
  - left. now apply repeat_spec in Hin.
  - right. destruct (mapM_in _ _ _ Hrows _ Hin) as (y & Hy & Hrow).
    exists y. split; [now apply in_range|assumption].
  - left. now apply repeat_spec in Hin.
Qed.

Lemma range_by2_rows (img_height y : Z) :
  In y (range_by2 (int_sub img_height 1)) -> int_add y 1 = y + 1.
Proof.
  intros H. apply in_range_by2 in H. destruct H as [H _].
  assert (c_int (int_sub img_height 1)).
  { unfold int_sub, wrap, c_int, int_min, int_max.
    pose proof (Z.mod_pos_bound (img_height - 1 - - 2 ^ 31) (2 ^ 32)). lia. }
  unfold int_add. apply wrap_id. unfold c_int, int_min, int_max in *. lia.
Qed.

Lemma img_to_term_block_lines_in (pixels : pixel_access) (bg_color : Z)
  (screen_width screen_height img_width img_height : Z)
  (lines : list string) :
  img_to_term_block_lines pixels bg_color screen_width screen_height img_width
    img_height = Ok lines ->
  forall line, In line lines ->
    line = padding_row (bg_of bg_color) screen_width
    \/ exists y,
        In y (range_by2 (int_sub img_height 1))
        /\ block_row pixels (bg_of bg_color) screen_width img_width
             (floordiv (int_sub screen_width img_width) 2) y = Ok line.
Proof.
  rewrite img_to_term_block_lines_shape.
  destruct (mapM _ _) as [rows|] eqn:Hrows; simpl; [|discriminate].
  intros [= <-] line Hin. rewrite !in_app_iff in Hin.
  destruct Hin as [Hin|[Hin|Hin]].
  - left. now apply repeat_spec in Hin.
  - right. destruct (mapM_in _ _ _ Hrows _ Hin) as (y & Hy & Hrow).
    exists y. split; assumption.
  - left. now apply repeat_spec in Hin.
Qed.

(** * The claims *)

(** ** Row termination *)

(** C7. Every line of [out_lines], in both encoders, whether it is a
    top-padding row, an image row or a bottom-padding row, ends with the text
    [ESC[0m], and a terminal reads that text as the last escape sequence of
    the line: the line is some body followed by the reset. Holds for every
    call that returns, whatever the geometry. *)
Theorem every_line_ends_with_reset (pixels pixels_gray : pixel_access)
  (bg_color : Z) (ascii_palette : list string)
  (ascii_palette_len screen_width screen_height img_width img_height : Z) :
  forallb is_glyph ascii_palette = true ->
  (forall lines,
      img_to_term_lines pixels pixels_gray bg_color ascii_palette
        ascii_palette_len screen_width screen_height img_width img_height
      = Ok lines ->
      Forall ends_with_reset lines)
  /\ (forall lines,
        img_to_term_block_lines pixels bg_color screen_width screen_height
          img_width img_height = Ok lines ->
        Forall ends_with_reset lines).
Proof.
  intros Hramp. split; intros lines Hlines; apply Forall_forall;
    intros line Hin.
  - destruct (img_to_term_lines_in _ _ _ _ _ _ _ _ _ _ Hlines line Hin)
      as [->|(y & _ & Hrow)]; [apply padding_row_reset|].
    apply term_row_anatomy in Hrow; [|assumption].
    destruct Hrow as (cells & body & _ & _ & _ & -> & Hbody).
    exact (proj2 (reset_closes _ _ Hbody)).
  - destruct (img_to_term_block_lines_in _ _ _ _ _ _ _ Hlines line Hin)
      as [->|(y & _ & Hrow)]; [apply padding_row_reset|].
    apply block_row_anatomy in Hrow.
    destruct Hrow as (cells & body & _ & _ & -> & Hbody).
    exact (proj2 (reset_closes _ _ Hbody)).
Qed.

Lemma every_line_ends_with_reset_example :
  (exists lines,
      img_to_term_lines (flat_picture 2 2 0) (flat_picture 2 2 0) 0
        ["."; " "] 2 4 2 2 2 = Ok lines
      /\ length lines = 2%nat /\ Forall ends_with_reset lines)
  /\ (exists lines,
        img_to_term_block_lines (flat_picture 2 3 0) 7 4 3 2 3 = Ok lines
        /\ length lines = 3%nat /\ Forall ends_with_reset lines).
Proof.
  split; eexists; (split; [vm_compute; reflexivity|]);
    (split; [reflexivity|]).
  - apply (proj1 (every_line_ends_with_reset (flat_picture 2 2 0)
                    (flat_picture 2 2 0) 0 ["."; " "] 2 4 2 2 2 eq_refl)).
    reflexivity.
  - apply (proj2 (every_line_ends_with_reset (flat_picture 2 3 0)
                    no_picture 7 [] 0 4 3 2 3 eq_refl)).
    reflexivity.
Defined.

(** ** Visible width *)

Lemma token_width_seq (e : string) : token_width [Seq e] = O.
Proof.
  reflexivity.
Qed.

Lemma left_tokens_width (bg : string) (padding_w : Z) :
  token_width (left_tokens bg padding_w) = Z.to_nat padding_w.
Proof.
  unfold left_tokens. destruct (Z.gtb_spec padding_w 0).
  - change (Seq bg :: spaces_tokens padding_w)
      with ([Seq bg] ++ spaces_tokens padding_w)%list.
    now rewrite token_width_app, token_width_spaces.
  - unfold token_width. simpl. lia.
Qed.

Lemma right_tokens_width (bg : string)
  (screen_width screen_height img_width img_height : Z) :
  valid_geometry screen_width screen_height img_width img_height ->
  token_width (right_tokens bg screen_width
                 ((screen_width - img_width) / 2) img_width)
  = Z.to_nat (screen_width - ((screen_width - img_width) / 2 + img_width)).
Proof.
  intros Hgeo. unfold right_tokens.
  rewrite (geometry_visible_len _ _ _ _ Hgeo),
    (geometry_right_width _ _ _ _ Hgeo).
  destruct (Z.ltb_spec ((screen_width - img_width) / 2 + img_width)
              screen_width).
  - change (Seq bg :: ?l) with ([Seq bg] ++ l)%list.
    now rewrite token_width_app, token_width_spaces.
  - unfold token_width. simpl. lia.
Qed.

Lemma row_width_sum (screen_width screen_height img_width img_height : Z) :
  valid_geometry screen_width screen_height img_width img_height ->
  Z.of_nat
    (Z.to_nat ((screen_width - img_width) / 2) + (Z.to_nat img_width
     + (Z.to_nat (screen_width - ((screen_width - img_width) / 2 + img_width))
        + 0)))
  = screen_width.
Proof.
  intros Hgeo. pose proof (geometry_padding_w_bounds _ _ _ _ Hgeo).
  destruct Hgeo as (_ & _ & Hw & _). lia.
Qed.

(** C2. Under valid geometry, every line of [out_lines] of either encoder,
    once its escape sequences are removed, holds exactly [screen_width]
    character cells. *)
Theorem every_line_fills_the_width (pixels pixels_gray : pixel_access)
  (bg_color : Z) (ascii_palette : list string)
  (ascii_palette_len screen_width screen_height img_width img_height : Z) :
  valid_geometry screen_width screen_height img_width img_height ->
  forallb is_glyph ascii_palette = true ->
  (forall lines,
      img_to_term_lines pixels pixels_gray bg_color ascii_palette
        ascii_palette_len screen_width screen_height img_width img_height
      = Ok lines ->
      Forall (fun line => Z.of_nat (visible_width line) = screen_width) lines)
  /\ (forall lines,
        img_to_term_block_lines pixels bg_color screen_width screen_height
          img_width img_height = Ok lines ->
        Forall (fun line => Z.of_nat (visible_width line) = screen_width)
               lines).
Proof.
  intros Hgeo Hramp.
  assert (Hpad : Z.of_nat (visible_width
                             (padding_row (bg_of bg_color) screen_width))
                 = screen_width).
  { rewrite padding_row_width. destruct Hgeo as (_ & _ & Hw & _). lia. }
  split; intros lines Hlines; apply Forall_forall; intros line Hin.
  - destruct (img_to_term_lines_in _ _ _ _ _ _ _ _ _ _ Hlines line Hin)
      as [->|(y & _ & Hrow)]; [exact Hpad|].
    rewrite (geometry_padding_w _ _ _ _ Hgeo) in Hrow.
    apply term_row_anatomy in Hrow; [|assumption].
    destruct Hrow as (cells & body & Hcells & Hglyphs & _ & -> & Hbody).
    rewrite visible_width_tokens, (proj1 (reset_closes _ _ Hbody)).
    rewrite !token_width_app, left_tokens_width,
      (right_tokens_width _ _ _ _ _ Hgeo), token_width_seq, token_width_term.
    + rewrite (mapM_length _ _ _ Hcells), range_length.
      pose proof (row_width_sum _ _ _ _ Hgeo). lia.
    + eapply Forall_impl; [|exact Hglyphs].
      intros cell Hc. now apply glyph_facts in Hc.
  - destruct (img_to_term_block_lines_in _ _ _ _ _ _ _ Hlines line Hin)
      as [->|(y & _ & Hrow)]; [exact Hpad|].
    rewrite (geometry_padding_w _ _ _ _ Hgeo) in Hrow.
    apply block_row_anatomy in Hrow.
    destruct Hrow as (cells & body & Hcells & _ & -> & Hbody).
    rewrite visible_width_tokens, (proj1 (reset_closes _ _ Hbody)).
    rewrite !token_width_app, left_tokens_width,
      (right_tokens_width _ _ _ _ _ Hgeo), token_width_seq,
      token_width_block.
    rewrite (mapM_length _ _ _ Hcells), range_length.
    pose proof (row_width_sum _ _ _ _ Hgeo). lia.
Qed.

Ltac geometry := unfold valid_geometry, c_int, int_min, int_max; lia.

Lemma every_line_fills_the_width_example :
  (exists lines,
      img_to_term_lines (flat_picture 2 2 0) (flat_picture 2 2 0) 0
        ["."; " "] 2 4 2 2 2 = Ok lines
      /\ Forall (fun line => Z.of_nat (visible_width line) = 4) lines)
  /\ (exists lines,
        img_to_term_block_lines (flat_picture 2 3 0) 7 4 3 2 3 = Ok lines
        /\ Forall (fun line => Z.of_nat (visible_width line) = 4) lines).
Proof.
  split; eexists; (split; [vm_compute; reflexivity|]).
  - apply (proj1 (every_line_fills_the_width (flat_picture 2 2 0)
                    (flat_picture 2 2 0) 0 ["."; " "] 2 4 2 2 2
                    ltac:(geometry) eq_refl)).
    reflexivity.
  - apply (proj2 (every_line_fills_the_width (flat_picture 2 3 0)
                    no_picture 7 [] 0 4 3 2 3 ltac:(geometry) eq_refl)).
    reflexivity.
Defined.

(** ** Escape sequences *)

Lemma str_decimal (n : Z) :
  option_map Z.of_int (NilZero.int_of_string (str n)) = Some n.
Proof.
  unfold str. rewrite NilZero.isi.
  - simpl. now rewrite DecimalZ.of_to.
  - destruct n; simpl; try discriminate.
    intros [= H]. revert H. apply DecimalPos.Unsigned.to_uint_nonnil.
  - destruct n; simpl; try discriminate.
    intros [= H]. revert H. apply DecimalPos.Unsigned.to_uint_nonnil.
Qed.

Lemma seqs_left (bg : string) (padding_w : Z) :
  Forall (fun e => e = bg) (seqs (left_tokens bg padding_w)).
Proof.
  unfold left_tokens. destruct (padding_w >? 0); [|constructor].
  change (Seq bg :: spaces_tokens padding_w)
    with ([Seq bg] ++ spaces_tokens padding_w)%list.
  rewrite seqs_app, seqs_spaces. repeat constructor.
Qed.

Lemma seqs_right (bg : string) (screen_width padding_w img_width : Z) :
  Forall (fun e => e = bg)
         (seqs (right_tokens bg screen_width padding_w img_width)).
Proof.
  unfold right_tokens. destruct (_ <? _); [|constructor].
  change (Seq bg :: ?l) with ([Seq bg] ++ l)%list.
  rewrite seqs_app, seqs_spaces. repeat constructor.
Qed.

Lemma heads_from_in (l : list Z) :
  forall current c, In c (heads_from current l) -> In c l.
Proof.
  induction l as [|a l IH]; intros current c; cbn [heads_from];
    [contradiction|].
  destruct (a =? current).
  - intros H. right. now apply (IH a).
  - intros [<-|H]; [now left|]. right. now apply (IH a).
Qed.

Lemma seqs_block_in (cells : list (Z * Z)) :
  forall current_fg current_bg e,
    In e (seqs (block_tokens current_fg current_bg cells)) ->
    exists top_color bot_color,
      In (top_color, bot_color) cells
      /\ (e = fg_of top_color \/ e = bg_of bot_color).
Proof.
  induction cells as [|[top_color bot_color] cells IH];
    intros current_fg current_bg e; cbn [block_tokens]; [contradiction|].
  rewrite !seqs_app, seqs_text, !in_app_iff.
  intros [H|[H|[H|H]]].
  - destruct (top_color =? current_fg); [contradiction|].
    destruct H as [<-|[]]. exists top_color, bot_color.
    split; [now left|now left].
  - destruct (bot_color =? current_bg); [contradiction|].
    destruct H as [<-|[]]. exists top_color, bot_color.
    split; [now left|now right].
  - contradiction.
  - destruct (IH _ _ _ H) as (t & b & Hin & He).
    exists t, b. split; [now right|assumption].
Qed.

(** C8. Every escape sequence found in a line of either encoder is one of
    [ESC[0m], [ESC[48;5;<code>m] and [ESC[38;5;<code>m], where [ESC] is the one
    character of code 27 and [<code>] is the decimal numeral [str] of a
    value: the background colour [bg_color] of the call in the padding, and
    the value of a pixel of the picture plus 16 in the cells. Reading a
    decimal numeral [str n] back gives [n]. *)
Theorem escape_sequences_have_three_forms (pixels pixels_gray : pixel_access)
  (bg_color : Z) (ascii_palette : list string)
  (ascii_palette_len screen_width screen_height img_width img_height : Z) :
  forallb is_glyph ascii_palette = true ->
  ESC = String (ascii_of_nat 27) ""
  /\ (forall n, option_map Z.of_int (NilZero.int_of_string (str n)) = Some n)
  /\ (forall lines,
        img_to_term_lines pixels pixels_gray bg_color ascii_palette
          ascii_palette_len screen_width screen_height img_width img_height
        = Ok lines ->
        Forall (fun line =>
                  Forall (term_escape pixels bg_color img_width img_height)
                         (escapes line)) lines)
  /\ (forall lines,
        img_to_term_block_lines pixels bg_color screen_width screen_height
          img_width img_height = Ok lines ->
        Forall (fun line =>
                  Forall (block_escape pixels bg_color img_width img_height)
                         (escapes line)) lines).
Proof.
  intros Hramp. split; [reflexivity|]. split; [exact str_decimal|].
  split; intros lines Hlines; apply Forall_forall; intros line Hin.
  - destruct (img_to_term_lines_in _ _ _ _ _ _ _ _ _ _ Hlines line Hin)
      as [->|(y & Hy & Hrow)].
    + rewrite padding_row_escapes.
      constructor; [right; now left|]. constructor; [now left|constructor].
    + apply term_row_anatomy in Hrow; [|assumption].
      destruct Hrow as (cells & body & Hcells & _ & _ & -> & Hbody).
      unfold escapes. rewrite (proj1 (reset_closes _ _ Hbody)).
      rewrite !seqs_app, !Forall_app. repeat split.
      * eapply Forall_impl; [|apply seqs_left]. intros e ->. right. now left.
      * rewrite seqs_term. apply Forall_forall. intros e He.
        apply in_map_iff in He. destruct He as (c & <- & Hc).
        apply heads_from_in, in_map_iff in Hc.
        destruct Hc as ([c' glyph] & Hfst & Hcell). simpl in Hfst. subst c'.
        destruct (mapM_in _ _ _ Hcells _ Hcell) as (x & Hx & Hread).
        apply term_read_inv in Hread.
        destruct Hread as (g & p & _ & _ & Hp & _ & -> & _).
        right. right. exists x, y, p. apply in_range in Hx.
        repeat (split; [assumption|]). reflexivity.
      * eapply Forall_impl; [|apply seqs_right]. intros e ->. right. now left.
      * constructor; [now left|constructor].
  - destruct (img_to_term_block_lines_in _ _ _ _ _ _ _ Hlines line Hin)
      as [->|(y & Hy & Hrow)].
    + rewrite padding_row_escapes.
      constructor; [right; now left|]. constructor; [now left|constructor].
    + apply block_row_anatomy in Hrow.
      destruct Hrow as (cells & body & Hcells & _ & -> & Hbody).
      unfold escapes. rewrite (proj1 (reset_closes _ _ Hbody)).
      rewrite !seqs_app, !Forall_app. repeat split.
      * eapply Forall_impl; [|apply seqs_left]. intros e ->. right. now left.
      * apply Forall_forall. intros e He.
        apply seqs_block_in in He. destruct He as (t & b & Hcell & He).
        destruct (mapM_in _ _ _ Hcells _ Hcell) as (x & Hx & Hread).
        apply block_read_inv in Hread.
        destruct Hread as (pt & pb & Hpt & _ & -> & Hpb & _ & ->).
        rewrite (range_by2_rows _ _ Hy) in Hpb. apply in_range in Hx.
        right. right. destruct He as [->| ->].
        -- exists x, y, pt. split; [assumption|]. split; [assumption|].
           left. split; [assumption|reflexivity].
        -- exists x, y, pb. split; [assumption|]. split; [assumption|].
           right. split; [assumption|reflexivity].
      * eapply Forall_impl; [|apply seqs_right]. intros e ->. right. now left.
      * constructor; [now left|constructor].
Qed.

Lemma escape_sequences_have_three_forms_example :
  exists lines,
    img_to_term_block_lines (flat_picture 2 3 0) 7 4 3 2 3 = Ok lines
    /\ Forall (fun line =>
                 Forall (block_escape (flat_picture 2 3 0) 7 2 3)
                        (escapes line)) lines.
Proof.
  eexists. split; [vm_compute; reflexivity|].
  apply (proj2 (proj2 (proj2 (escape_sequences_have_three_forms
                                (flat_picture 2 3 0) no_picture 7 [] 0
                                4 3 2 3 eq_refl)))).
  reflexivity.
Defined.

(** ** Colour coalescing *)

Lemma filter_none {A : Type} (f : A -> bool) (l : list A) :
  Forall (fun a => f a = false) l -> filter f l = [].
Proof.
  induction 1 as [|a l Ha _ IH]; [reflexivity|].
  cbn [filter]. now rewrite Ha.
Qed.

Lemma fg_seqs_padding (bg_color : Z) (toks : list token) :
  Forall (fun e => e = bg_of bg_color) (seqs toks) ->
  filter is_fg (seqs toks) = [].
Proof.
  intros H. apply filter_none. eapply Forall_impl; [|exact H].
  intros e ->. apply is_fg_bg.
Qed.

Lemma term_cells_colors (pixels pixels_gray : pixel_access)
  (ascii_palette : list string) (ascii_palette_len y : Z) :
  forall (xs : list Z) (cells : list (Z * string)),
    mapM (term_read pixels pixels_gray ascii_palette ascii_palette_len y) xs
    = Ok cells ->
    map fst cells
    = map (fun x => match pixels x y with Some p => p + 16 | None => 0 end) xs.
Proof.
  intros xs cells H. apply mapM_forall2 in H.
  induction H as [|x [color glyph] xs cells Hread _ IH]; [reflexivity|].
  apply term_read_inv in Hread.
  destruct Hread as (g & p & _ & _ & Hp & _ & -> & _).
  cbn [map fst]. now rewrite Hp, IH.
Qed.

Lemma block_cells_colors (pixels : pixel_access) (y : Z) :
  forall (xs : list Z) (cells : list (Z * Z)),
    mapM (block_read pixels y) xs = Ok cells ->
    map fst cells
    = map (fun x => match pixels x y with Some p => p + 16 | None => 0 end) xs.
Proof.
  intros xs cells H. apply mapM_forall2 in H.
  induction H as [|x [top_color bot_color] xs cells Hread _ IH];
    [reflexivity|].
  apply block_read_inv in Hread.
  destruct Hread as (t & b & Ht & _ & -> & _).
  cbn [map fst]. now rewrite Ht, IH.
Qed.

Lemma row_colors_set (pixels : pixel_access) (img_width y : Z) :
  (forall x, 0 <= x < img_width -> pixel_index pixels x y = true) ->
  Forall (fun c => c <> -1) (row_colors pixels img_width y).
Proof.
  intros H. unfold row_colors. apply Forall_forall. intros c Hc.
  apply in_map_iff in Hc. destruct Hc as (x & <- & Hx).
  apply in_range in Hx. specialize (H x Hx). unfold pixel_index in H.
  destruct (pixels x y) as [p|]; [|discriminate].
  apply andb_true_iff in H. destruct H as [H _]. apply Z.leb_le in H. lia.
Qed.

Lemma run_heads_first (l : list Z) :
  hd_error (map fg_of (run_heads l)) = hd_error (map fg_of l).
Proof.
  destruct l as [|a l]; [reflexivity|]. now rewrite run_heads_cons.
Qed.

(** C4. In an image row of either encoder whose pixels hold palette indices,
    the foreground escape sequences are, in order, those of the first colour
    of every maximal run of equal colours of the row (colours after the
    offset of 16; for the half-block encoder, the colours of the upper
    source row): their number is the number of runs. The tracker starts
    every row unset, so the first of them is the first pixel's colour,
    whatever came on the row before. *)
Theorem one_fg_escape_per_run (pixels pixels_gray : pixel_access)
  (bg_color : Z) (ascii_palette : list string)
  (ascii_palette_len screen_width img_width padding_w y : Z) :
  forallb is_glyph ascii_palette = true ->
  forallb (fun x => pixel_index pixels x y) (range img_width) = true ->
  let colors := row_colors pixels img_width y in
  (forall row,
      term_row pixels pixels_gray (bg_of bg_color) ascii_palette
        ascii_palette_len screen_width img_width padding_w y = Ok row ->
      fg_escapes row = map fg_of (run_heads colors)
      /\ length (fg_escapes row) = runs colors
      /\ hd_error (fg_escapes row) = hd_error (map fg_of colors))
  /\ (forall row,
        block_row pixels (bg_of bg_color) screen_width img_width padding_w y
        = Ok row ->
        fg_escapes row = map fg_of (run_heads colors)
        /\ length (fg_escapes row) = runs colors
        /\ hd_error (fg_escapes row) = hd_error (map fg_of colors)).
Proof.
  intros Hramp Hpixels colors.
  assert (Hset : Forall (fun c => c <> -1) colors).
  { apply row_colors_set. intros x Hx. rewrite forallb_forall in Hpixels.
    now apply Hpixels, in_range. }
  assert (Hfinish : forall row,
             fg_escapes row = map fg_of (heads_from (-1) colors) ->
             fg_escapes row = map fg_of (run_heads colors)
             /\ length (fg_escapes row) = runs colors
             /\ hd_error (fg_escapes row) = hd_error (map fg_of colors)).
  { intros row Hrow. rewrite (heads_from_unset _ _ Hset) in Hrow.
    rewrite Hrow. split; [reflexivity|]. split.
    - unfold runs. apply length_map.
    - apply run_heads_first. }
  split; intros row Hrow; apply Hfinish.
  - apply term_row_anatomy in Hrow; [|assumption].
    destruct Hrow as (cells & body & Hcells & _ & _ & -> & Hbody).
    unfold fg_escapes, escapes. rewrite (proj1 (reset_closes _ _ Hbody)).
    rewrite !seqs_app, !filter_app, seqs_term.
    rewrite (fg_seqs_padding bg_color) by apply seqs_left.
    rewrite (fg_seqs_padding bg_color (right_tokens _ _ _ _))
      by apply seqs_right.
    rewrite filter_fg_map, (term_cells_colors _ _ _ _ _ _ _ Hcells).
    cbn [seqs flat_map filter app].
    change (is_fg RESET) with false. now rewrite !app_nil_r.
  - apply block_row_anatomy in Hrow.
    destruct Hrow as (cells & body & Hcells & _ & -> & Hbody).
    unfold fg_escapes, escapes. rewrite (proj1 (reset_closes _ _ Hbody)).
    rewrite !seqs_app, !filter_app, fg_seqs_block.
    rewrite (fg_seqs_padding bg_color) by apply seqs_left.
    rewrite (fg_seqs_padding bg_color (right_tokens _ _ _ _))
      by apply seqs_right.
    rewrite (block_cells_colors _ _ _ _ Hcells).
    cbn [seqs flat_map filter app].
    change (is_fg RESET) with false. now rewrite !app_nil_r.
Qed.

Lemma one_fg_escape_per_run_example :
  exists row,
    term_row (grid_picture [[3; 3; 5]; [5; 5; 7]])
      (grid_picture [[0; 0; 0]; [0; 0; 0]]) (bg_of 0) ["."; "#"] 2 5 3 1 1
    = Ok row
    /\ fg_escapes row = [fg_of 21; fg_of 23]
    /\ length (fg_escapes row) = 2%nat
    /\ hd_error (fg_escapes row) = Some (fg_of 21).
Proof.
  eexists. split; [vm_compute; reflexivity|].
  apply (proj1 (one_fg_escape_per_run (grid_picture [[3; 3; 5]; [5; 5; 7]])
                  (grid_picture [[0; 0; 0]; [0; 0; 0]]) 0 ["."; "#"] 2 5 3 1 1
                  eq_refl eq_refl)).
  reflexivity.
Defined.

(** ** Layout of a call under valid geometry *)

Section Layout.

Variables (pixels pixels_gray : pixel_access) (bg_color : Z).
Variables (ascii_palette : list string) (ascii_palette_len : Z).
Variables screen_width screen_height img_width img_height : Z.
Hypothesis geometry :
  valid_geometry screen_width screen_height img_width img_height.

Let bg := bg_of bg_color.
Let pad := padding_row bg screen_width.
Let padding_w := (screen_width - img_width) / 2.

Lemma geometry_img_height_m1 : int_sub img_height 1 = img_height - 1.
Proof.
  destruct geometry as (_ & Hh & _ & Hi). unfold int_sub.
  apply wrap_id. unfold c_int, int_min, int_max in *. lia.
Qed.

Lemma img_to_term_lines_layout :
  img_to_term_lines pixels pixels_gray bg_color ascii_palette
    ascii_palette_len screen_width screen_height img_width img_height
  = rows <- mapM (term_row pixels pixels_gray bg ascii_palette
                    ascii_palette_len screen_width img_width padding_w)
                 (range img_height) ;;
    Ok (repeat pad (Z.to_nat ((screen_height - img_height) / 2)) ++ rows
        ++ repeat pad
             (Z.to_nat (screen_height - (screen_height - img_height) / 2
                        - img_height)))%list.
Proof.
  rewrite img_to_term_lines_shape.
  rewrite (geometry_padding_w _ _ _ _ geometry),
    (geometry_padding_h _ _ _ _ geometry).
  fold bg pad padding_w.
  destruct (mapM _ _) as [rows|] eqn:Hrows; simpl; [|reflexivity].
  apply mapM_length in Hrows. rewrite range_length in Hrows.
  destruct geometry as (_ & _ & _ & Hi).
  assert (0 <= (screen_height - img_height) / 2) by (apply Z.div_pos; lia).
  do 4 f_equal. lia.
Qed.

Lemma img_to_term_block_lines_layout :
  img_to_term_block_lines pixels bg_color screen_width screen_height
    img_width img_height
  = rows <- mapM (block_row pixels bg screen_width img_width padding_w)
                 (range_by2 (img_height - 1)) ;;
    Ok (repeat pad (Z.to_nat ((screen_height - img_height / 2) / 2)) ++ rows
        ++ repeat pad
             (Z.to_nat (screen_height
                        - (screen_height - img_height / 2) / 2
                        - img_height / 2)))%list.
Proof.
  rewrite img_to_term_block_lines_shape.
  rewrite (geometry_padding_w _ _ _ _ geometry),
    (geometry_padding_h_block _ _ _ _ geometry), geometry_img_height_m1.
  fold bg pad padding_w.
  destruct (mapM _ _) as [rows|] eqn:Hrows; simpl; [|reflexivity].
  apply mapM_length in Hrows. rewrite range_by2_length in Hrows.
  replace (img_height - 1 + 1) with img_height in Hrows by lia.
  destruct geometry as (_ & _ & _ & Hi).
  assert (0 <= img_height / 2 <= img_height).
  { split; [apply Z.div_pos; lia|]. apply Z.div_le_upper_bound; lia. }
  assert (0 <= (screen_height - img_height / 2) / 2)
    by (apply Z.div_pos; lia).
  do 4 f_equal. lia.
Qed.

(** The image rows are built without an exception when every pixel of the
    picture can be read and selects a glyph inside the ramp. *)
Lemma term_rows_return :
  all_pixels (pixel_ok pixels) img_width img_height = true ->
  all_pixels (gray_in_ramp pixels_gray ascii_palette ascii_palette_len)
             img_width img_height = true ->
  exists rows,
    mapM (term_row pixels pixels_gray bg ascii_palette ascii_palette_len
            screen_width img_width padding_w) (range img_height) = Ok rows.
Proof.
  intros Hp Hg. rewrite all_pixels_spec in Hp, Hg.
  apply mapM_ok. intros y Hy. apply in_range in Hy.
  rewrite term_row_text.
  destruct (mapM_ok (term_read pixels pixels_gray ascii_palette
                       ascii_palette_len y) (range img_width))
    as (cells & Hcells).
  - intros x Hx. apply in_range in Hx. apply term_read_ok; auto.
  - rewrite Hcells. simpl. now eexists.
Qed.

Lemma block_rows_return :
  all_pixels (pixel_ok pixels) img_width (2 * (img_height / 2)) = true ->
  exists rows,
    mapM (block_row pixels bg screen_width img_width padding_w)
         (range_by2 (img_height - 1)) = Ok rows.
Proof.
  intros Hp. rewrite all_pixels_spec in Hp.
  apply mapM_ok. intros y Hy.
  assert (Hy1 : int_add y 1 = y + 1).
  { apply (range_by2_rows img_height). now rewrite geometry_img_height_m1. }
  apply in_range_by2 in Hy. destruct Hy as [Hy Heven].
  assert (y + 1 < 2 * (img_height / 2)).
  { pose proof (Z.div_mod y 2). pose proof (Z.div_mod img_height 2).
    pose proof (Z.mod_pos_bound img_height 2). lia. }
  rewrite block_row_text.
  destruct (mapM_ok (block_read pixels y) (range img_width))
    as (cells & Hcells).
  - intros x Hx. apply in_range in Hx. apply block_read_ok.
    + apply Hp; lia.
    + rewrite Hy1. apply Hp; lia.
  - rewrite Hcells. simpl. now eexists.
Qed.

End Layout.

(** ** Padding *)

Lemma left_tokens_padding (bg : string) (padding_w : Z) :
  0 <= padding_w ->
  left_tokens bg padding_w = padding_tokens bg (Z.to_nat padding_w).
Proof.
  intros H. unfold left_tokens, padding_tokens, spaces_tokens.
  destruct (Z.gtb_spec padding_w 0);
    destruct (Z.to_nat padding_w) eqn:E; try reflexivity; lia.
Qed.

Lemma right_tokens_padding (bg : string)
  (screen_width screen_height img_width img_height : Z) :
  valid_geometry screen_width screen_height img_width img_height ->
  right_tokens bg screen_width ((screen_width - img_width) / 2) img_width
  = padding_tokens bg
      (Z.to_nat (screen_width
                 - ((screen_width - img_width) / 2 + img_width))).
Proof.
  intros Hgeo. unfold right_tokens, padding_tokens, spaces_tokens.
  rewrite (geometry_visible_len _ _ _ _ Hgeo),
    (geometry_right_width _ _ _ _ Hgeo).
  destruct (Z.ltb_spec ((screen_width - img_width) / 2 + img_width)
              screen_width);
    destruct (Z.to_nat _) eqn:E; try reflexivity; lia.
Qed.

Lemma padding_tokens_width (bg : string) (n : nat) :
  token_width (padding_tokens bg n) = n.
Proof.
  destruct n as [|n]; [reflexivity|].
  unfold padding_tokens.
  change (Seq bg :: repeat (Cell " "%char) (S n))
    with ([Seq bg] ++ repeat (Cell " "%char) (S n))%list.
  rewrite token_width_app, token_width_seq. cbn [Nat.add].
  unfold token_width. generalize (S n). intros k.
  induction k as [|k IH]; simpl; [reflexivity|now rewrite IH].
Qed.

(** The tokens of an image row of [img_to_term] under valid geometry: the
    left padding, the cells read from the row, the right padding, the
    reset. *)
Lemma term_row_exact (pixels pixels_gray : pixel_access) (bg_color : Z)
  (ascii_palette : list string)
  (ascii_palette_len screen_width screen_height img_width img_height y : Z)
  (row : string) :
  valid_geometry screen_width screen_height img_width img_height ->
  forallb is_glyph ascii_palette = true ->
  let padding_w := (screen_width - img_width) / 2 in
  term_row pixels pixels_gray (bg_of bg_color) ascii_palette ascii_palette_len
    screen_width img_width padding_w y = Ok row ->
  exists cells,
    mapM (term_read pixels pixels_gray ascii_palette ascii_palette_len y)
         (range img_width) = Ok cells
    /\ Forall (fun cell => width (snd cell) = 1%nat) cells
    /\ tokens row
       = (padding_tokens (bg_of bg_color) (Z.to_nat padding_w)
          ++ term_tokens (-1) cells
          ++ padding_tokens (bg_of bg_color)
               (Z.to_nat (screen_width - (padding_w + img_width)))
          ++ [Seq RESET])%list.
Proof.
  intros Hgeo Hramp padding_w Hrow.
  apply term_row_anatomy in Hrow; [|assumption].
  destruct Hrow as (cells & body & Hcells & Hglyphs & _ & -> & Hbody).
  exists cells. split; [assumption|]. split.
  - eapply Forall_impl; [|exact Hglyphs].
    intros cell Hc. now apply glyph_facts in Hc.
  - rewrite (proj1 (reset_closes _ _ Hbody)), <- !app_assoc.
    rewrite (right_tokens_padding _ _ _ _ _ Hgeo), left_tokens_padding;
      [reflexivity|].
    apply (geometry_padding_w_bounds _ _ _ _ Hgeo).
Qed.

Lemma block_row_exact (pixels : pixel_access)
  (bg_color screen_width screen_height img_width img_height y : Z)
  (row : string) :
  valid_geometry screen_width screen_height img_width img_height ->
  let padding_w := (screen_width - img_width) / 2 in
  block_row pixels (bg_of bg_color) screen_width img_width padding_w y
  = Ok row ->
  exists cells,
    mapM (block_read pixels y) (range img_width) = Ok cells
    /\ tokens row
       = (padding_tokens (bg_of bg_color) (Z.to_nat padding_w)
          ++ block_tokens (-1) (-1) cells
          ++ padding_tokens (bg_of bg_color)
               (Z.to_nat (screen_width - (padding_w + img_width)))
          ++ [Seq RESET])%list.
Proof.
  intros Hgeo padding_w Hrow.
  apply block_row_anatomy in Hrow.
  destruct Hrow as (cells & body & Hcells & _ & -> & Hbody).
  exists cells. split; [assumption|].
  rewrite (proj1 (reset_closes _ _ Hbody)), <- !app_assoc.
  rewrite (right_tokens_padding _ _ _ _ _ Hgeo), left_tokens_padding;
    [reflexivity|].
  apply (geometry_padding_w_bounds _ _ _ _ Hgeo).
Qed.

(** C6. Under valid geometry the [int] computations of the source give
    [padding_h = (screen_height - img_height) / 2] in [img_to_term],
    [padding_h = (screen_height - img_height / 2) / 2] in
    [img_to_term_block] and [padding_w = (screen_width - img_width) / 2] in
    both, with [/] rounding down. The lines of a call are exactly
    [padding_h] padding rows, then one image row for every row [y] of the
    loop, then padding rows; a padding row is the background sequence,
    [screen_width] spaces and the reset. The image row of [y] is, token for
    token: [padding_w] columns of padding (nothing for [padding_w = 0],
    otherwise the background sequence and [padding_w] spaces), then the
    [img_width] cells read from the pixels of that row, the first of them
    right after the padding, then the right padding and the reset. *)
Theorem padding_centres_the_picture (pixels pixels_gray : pixel_access)
  (bg_color : Z) (ascii_palette : list string)
  (ascii_palette_len screen_width screen_height img_width img_height : Z) :
  valid_geometry screen_width screen_height img_width img_height ->
  forallb is_glyph ascii_palette = true ->
  let bg := bg_of bg_color in
  let pad := padding_row bg screen_width in
  let padding_w := (screen_width - img_width) / 2 in
  let right_w := screen_width - (padding_w + img_width) in
  (floordiv (int_sub screen_height img_height) 2
   = (screen_height - img_height) / 2
   /\ floordiv (int_sub screen_height (floordiv img_height 2)) 2
      = (screen_height - img_height / 2) / 2
   /\ floordiv (int_sub screen_width img_width) 2 = padding_w
   /\ 0 <= (screen_height - img_height) / 2
   /\ 0 <= (screen_height - img_height / 2) / 2
   /\ 0 <= padding_w)
  /\ (forall lines,
        img_to_term_lines pixels pixels_gray bg_color ascii_palette
          ascii_palette_len screen_width screen_height img_width img_height
        = Ok lines ->
        exists rows bottom,
          mapM (term_row pixels pixels_gray bg ascii_palette ascii_palette_len
                  screen_width img_width padding_w) (range img_height)
          = Ok rows
          /\ lines = (repeat pad (Z.to_nat ((screen_height - img_height) / 2))
                      ++ rows ++ repeat pad bottom)%list
          /\ Forall2 (fun y row =>
                        exists cells,
                          mapM (term_read pixels pixels_gray ascii_palette
                                  ascii_palette_len y) (range img_width)
                          = Ok cells
                          /\ length cells = Z.to_nat img_width
                          /\ token_width (term_tokens (-1) cells)
                             = Z.to_nat img_width
                          /\ tokens row
                             = (padding_tokens bg (Z.to_nat padding_w)
                                ++ term_tokens (-1) cells
                                ++ padding_tokens bg (Z.to_nat right_w)
                                ++ [Seq RESET])%list)
                     (range img_height) rows)
  /\ (forall lines,
        img_to_term_block_lines pixels bg_color screen_width screen_height
          img_width img_height = Ok lines ->
        exists rows bottom,
          mapM (block_row pixels bg screen_width img_width padding_w)
               (range_by2 (img_height - 1)) = Ok rows
          /\ lines
             = (repeat pad (Z.to_nat ((screen_height - img_height / 2) / 2))
                ++ rows ++ repeat pad bottom)%list
          /\ Forall2 (fun y row =>
                        exists cells,
                          mapM (block_read pixels y) (range img_width)
                          = Ok cells
                          /\ length cells = Z.to_nat img_width
                          /\ token_width (block_tokens (-1) (-1) cells)
                             = Z.to_nat img_width
                          /\ tokens row
                             = (padding_tokens bg (Z.to_nat padding_w)
                                ++ block_tokens (-1) (-1) cells
                                ++ padding_tokens bg (Z.to_nat right_w)
                                ++ [Seq RESET])%list)
                     (range_by2 (img_height - 1)) rows)
  /\ tokens pad = Seq bg :: spaces_tokens screen_width ++ [Seq RESET]
  /\ (forall n,
        padding_tokens bg n
        = match n with
          | O => []
          | S _ => Seq bg :: repeat (Cell " "%char) n
          end)
  /\ (forall n, token_width (padding_tokens bg n) = n)
  /\ left_tokens bg padding_w = padding_tokens bg (Z.to_nat padding_w).
Proof.
  intros Hgeo Hramp bg pad padding_w right_w.
  split; [|split; [|split; [|split; [|split; [|split]]]]].
  - pose proof (geometry_padding_w_bounds _ _ _ _ Hgeo) as [Hw _].
    rewrite (geometry_padding_h _ _ _ _ Hgeo),
      (geometry_padding_h_block _ _ _ _ Hgeo),
      (geometry_padding_w _ _ _ _ Hgeo).
    destruct Hgeo as (_ & _ & _ & Hi).
    assert (0 <= img_height / 2 <= img_height).
    { split; [apply Z.div_pos; lia|]. apply Z.div_le_upper_bound; lia. }
    repeat (split; [first [reflexivity|assumption|apply Z.div_pos; lia]|]).
    assumption.
  - intros lines Hlines.
    rewrite (img_to_term_lines_layout _ _ _ _ _ _ _ _ _ Hgeo) in Hlines.
    destruct (mapM _ _) as [rows|] eqn:Hrows; simpl in Hlines; [|discriminate].
    injection Hlines as <-. exists rows. eexists.
    split; [reflexivity|]. split; [reflexivity|].
    apply mapM_forall2 in Hrows.
    eapply Forall2_impl; [|exact Hrows].
    intros y row Hrow. cbv beta in Hrow.
    destruct (term_row_exact _ _ _ _ _ _ _ _ _ _ _ Hgeo Hramp Hrow)
      as (cells & Hcells & Hwidths & Htokens).
    exists cells. split; [assumption|].
    split; [now rewrite (mapM_length _ _ _ Hcells), range_length|].
    split; [|exact Htokens].
    rewrite (token_width_term _ Hwidths).
    now rewrite (mapM_length _ _ _ Hcells), range_length.
  - intros lines Hlines.
    rewrite (img_to_term_block_lines_layout _ _ _ _ _ _ Hgeo) in Hlines.
    destruct (mapM _ _) as [rows|] eqn:Hrows; simpl in Hlines; [|discriminate].
    injection Hlines as <-. exists rows. eexists.
    split; [reflexivity|]. split; [reflexivity|].
    apply mapM_forall2 in Hrows.
    eapply Forall2_impl; [|exact Hrows].
    intros y row Hrow. cbv beta in Hrow.
    destruct (block_row_exact _ _ _ _ _ _ _ _ Hgeo Hrow)
      as (cells & Hcells & Htokens).
    exists cells. split; [assumption|].
    split; [now rewrite (mapM_length _ _ _ Hcells), range_length|].
    split; [|exact Htokens].
    rewrite token_width_block.
    now rewrite (mapM_length _ _ _ Hcells), range_length.
  - apply padding_row_tokens.
  - intros n. reflexivity.
  - apply padding_tokens_width.
  - apply left_tokens_padding, (geometry_padding_w_bounds _ _ _ _ Hgeo).
Qed.

Lemma padding_centres_the_picture_example :
  exists lines rows bottom,
    img_to_term_lines (flat_picture 2 2 0) (flat_picture 2 2 0) 0
      ["."; " "] 2 5 5 2 2 = Ok lines
    /\ length rows = 2%nat
    /\ lines = (repeat (padding_row (bg_of 0) 5) 1 ++ rows
                ++ repeat (padding_row (bg_of 0) 5) bottom)%list
    /\ Forall (fun row =>
                 exists cells,
                   tokens row
                   = (padding_tokens (bg_of 0) 1 ++ term_tokens (-1) cells
                      ++ padding_tokens (bg_of 0) 2 ++ [Seq RESET])%list)
              rows.
Proof.
  assert (Hcall : exists lines,
             img_to_term_lines (flat_picture 2 2 0) (flat_picture 2 2 0) 0
               ["."; " "] 2 5 5 2 2 = Ok lines)
    by (vm_compute; eexists; reflexivity).
  destruct Hcall as (lines & Hcall).
  destruct (proj1 (proj2 (padding_centres_the_picture (flat_picture 2 2 0)
                            (flat_picture 2 2 0) 0 ["."; " "] 2 5 5 2 2
                            ltac:(geometry) eq_refl)) lines Hcall)
    as (rows & bottom & Hrows & Hlines & Hexact).
  exists lines, rows, bottom. split; [exact Hcall|].
  split; [apply mapM_length in Hrows; exact Hrows|].
  split; [exact Hlines|].
  clear Hrows Hlines. induction Hexact as [|y row ys rows' Hrow _ IH];
    constructor; [|exact IH].
  destruct Hrow as (cells & _ & _ & _ & Htokens). exists cells. exact Htokens.
Defined.

(** ** Rows hold no line break *)

Lemma term_row_not_nl (pixels pixels_gray : pixel_access) (bg_color : Z)
  (ascii_palette : list string)
  (ascii_palette_len screen_width img_width padding_w y : Z) (row : string) :
  forallb is_glyph ascii_palette = true ->
  term_row pixels pixels_gray (bg_of bg_color) ascii_palette ascii_palette_len
    screen_width img_width padding_w y = Ok row ->
  all_chars not_nl row = true.
Proof.
  intros Hramp Hrow. apply term_row_anatomy in Hrow; [|assumption].
  destruct Hrow as (cells & body & _ & Hglyphs & -> & -> & _).
  rewrite !all_chars_app, left_not_nl, right_not_nl, paint_term_not_nl;
    [reflexivity|].
  eapply Forall_impl; [|exact Hglyphs].
  intros cell Hc. now apply glyph_facts in Hc.
Qed.

Lemma block_row_not_nl (pixels : pixel_access) (bg_color : Z)
  (screen_width img_width padding_w y : Z) (row : string) :
  block_row pixels (bg_of bg_color) screen_width img_width padding_w y
  = Ok row ->
  all_chars not_nl row = true.
Proof.
  intros Hrow. apply block_row_anatomy in Hrow.
  destruct Hrow as (cells & body & _ & -> & -> & _).
  now rewrite !all_chars_app, left_not_nl, right_not_nl, paint_block_not_nl.
Qed.

Lemma Forall_repeat {A : Type} (P : A -> Prop) (a : A) (n : nat) :
  P a -> Forall P (repeat a n).
Proof.
  intros H. induction n; simpl; constructor; assumption.
Qed.

(** ** Pictures of height 0 or 1 in the half-block encoder *)

(** C9. With [img_height] 0 or 1 and valid geometry, the pairing loop of
    [img_to_term_block] has nothing to visit, and the call returns
    [screen_height] padding rows whatever the picture: it does so even for
    the picture whose every read raises, so no pixel is read. *)
Theorem short_picture_is_all_padding (pixels : pixel_access)
  (bg_color screen_width screen_height img_width img_height : Z) :
  valid_geometry screen_width screen_height img_width img_height ->
  img_height = 0 \/ img_height = 1 ->
  range_by2 (int_sub img_height 1) = []
  /\ img_to_term_block_lines pixels bg_color screen_width screen_height
       img_width img_height
     = Ok (repeat (padding_row (bg_of bg_color) screen_width)
                  (Z.to_nat screen_height))
  /\ img_to_term_block pixels bg_color screen_width screen_height img_width
       img_height
     = img_to_term_block no_picture bg_color screen_width screen_height
         img_width img_height.
Proof.
  intros Hgeo Hshort.
  assert (Hnone : range_by2 (img_height - 1) = []).
  { destruct Hshort as [-> | ->]; reflexivity. }
  assert (Hlines : forall p,
             img_to_term_block_lines p bg_color screen_width screen_height
               img_width img_height
             = Ok (repeat (padding_row (bg_of bg_color) screen_width)
                     (Z.to_nat screen_height))).
  { intros p. rewrite (img_to_term_block_lines_layout _ _ _ _ _ _ Hgeo), Hnone.
    simpl. rewrite <- repeat_app. do 2 f_equal.
    destruct Hgeo as (_ & _ & _ & Hi).
    assert (Hhalf : img_height / 2 = 0) by (destruct Hshort as [-> | ->]; reflexivity).
    rewrite Hhalf, !Z.sub_0_r.
    assert (0 <= screen_height / 2 <= screen_height).
    { split; [apply Z.div_pos; lia|]. apply Z.div_le_upper_bound; lia. }
    lia. }
  split; [now rewrite (geometry_img_height_m1 _ _ _ _ Hgeo)|].
  split; [apply Hlines|].
  unfold img_to_term_block. now rewrite !Hlines.
Qed.

Lemma short_picture_is_all_padding_example :
  img_to_term_block_lines no_picture 7 4 3 2 1
  = Ok (repeat (padding_row (bg_of 7) 4) 3).
Proof.
  exact (proj1 (proj2 (short_picture_is_all_padding no_picture 7 4 3 2 1
                         ltac:(geometry) (or_intror eq_refl)))).
Defined.

(** ** Row pairing in the half-block encoder *)

Lemma pair_count (r : Z) (n : nat) :
  length (filter (fun y => (r =? y) || (r =? y + 1))
                 (map (fun k => 2 * Z.of_nat k) (seq 0 n)))
  = if (0 <=? r) && (r <? 2 * Z.of_nat n) then 1%nat else 0%nat.
Proof.
  induction n as [|n IH].
  - destruct (Z.leb_spec 0 r); destruct (Z.ltb_spec r (2 * Z.of_nat 0));
      try reflexivity. lia.
  - rewrite seq_S, map_app, filter_app, length_app, IH.
    cbn [map filter Nat.add].
    destruct (Z.eqb_spec r (2 * Z.of_nat n));
      destruct (Z.eqb_spec r (2 * Z.of_nat n + 1));
      destruct (Z.leb_spec 0 r);
      destruct (Z.ltb_spec r (2 * Z.of_nat n));
      destruct (Z.ltb_spec r (2 * Z.of_nat (S n)));
      cbn [orb andb length Nat.add]; try reflexivity; lia.
Qed.

Lemma is_ok_mapM_false {X Y : Type} (f : X -> result Y) (xs : list X) (x : X) :
  In x xs -> is_ok (f x) = false -> is_ok (mapM f xs) = false.
Proof.
  induction xs as [|a xs IH]; intros Hin Hx; [contradiction|].
  simpl. destruct Hin as [->|Hin].
  - destruct (f x); [discriminate|reflexivity].
  - destruct (f a); [|reflexivity]. simpl.
    specialize (IH Hin Hx). destruct (mapM f xs); [discriminate|reflexivity].
Qed.

Lemma is_ok_bind_false {A B : Type} (r : result A) (k : A -> result B) :
  is_ok r = false -> is_ok (bind r k) = false.
Proof.
  destruct r; [discriminate|reflexivity].
Qed.

Lemma block_read_unreadable (pixels : pixel_access) (y x : Z) :
  pixels x y = None \/ pixels x (int_add y 1) = None ->
  is_ok (block_read pixels y x) = false.
Proof.
  unfold block_read, read. intros [H|H].
  - now rewrite H.
  - destruct (pixels x y); [|reflexivity]. simpl.
    destruct (as_int _); [|reflexivity]. simpl. now rewrite H.
Qed.

Lemma block_row_ext (pixels pixels' : pixel_access) (bg : string)
  (screen_width img_width padding_w y : Z) :
  (forall x, pixels x y = pixels' x y) ->
  (forall x, pixels x (int_add y 1) = pixels' x (int_add y 1)) ->
  block_row pixels bg screen_width img_width padding_w y
  = block_row pixels' bg screen_width img_width padding_w y.
Proof.
  intros Htop Hbot. rewrite !block_row_text.
  rewrite (mapM_ext (block_read pixels y) (block_read pixels' y));
    [reflexivity|].
  intros x _. unfold block_read, read. now rewrite Htop, Hbot.
Qed.

(** C5. Under valid geometry the half-block encoder visits the rows
    [y = 0, 2, 4, ...] with [y + 1 < img_height], one for each of the
    [img_height / 2] pairs, and reads the rows [y] and [y + 1] there. Every
    row below [2 * (img_height / 2)] lies in exactly one pair and is
    consumed: the call fails if one of its pixels cannot be read. That bound
    is [img_height] when [img_height] is even and [img_height - 1] when it is
    odd; the text returned does not depend on the rows from the bound on,
    and the call returns when the rows below it are readable: for an odd
    [img_height] the last row is dropped without an error. *)
Theorem rows_are_consumed_in_pairs (pixels pixels' : pixel_access)
  (bg_color screen_width screen_height img_width img_height : Z) :
  valid_geometry screen_width screen_height img_width img_height ->
  let ys := range_by2 (int_sub img_height 1) in
  let paired := 2 * (img_height / 2) in
  ys = map (fun k => 2 * Z.of_nat k) (seq 0 (Z.to_nat (img_height / 2)))
  /\ (forall y, In y ys <-> 0 <= y /\ y + 1 < img_height /\ y mod 2 = 0)
  /\ (forall y, In y ys -> int_add y 1 = y + 1)
  /\ (forall r, 0 <= r < paired ->
        length (filter (fun y => (r =? y) || (r =? y + 1)) ys) = 1%nat)
  /\ (forall r, paired <= r ->
        length (filter (fun y => (r =? y) || (r =? y + 1)) ys) = 0%nat)
  /\ (img_height mod 2 = 0 -> paired = img_height)
  /\ (img_height mod 2 = 1 -> paired = img_height - 1)
  /\ (forall x r, 0 <= x < img_width -> 0 <= r < paired ->
        pixels x r = None ->
        is_ok (img_to_term_block pixels bg_color screen_width screen_height
                 img_width img_height) = false)
  /\ ((forall x y, 0 <= y < paired -> pixels x y = pixels' x y) ->
      img_to_term_block pixels bg_color screen_width screen_height img_width
        img_height
      = img_to_term_block pixels' bg_color screen_width screen_height
          img_width img_height)
  /\ (all_pixels (pixel_ok pixels) img_width paired = true ->
      is_ok (img_to_term_block pixels bg_color screen_width screen_height
               img_width img_height) = true).
Proof.
  intros Hgeo ys paired. subst ys paired.
  rewrite (geometry_img_height_m1 _ _ _ _ Hgeo).
  pose proof Hgeo as (_ & _ & _ & Hih).
  pose proof (Z.div_mod img_height 2 ltac:(lia)) as Hdm.
  pose proof (Z.mod_pos_bound img_height 2 ltac:(lia)) as Hmb.
  assert (Hys : range_by2 (img_height - 1)
                = map (fun k => 2 * Z.of_nat k)
                      (seq 0 (Z.to_nat (img_height / 2)))).
  { unfold range_by2. now replace (img_height - 1 + 1) with img_height by lia. }
  assert (Hin : forall y, In y (range_by2 (img_height - 1))
                          <-> 0 <= y /\ y + 1 < img_height /\ y mod 2 = 0).
  { intros y. rewrite in_range_by2. lia. }
  assert (Hnext : forall y, In y (range_by2 (img_height - 1)) ->
                            int_add y 1 = y + 1).
  { intros y Hy. apply (range_by2_rows img_height).
    now rewrite (geometry_img_height_m1 _ _ _ _ Hgeo). }
  assert (Hhalf : 0 <= img_height / 2) by (apply Z.div_pos; lia).
  split; [exact Hys|]. split; [exact Hin|]. split; [exact Hnext|].
  split; [|split; [|split; [|split; [|split; [|split]]]]].
  - intros r Hr. rewrite Hys, pair_count.
    destruct (Z.leb_spec 0 r); destruct (Z.ltb_spec r
      (2 * Z.of_nat (Z.to_nat (img_height / 2)))); simpl; try reflexivity; lia.
  - intros r Hr. rewrite Hys, pair_count.
    destruct (Z.leb_spec 0 r); destruct (Z.ltb_spec r
      (2 * Z.of_nat (Z.to_nat (img_height / 2)))); simpl; try reflexivity; lia.
  - lia.
  - lia.
  - intros x r Hx Hr Hnone. unfold img_to_term_block.
    rewrite (img_to_term_block_lines_layout _ _ _ _ _ _ Hgeo).
    pose proof (Z.div_mod r 2 ltac:(lia)) as Hrdm.
    pose proof (Z.mod_pos_bound r 2 ltac:(lia)) as Hrmb.
    assert (Hy : In (2 * (r / 2)) (range_by2 (img_height - 1))).
    { apply Hin. split; [lia|]. split; [lia|].
      rewrite Z.mul_comm. apply Z.mod_mul. lia. }
    do 2 apply is_ok_bind_false.
    apply (is_ok_mapM_false _ _ (2 * (r / 2)) Hy).
    rewrite block_row_text. apply is_ok_bind_false.
    apply (is_ok_mapM_false _ _ x); [now apply in_range|].
    apply block_read_unreadable. rewrite (Hnext _ Hy).
    assert (Hcase : r = 2 * (r / 2) \/ r = 2 * (r / 2) + 1) by lia.
    destruct Hcase as [<-|Hc]; [now left|]. right. now rewrite <- Hc.
  - intros Hsame. unfold img_to_term_block.
    rewrite !(img_to_term_block_lines_layout _ _ _ _ _ _ Hgeo).
    rewrite (mapM_ext
               (block_row pixels (bg_of bg_color) screen_width img_width
                  ((screen_width - img_width) / 2))
               (block_row pixels' (bg_of bg_color) screen_width img_width
                  ((screen_width - img_width) / 2)));
      [reflexivity|].
    intros y Hy. pose proof (Hnext y Hy) as Hy1. apply Hin in Hy.
    pose proof (Z.div_mod y 2 ltac:(lia)).
    apply block_row_ext; intros x; [|rewrite Hy1]; apply Hsame; lia.
  - intros Hread. unfold img_to_term_block.
    rewrite (img_to_term_block_lines_layout _ _ _ _ _ _ Hgeo).
    destruct (block_rows_return pixels bg_color _ _ _ _ Hgeo Hread)
      as (rows & Hrows).
    now rewrite Hrows.
Qed.

Lemma rows_are_consumed_in_pairs_example :
  range_by2 (int_sub 3 1) = [0]
  /\ is_ok (img_to_term_block (flat_picture 2 2 0) 7 4 3 2 3) = true.
Proof.
  pose proof (rows_are_consumed_in_pairs (flat_picture 2 2 0) no_picture
                7 4 3 2 3 ltac:(geometry)) as H.
  split.
  - exact (proj1 H).
  - apply H. reflexivity.
Defined.

(** ** The index into the ramp *)

Lemma range_first (n : Z) : 1 <= n -> exists rest, range n = 0 :: rest.
Proof.
  intros H. unfold range. destruct (Z.to_nat n) as [|k] eqn:E; [lia|].
  simpl. now eexists.
Qed.

Lemma mapM_ok_or_fails {X Y : Type} (f : X -> result Y) (e : error)
  (xs : list X) :
  (forall x, In x xs -> f x = Err e \/ exists y, f x = Ok y) ->
  mapM f xs = Err e \/ exists ys, mapM f xs = Ok ys.
Proof.
  induction xs as [|x xs IH]; intros H; simpl.
  - right. now eexists.
  - destruct (H x) as [Hx|(y & Hx)]; [now left| |]; rewrite Hx; simpl;
      [now left|].
    destruct IH as [Hxs|(ys & Hxs)]; [intros; apply H; now right| |];
      rewrite Hxs; simpl; [now left|right; now eexists].
Qed.

Lemma ramp_index_exact (gray_val ascii_palette_len : Z) :
  c_int (gray_val * ascii_palette_len) ->
  ramp_index gray_val ascii_palette_len = gray_val * ascii_palette_len / 255.
Proof.
  intros H. unfold ramp_index, floordiv, int_mul. now rewrite wrap_id.
Qed.

Lemma term_read_selects (pixels pixels_gray : pixel_access)
  (ascii_palette : list string) (ascii_palette_len y x g p : Z) :
  pixels_gray x y = Some g -> c_int g ->
  pixels x y = Some p -> c_int (p + 16) ->
  term_read pixels pixels_gray ascii_palette ascii_palette_len y x
  = glyph <- getitem ascii_palette (ramp_index g ascii_palette_len) ;;
    Ok (p + 16, glyph).
Proof.
  intros Hg Hgi Hp Hpi. unfold term_read, read. rewrite Hg, Hp. simpl.
  rewrite (as_int_ok _ Hgi). simpl. rewrite (as_int_ok _ Hpi). reflexivity.
Qed.

Section Ramp.

Variables (pixels pixels_gray : pixel_access).
Variables (ascii_palette : list string) (ascii_palette_len : Z).
Variables img_width img_height : Z.

Hypothesis pixels_readable :
  all_pixels (pixel_ok pixels) img_width img_height = true.
Hypothesis gray_bytes :
  all_pixels (gray_byte pixels_gray) img_width img_height = true.
Hypothesis len_is_length :
  ascii_palette_len = Z.of_nat (length ascii_palette).
Hypothesis len_positive : 1 <= ascii_palette_len.
Hypothesis len_fits : c_int (255 * ascii_palette_len).

Lemma byte_pixel (x y : Z) :
  0 <= x < img_width -> 0 <= y < img_height ->
  exists g p,
    pixels_gray x y = Some g /\ 0 <= g <= 255 /\ c_int g
    /\ pixels x y = Some p /\ c_int (p + 16)
    /\ c_int (g * ascii_palette_len)
    /\ 0 <= g * ascii_palette_len / 255 <= ascii_palette_len.
Proof.
  clear len_is_length. intros Hx Hy.
  pose proof (proj1 (all_pixels_spec _ _ _) pixels_readable x y Hx Hy) as Hp.
  pose proof (proj1 (all_pixels_spec _ _ _) gray_bytes x y Hx Hy) as Hg.
  unfold pixel_ok in Hp. unfold gray_byte in Hg.
  destruct (pixels x y) as [p|]; [|discriminate].
  destruct (pixels_gray x y) as [g|]; [|discriminate].
  apply c_intb_spec in Hp. apply andb_true_iff in Hg.
  rewrite Z.leb_le, Z.leb_le in Hg.
  exists g, p. split; [reflexivity|]. split; [assumption|].
  assert (0 <= g * ascii_palette_len <= 255 * ascii_palette_len) by nia.
  unfold c_int, int_min, int_max in *.
  split; [lia|]. split; [reflexivity|]. split; [assumption|].
  split; [lia|]. split.
  - apply Z.div_pos; lia.
  - apply Z.div_le_upper_bound; lia.
Qed.

Lemma byte_pixel_read (x y : Z) :
  0 <= x < img_width -> 0 <= y < img_height ->
  term_read pixels pixels_gray ascii_palette ascii_palette_len y x
  = Err (IndexError ascii_palette_len)
  \/ exists cell,
      term_read pixels pixels_gray ascii_palette ascii_palette_len y x
      = Ok cell.
Proof.
  intros Hx Hy.
  destruct (byte_pixel x y Hx Hy)
    as (g & p & Hg & _ & Hgi & Hp & Hpi & Hfit & Hidx).
  rewrite (term_read_selects _ _ _ _ _ _ _ _ Hg Hgi Hp Hpi),
    (ramp_index_exact _ _ Hfit).
  destruct (Z.eq_dec (g * ascii_palette_len / 255) ascii_palette_len)
    as [Heq|Hne].
  - left. rewrite Heq, getitem_outside; [reflexivity|lia].
  - right. destruct (getitem_inside ascii_palette
                       (g * ascii_palette_len / 255)) as (glyph & Hglyph);
      [lia|].
    rewrite Hglyph. simpl. now eexists.
Qed.

Lemma white_pixel_read (x y : Z) :
  0 <= x < img_width -> 0 <= y < img_height ->
  pixels_gray x y = Some 255 ->
  term_read pixels pixels_gray ascii_palette ascii_palette_len y x
  = Err (IndexError ascii_palette_len).
Proof.
  intros Hx Hy Hwhite.
  destruct (byte_pixel x y Hx Hy)
    as (g & p & Hg & _ & Hgi & Hp & Hpi & Hfit & _).
  rewrite Hwhite in Hg. injection Hg as <-.
  rewrite (term_read_selects _ _ _ _ _ _ _ _ Hwhite Hgi Hp Hpi),
    (ramp_index_exact _ _ Hfit).
  rewrite (Z.mul_comm 255), Z.div_mul by lia.
  rewrite getitem_outside; [reflexivity|lia].
Qed.

End Ramp.

(** A call fails with [e] when one cell of the picture fails with [e] and
    every other cell is read or fails with [e] as well. *)
Lemma img_to_term_fails (pixels pixels_gray : pixel_access) (bg_color : Z)
  (ascii_palette : list string)
  (ascii_palette_len screen_width screen_height img_width img_height : Z)
  (e : error) :
  (forall x y, 0 <= x < img_width -> 0 <= y < img_height ->
     term_read pixels pixels_gray ascii_palette ascii_palette_len y x = Err e
     \/ exists cell,
         term_read pixels pixels_gray ascii_palette ascii_palette_len y x
         = Ok cell) ->
  (exists x y,
      0 <= x < img_width /\ 0 <= y < img_height
      /\ term_read pixels pixels_gray ascii_palette ascii_palette_len y x
         = Err e) ->
  img_to_term pixels pixels_gray bg_color ascii_palette ascii_palette_len
    screen_width screen_height img_width img_height = Err e.
Proof.
  intros Hall (x0 & y0 & Hx0 & Hy0 & Hbad).
  unfold img_to_term. rewrite img_to_term_lines_shape.
  rewrite (mapM_fails _ e); [reflexivity| |].
  - intros y Hy. apply in_range in Hy. rewrite term_row_text.
    destruct (mapM_ok_or_fails
                (term_read pixels pixels_gray ascii_palette ascii_palette_len y)
                e (range img_width)) as [Hcells|(cells & Hcells)].
    + intros x Hx. apply in_range in Hx. now apply Hall.
    + left. now rewrite Hcells.
    + right. rewrite Hcells. simpl. now eexists.
  - exists y0. split; [now apply in_range|]. rewrite term_row_text.
    rewrite (mapM_fails _ e); [reflexivity| |].
    + intros x Hx. apply in_range in Hx. now apply Hall.
    + exists x0. split; [now apply in_range|assumption].
Qed.

(** C3, amended. In [img_to_term] the glyph of a pixel of luminance [g] is
    read at the index [wrap (g * ascii_palette_len) // 255], the product
    being an [int], without any check of the index. When
    [ascii_palette_len] is at least 1 and [255 * ascii_palette_len] fits an
    [int], that index is [g * ascii_palette_len // 255] for every luminance
    in [0, 255], and [ascii_palette_len] for the luminance 255. When
    [ascii_palette_len] is moreover the length of the ramp, that is one past
    the last glyph: the cell of a readable pixel of luminance 255, and with
    it a call on a readable picture with luminances in [0, 255] and such a
    pixel, reaches the read of the ramp at [ascii_palette_len], outside the
    list. *)
Theorem white_pixel_indexes_past_the_ramp (pixels pixels_gray : pixel_access)
  (bg_color : Z) (ascii_palette : list string)
  (ascii_palette_len screen_width screen_height img_width img_height : Z) :
  1 <= ascii_palette_len ->
  c_int (255 * ascii_palette_len) ->
  (forall g, ramp_index g ascii_palette_len
             = wrap (g * ascii_palette_len) / 255)
  /\ (forall g, 0 <= g <= 255 ->
        ramp_index g ascii_palette_len = g * ascii_palette_len / 255
        /\ 0 <= ramp_index g ascii_palette_len <= ascii_palette_len)
  /\ ramp_index 255 ascii_palette_len = ascii_palette_len
  /\ (forall x y g p,
        pixels_gray x y = Some g -> 0 <= g <= 255 ->
        pixels x y = Some p -> c_int (p + 16) ->
        term_read pixels pixels_gray ascii_palette ascii_palette_len y x
        = glyph <- getitem ascii_palette (g * ascii_palette_len / 255) ;;
          Ok (p + 16, glyph))
  /\ (ascii_palette_len = Z.of_nat (length ascii_palette) ->
      is_ok (getitem ascii_palette (ascii_palette_len - 1)) = true
      /\ reads_outside (getitem ascii_palette ascii_palette_len)
           ascii_palette_len
      /\ (forall x y line_parts current_fg,
            pixels_gray x y = Some 255 ->
            pixel_ok pixels x y = true ->
            reads_outside
              (term_cell pixels pixels_gray ascii_palette ascii_palette_len y
                 (line_parts, current_fg) x)
              ascii_palette_len)
      /\ (all_pixels (pixel_ok pixels) img_width img_height = true ->
          all_pixels (gray_byte pixels_gray) img_width img_height = true ->
          (exists x y,
              0 <= x < img_width /\ 0 <= y < img_height
              /\ pixels_gray x y = Some 255) ->
          reads_outside
            (img_to_term pixels pixels_gray bg_color ascii_palette
               ascii_palette_len screen_width screen_height img_width
               img_height)
            ascii_palette_len)).
Proof.
  intros Hpos Hfit. unfold reads_outside.
  assert (Hbyte : forall g, 0 <= g <= 255 ->
             c_int g /\ c_int (g * ascii_palette_len)
             /\ 0 <= g * ascii_palette_len / 255 <= ascii_palette_len).
  { intros g Hg.
    assert (0 <= g * ascii_palette_len <= 255 * ascii_palette_len) by nia.
    unfold c_int, int_min, int_max in *.
    split; [lia|]. split; [lia|]. split.
    - apply Z.div_pos; lia.
    - apply Z.div_le_upper_bound; lia. }
  assert (Hwhite : ramp_index 255 ascii_palette_len = ascii_palette_len).
  { rewrite ramp_index_exact by assumption.
    rewrite (Z.mul_comm 255), Z.div_mul by lia. reflexivity. }
  split; [reflexivity|].
  split; [|split; [exact Hwhite|split]].
  - intros g Hg. destruct (Hbyte g Hg) as (_ & Hprod & Hidx).
    rewrite (ramp_index_exact _ _ Hprod). split; [reflexivity|exact Hidx].
  - intros x y g p Hg Hgb Hp Hpi.
    destruct (Hbyte g Hgb) as (Hgi & Hprod & _).
    rewrite (term_read_selects _ _ _ _ _ _ _ _ Hg Hgi Hp Hpi).
    now rewrite (ramp_index_exact _ _ Hprod).
  - intros Hlen.
    split; [|split; [|split]].
    + destruct (getitem_inside ascii_palette (ascii_palette_len - 1))
        as (glyph & Hglyph); [lia|].
      now rewrite Hglyph.
    + apply getitem_outside. lia.
    + intros x y line_parts current_fg Hg Hp.
      unfold pixel_ok in Hp.
      destruct (pixels x y) as [p|] eqn:Hpx; [|discriminate].
      apply c_intb_spec in Hp.
      destruct (Hbyte 255 ltac:(lia)) as (Hgi & _ & _).
      rewrite term_cell_step,
        (term_read_selects _ _ _ _ _ _ _ _ Hg Hgi Hpx Hp), Hwhite.
      rewrite getitem_outside; [reflexivity|lia].
    + intros Hpixels Hgray (x & y & Hx & Hy & Hg).
      apply img_to_term_fails.
      * intros x' y' Hx' Hy'.
        now apply (byte_pixel_read pixels pixels_gray ascii_palette
                     ascii_palette_len img_width img_height).
      * exists x, y. split; [assumption|]. split; [assumption|].
        now apply (white_pixel_read pixels pixels_gray ascii_palette
                     ascii_palette_len img_width img_height).
Qed.

Lemma white_pixel_indexes_past_the_ramp_example :
  ramp_index 255 4 = 4
  /\ reads_outside
       (img_to_term (grid_picture [[0; 0]; [0; 0]])
          (grid_picture [[0; 128]; [255; 64]]) 0 [" "; "."; "+"; "#"] 4
          4 2 2 2) 4.
Proof.
  pose proof (white_pixel_indexes_past_the_ramp
                (grid_picture [[0; 0]; [0; 0]])
                (grid_picture [[0; 128]; [255; 64]]) 0 [" "; "."; "+"; "#"] 4
                4 2 2 2 ltac:(lia)
                ltac:(unfold c_int, int_min, int_max; lia))
    as (_ & _ & Hindex & _ & Hramp).
  destruct (Hramp eq_refl) as (_ & _ & _ & Hcall).
  split; [exact Hindex|]. apply Hcall; [reflexivity|reflexivity|].
  exists 0, 1. repeat split; lia.
Defined.

(** C3 as stated fails for ramp lengths from 8421505 on, where the [int]
    product [255 * ascii_palette_len] wraps: the index of a pixel of
    luminance 255 is then not the ramp length. At 8421505 it is negative;
    at 16843010 it is 0, and a call with that [ascii_palette_len] on a white
    pixel reads the first glyph and returns. *)
Lemma white_pixel_index_wraps_for_a_long_ramp :
  (1 <= 8421505 /\ c_int 8421505
   /\ ramp_index 255 8421505 = -8421505
   /\ ramp_index 255 8421505 <> 8421505)
  /\ (1 <= 16843010 /\ c_int 16843010
      /\ ramp_index 255 16843010 = 0
      /\ ramp_index 255 16843010 <> 16843010
      /\ is_ok (img_to_term (flat_picture 1 1 0) (flat_picture 1 1 255) 0
                  ["#"] 16843010 1 1 1 1) = true).
Proof.
  split.
  - split; [lia|]. split; [unfold c_int, int_min, int_max; lia|].
    split; [reflexivity|discriminate].
  - split; [lia|]. split; [unfold c_int, int_min, int_max; lia|].
    split; [reflexivity|]. split; [discriminate|reflexivity].
Qed.

(** ** Line count *)

Lemma forallb_false {A : Type} (f : A -> bool) (l : list A) :
  forallb f l = false -> exists a, In a l /\ f a = false.
Proof.
  induction l as [|a l IH]; cbn [forallb]; [discriminate|].
  destruct (f a) eqn:Hf; cbn [andb].
  - intros H. destruct (IH H) as (b & Hin & Hb).
    exists b. split; [now right|assumption].
  - intros _. exists a. split; [now left|assumption].
Qed.

(** With luminances in [0, 255] and a product [255 * ascii_palette_len]
    that fits, every pixel selects a glyph inside the ramp but those of
    luminance 255. *)
Lemma in_ramp_or_white (pixels pixels_gray : pixel_access)
  (ascii_palette : list string) (ascii_palette_len img_width img_height : Z) :
  all_pixels (pixel_ok pixels) img_width img_height = true ->
  all_pixels (gray_byte pixels_gray) img_width img_height = true ->
  ascii_palette_len = Z.of_nat (length ascii_palette) ->
  1 <= ascii_palette_len ->
  c_int (255 * ascii_palette_len) ->
  all_pixels (gray_in_ramp pixels_gray ascii_palette ascii_palette_len)
             img_width img_height = true
  \/ exists x y,
      0 <= x < img_width /\ 0 <= y < img_height
      /\ pixels_gray x y = Some 255.
Proof.
  intros Hpixels Hgray Hlen Hpos Hfit.
  destruct (all_pixels (gray_in_ramp _ _ _) _ _) eqn:Hall; [now left|].
  right. unfold all_pixels in Hall.
  apply forallb_false in Hall. destruct Hall as (y & Hy & Hrow).
  apply forallb_false in Hrow. destruct Hrow as (x & Hx & Hcell).
  apply in_range in Hx, Hy.
  exists x, y. split; [assumption|]. split; [assumption|].
  destruct (byte_pixel pixels pixels_gray ascii_palette_len _ _ Hpixels
              Hgray Hpos Hfit x y Hx Hy)
    as (g & p & Hg & Hgb & Hgi & _ & _ & Hprod & Hidx).
  unfold gray_in_ramp in Hcell. rewrite Hg in Hcell.
  rewrite (ramp_index_exact _ _ Hprod) in Hcell.
  apply c_intb_spec in Hgi. rewrite Hgi in Hcell.
  destruct (Z.leb_spec 0 (g * ascii_palette_len / 255)); [|lia].
  destruct (Z.ltb_spec (g * ascii_palette_len / 255)
              (Z.of_nat (length ascii_palette))); [discriminate|].
  pose proof (Z.mul_div_le (g * ascii_palette_len) 255 ltac:(lia)).
  assert (g = 255) by nia. now subst g.
Qed.

(** C1, amended. Under valid geometry and on a picture whose every pixel can
    be read, [img_to_term_block] returns, and so does [img_to_term] with a
    ramp of one-character glyphs when every pixel selects a glyph inside the
    ramp; the list of lines they join has exactly [screen_height] entries;
    and for [screen_height >= 1] the returned text split at the line breaks
    is that list, so it has exactly [screen_height] lines. With luminances
    in [0, 255] and a ramp of [ascii_palette_len >= 1] glyphs,
    [255 * ascii_palette_len] fitting an [int], the calls of [img_to_term]
    this leaves out are those on a picture with a pixel of luminance 255:
    they reach the unchecked read of the ramp at [ascii_palette_len], and
    nothing is stated of their text. *)
Theorem line_count (pixels pixels_gray : pixel_access)
  (bg_color : Z) (ascii_palette : list string)
  (ascii_palette_len screen_width screen_height img_width img_height : Z) :
  valid_geometry screen_width screen_height img_width img_height ->
  all_pixels (pixel_ok pixels) img_width img_height = true ->
  (forallb is_glyph ascii_palette = true ->
   all_pixels (gray_in_ramp pixels_gray ascii_palette ascii_palette_len)
              img_width img_height = true ->
   exists lines,
     img_to_term_lines pixels pixels_gray bg_color ascii_palette
       ascii_palette_len screen_width screen_height img_width img_height
     = Ok lines
     /\ img_to_term pixels pixels_gray bg_color ascii_palette
          ascii_palette_len screen_width screen_height img_width img_height
        = Ok (join NL lines)
     /\ Z.of_nat (length lines) = screen_height
     /\ (1 <= screen_height ->
         split_lines (join NL lines) = lines
         /\ Z.of_nat (length (split_lines (join NL lines))) = screen_height))
  /\ (exists lines,
        img_to_term_block_lines pixels bg_color screen_width screen_height
          img_width img_height = Ok lines
        /\ img_to_term_block pixels bg_color screen_width screen_height
             img_width img_height = Ok (join NL lines)
        /\ Z.of_nat (length lines) = screen_height
        /\ (1 <= screen_height ->
            split_lines (join NL lines) = lines
            /\ Z.of_nat (length (split_lines (join NL lines)))
               = screen_height))
  /\ (all_pixels (gray_byte pixels_gray) img_width img_height = true ->
      ascii_palette_len = Z.of_nat (length ascii_palette) ->
      1 <= ascii_palette_len ->
      c_int (255 * ascii_palette_len) ->
      all_pixels (gray_in_ramp pixels_gray ascii_palette ascii_palette_len)
                 img_width img_height = true
      \/ ((exists x y,
              0 <= x < img_width /\ 0 <= y < img_height
              /\ pixels_gray x y = Some 255)
          /\ reads_outside
               (img_to_term pixels pixels_gray bg_color ascii_palette
                  ascii_palette_len screen_width screen_height img_width
                  img_height)
               ascii_palette_len)).
Proof.
  intros Hgeo Hpixels.
  assert (Hsplit : forall lines,
             Z.of_nat (length lines) = screen_height ->
             Forall (fun l => all_chars not_nl l = true) lines ->
             1 <= screen_height ->
             split_lines (join NL lines) = lines
             /\ Z.of_nat (length (split_lines (join NL lines)))
                = screen_height).
  { intros lines Hlen Hnl Hpos.
    assert (Hs : split_lines (join NL lines) = lines).
    { apply split_lines_join; [|assumption]. intros ->. simpl in Hlen. lia. }
    now rewrite Hs. }
  pose proof (geometry_padding_w_bounds _ _ _ _ Hgeo) as [Hpw _].
  pose proof Hgeo as (Hcw & Hch & Hiw & Hih).
  split; [|split].
  - intros Hramp Hgray.
    destruct (term_rows_return pixels pixels_gray bg_color ascii_palette
                ascii_palette_len screen_width img_width img_height
                Hpixels Hgray) as (rows & Hrows).
    unfold img_to_term.
    rewrite (img_to_term_lines_layout _ _ _ _ _ _ _ _ _ Hgeo), Hrows. simpl.
    eexists. split; [reflexivity|]. split; [reflexivity|].
    assert (Hlen : Z.of_nat (length rows) = img_height).
    { rewrite (mapM_length _ _ _ Hrows), range_length. lia. }
    assert (0 <= (screen_height - img_height) / 2 <= screen_height - img_height).
    { split; [apply Z.div_pos; lia|]. apply Z.div_le_upper_bound; lia. }
    match goal with
    | |- Z.of_nat (length ?l) = _ /\ _ =>
        assert (Hcount : Z.of_nat (length l) = screen_height)
    end.
    { rewrite !length_app, !repeat_length. lia. }
    split; [exact Hcount|]. apply Hsplit; [exact Hcount|].
    rewrite !Forall_app. repeat split.
    + apply Forall_repeat, padding_row_not_nl.
    + apply Forall_forall. intros row Hin.
      destruct (mapM_in _ _ _ Hrows _ Hin) as (y & _ & Hrow).
      now apply term_row_not_nl in Hrow.
    + apply Forall_repeat, padding_row_not_nl.
  - destruct (block_rows_return pixels bg_color _ _ _ _ Hgeo)
      as (rows & Hrows).
    { rewrite all_pixels_spec in Hpixels. apply all_pixels_spec.
      intros x y Hx Hy. apply Hpixels; [assumption|].
      pose proof (Z.mul_div_le img_height 2). lia. }
    unfold img_to_term_block.
    rewrite (img_to_term_block_lines_layout _ _ _ _ _ _ Hgeo), Hrows. simpl.
    eexists. split; [reflexivity|]. split; [reflexivity|].
    assert (Hlen : Z.of_nat (length rows) = img_height / 2).
    { rewrite (mapM_length _ _ _ Hrows), range_by2_length.
      replace (img_height - 1 + 1) with img_height by lia.
      assert (0 <= img_height / 2) by (apply Z.div_pos; lia). lia. }
    assert (0 <= img_height / 2 <= img_height).
    { split; [apply Z.div_pos; lia|]. apply Z.div_le_upper_bound; lia. }
    assert (0 <= (screen_height - img_height / 2) / 2
            <= screen_height - img_height / 2).
    { split; [apply Z.div_pos; lia|]. apply Z.div_le_upper_bound; lia. }
    match goal with
    | |- Z.of_nat (length ?l) = _ /\ _ =>
        assert (Hcount : Z.of_nat (length l) = screen_height)
    end.
    { rewrite !length_app, !repeat_length. lia. }
    split; [exact Hcount|]. apply Hsplit; [exact Hcount|].
    rewrite !Forall_app. repeat split.
    + apply Forall_repeat, padding_row_not_nl.
    + apply Forall_forall. intros row Hin.
      destruct (mapM_in _ _ _ Hrows _ Hin) as (y & _ & Hrow).
      now apply block_row_not_nl in Hrow.
    + apply Forall_repeat, padding_row_not_nl.
  - intros Hgray Hlen Hpos Hfit.
    destruct (in_ramp_or_white pixels pixels_gray ascii_palette
                ascii_palette_len img_width img_height Hpixels Hgray Hlen
                Hpos Hfit) as [Hin|(x & y & Hx & Hy & Hwhite)];
      [now left|right].
    split; [now exists x, y|].
    apply img_to_term_fails.
    + intros x' y' Hx' Hy'.
      now apply (byte_pixel_read pixels pixels_gray ascii_palette
                   ascii_palette_len img_width img_height).
    + exists x, y. split; [assumption|]. split; [assumption|].
      now apply (white_pixel_read pixels pixels_gray ascii_palette
                   ascii_palette_len img_width img_height).
Qed.

Lemma line_count_example :
  (exists lines,
      img_to_term (flat_picture 2 2 0) (flat_picture 2 2 0) 0 ["."; " "] 2
        4 2 2 2 = Ok (join NL lines)
      /\ Z.of_nat (length (split_lines (join NL lines))) = 2)
  /\ (exists lines,
        img_to_term_block (flat_picture 2 2 0) 0 4 2 2 2
        = Ok (join NL lines)
        /\ Z.of_nat (length (split_lines (join NL lines))) = 2).
Proof.
  pose proof (line_count (flat_picture 2 2 0) (flat_picture 2 2 0) 0
                ["."; " "] 2 4 2 2 2 ltac:(geometry) eq_refl)
    as (Hterm & Hblock & _).
  split.
  - destruct (Hterm eq_refl eq_refl) as (lines & _ & Htext & _ & Hsplit).
    exists lines. split; [exact Htext|]. apply Hsplit. lia.
  - destruct Hblock as (lines & _ & Htext & _ & Hsplit).
    exists lines. split; [exact Htext|]. apply Hsplit. lia.
Defined.

(** C1 as stated fails on a screen of height 0, which its preconditions
    allow: both encoders return the empty text, and the empty text split at
    the line breaks is one (empty) line, not none. *)
Lemma line_count_fails_on_empty_screen :
  valid_geometry 0 0 0 0
  /\ img_to_term no_picture no_picture 0 ["."] 1 0 0 0 0 = Ok ""
  /\ img_to_term_block no_picture 0 0 0 0 0 = Ok ""
  /\ Z.of_nat (length (split_lines "")) <> 0.
Proof.
  split; [geometry|]. split; [reflexivity|]. split; [reflexivity|].
  simpl. lia.
Qed.

(** ** The empty ramp *)

(** C10. The ramp index is the product of the luminance and
    [ascii_palette_len] divided by the constant 255: with
    [ascii_palette_len = 0] it is 0 for every luminance, and nothing is
    divided by zero. With an empty ramp the access [ascii_palette[0]] falls
    outside the list: that is how the first cell, and with it a call on a
    picture that is not empty, fails. *)
Theorem empty_ramp_fails_at_index_zero (pixels pixels_gray : pixel_access)
  (bg_color screen_width screen_height img_width img_height : Z) :
  (forall gray_val ascii_palette_len,
      ramp_index gray_val ascii_palette_len
      = floordiv (int_mul gray_val ascii_palette_len) 255)
  /\ (forall gray_val, ramp_index gray_val 0 = 0)
  /\ getitem [] 0 = Err (IndexError 0)
  /\ (forall x y g p line_parts current_fg,
        pixels_gray x y = Some g -> c_int g ->
        pixels x y = Some p -> c_int (p + 16) ->
        term_cell pixels pixels_gray [] 0 y (line_parts, current_fg) x
        = Err (IndexError 0))
  /\ (1 <= img_width -> 1 <= img_height ->
      pixel_ok pixels 0 0 = true -> gray_ok pixels_gray 0 0 = true ->
      img_to_term pixels pixels_gray bg_color [] 0 screen_width screen_height
        img_width img_height
      = Err (IndexError 0)).
Proof.
  assert (Hzero : forall gray_val, ramp_index gray_val 0 = 0).
  { intros gray_val. unfold ramp_index, int_mul. now rewrite Z.mul_0_r. }
  assert (Hread : forall x y g p,
             pixels_gray x y = Some g -> c_int g ->
             pixels x y = Some p -> c_int (p + 16) ->
             term_read pixels pixels_gray [] 0 y x = Err (IndexError 0)).
  { intros x y g p Hg Hgi Hp Hpi.
    now rewrite (term_read_selects _ _ _ _ _ _ _ _ Hg Hgi Hp Hpi), Hzero. }
  split; [reflexivity|]. split; [exact Hzero|]. split; [reflexivity|].
  split.
  - intros x y g p line_parts current_fg Hg Hgi Hp Hpi.
    rewrite term_cell_step. now rewrite (Hread x y g p).
  - intros Hw Hh Hp Hg. unfold pixel_ok in Hp. unfold gray_ok in Hg.
    destruct (pixels 0 0) as [p|] eqn:Ep; [|discriminate].
    destruct (pixels_gray 0 0) as [g|] eqn:Eg; [|discriminate].
    apply c_intb_spec in Hp, Hg.
    unfold img_to_term. rewrite img_to_term_lines_shape.
    destruct (range_first img_height Hh) as (ys & ->).
    destruct (range_first img_width Hw) as (xs & Hxs).
    cbn [mapM]. rewrite term_row_text, Hxs. cbn [mapM].
    now rewrite (Hread 0 0 g p Eg Hg Ep Hp).
Qed.

Lemma empty_ramp_fails_at_index_zero_example :
  img_to_term (flat_picture 2 2 0) (flat_picture 2 2 200) 0 [] 0 4 2 2 2
  = Err (IndexError 0).
Proof.
  apply (empty_ramp_fails_at_index_zero (flat_picture 2 2 0)
           (flat_picture 2 2 200) 0 4 2 2 2); [lia|lia|reflexivity|reflexivity].
Defined.

(** * Further properties of the encoders *)

(** ** What a terminal makes of the escape sequences *)

Lemma length_append (a b : string) :
  String.length (a ++ b) = (String.length a + String.length b)%nat.
Proof.
  induction a as [|c a IH]; simpl; [reflexivity|now rewrite IH].
Qed.

Lemma substring_front (s t : string) :
  substring 0 (String.length s) (s ++ t) = s.
Proof.
  induction s as [|c s IH]; simpl.
  - now destruct t.
  - now rewrite IH.
Qed.

Lemma code_between (numeral : string) (a b c d e f g : ascii) :
  let text :=
    String a (String b (String c (String d (String e (String f (String g
      (numeral ++ "m"))))))) in
  substring 7 (String.length text - 8) text = numeral.
Proof.
  cbn [String.length substring]. rewrite length_append. simpl String.length.
  replace (S (S (S (S (S (S (S (String.length numeral + 1))))))) - 8)%nat
    with (String.length numeral) by lia.
  apply substring_front.
Qed.

Lemma sgr_of_fg (color : Z) : sgr_of (fg_of color) = Some (SetFg color).
Proof.
  unfold sgr_of. change (String.eqb (fg_of color) RESET) with false.
  fold (is_fg (fg_of color)). rewrite is_fg_fg.
  unfold fg_of at 1 2. cbn [ESC append].
  rewrite code_between. unfold code_of. now rewrite str_decimal.
Qed.

Lemma sgr_of_bg (color : Z) : sgr_of (bg_of color) = Some (SetBg color).
Proof.
  unfold sgr_of. change (String.eqb (bg_of color) RESET) with false.
  fold (is_fg (bg_of color)). rewrite is_fg_bg.
  assert (Hp : prefix (ESC ++ "[48;5;") (bg_of color) = true).
  { unfold bg_of.
    change (ESC ++ "[48;5;" ++ str color ++ "m")
      with ((ESC ++ "[48;5;") ++ str color ++ "m").
    apply prefix_append. }
  rewrite Hp. unfold bg_of at 1 2. cbn [ESC append].
  rewrite code_between. unfold code_of. now rewrite str_decimal.
Qed.

Lemma sgr_of_reset : sgr_of RESET = Some ResetAll.
Proof.
  reflexivity.
Qed.

Lemma apply_fg (p : pen) (color : Z) :
  apply_sgr p (fg_of color) = Pen (Some color) (pen_bg p).
Proof.
  unfold apply_sgr. now rewrite sgr_of_fg.
Qed.

Lemma apply_bg (p : pen) (color : Z) :
  apply_sgr p (bg_of color) = Pen (pen_fg p) (Some color).
Proof.
  unfold apply_sgr. now rewrite sgr_of_bg.
Qed.

Lemma replay_app (a b : list token) :
  forall p, replay p (a ++ b) = (replay p a ++ replay (pen_after p a) b)%list.
Proof.
  induction a as [|[c|e] a IH]; intros p; cbn [app replay pen_after].
  - reflexivity.
  - now rewrite IH.
  - apply IH.
Qed.

Lemma pen_after_app (a b : list token) :
  forall p, pen_after p (a ++ b) = pen_after (pen_after p a) b.
Proof.
  induction a as [|[c|e] a IH]; intros p; cbn [app pen_after];
    [reflexivity|apply IH|apply IH].
Qed.

Lemma replay_text (p : pen) (s : string) :
  replay p (text_tokens s) = drawn p s /\ pen_after p (text_tokens s) = p.
Proof.
  unfold text_tokens, drawn.
  induction (list_ascii_of_string s) as [|c l [IHr IHp]]; [now split|].
  cbn [map replay pen_after]. now rewrite IHr, IHp.
Qed.

Lemma replay_spaces (p : pen) (n : Z) :
  replay p (spaces_tokens n) = repeat (" "%char, p) (Z.to_nat n)
  /\ pen_after p (spaces_tokens n) = p.
Proof.
  unfold spaces_tokens.
  induction (Z.to_nat n) as [|k [IHr IHp]]; [now split|].
  cbn [repeat replay pen_after]. now rewrite IHr, IHp.
Qed.

Lemma last_cons {A : Type} (a d : A) (l : list A) : last (a :: l) d = last l a.
Proof.
  revert a d. induction l as [|b l IH]; intros a d; [reflexivity|].
  change (last (a :: b :: l) d) with (last (b :: l) d).
  rewrite !IH. reflexivity.
Qed.

Lemma pen_eta (p : pen) : Pen (pen_fg p) (pen_bg p) = p.
Proof.
  now destruct p.
Qed.

(** The tracker [current_fg] of the cell loop follows the pen: it is unset,
    or it is the colour in force. *)
Lemma replay_term (cells : list (Z * string)) :
  Forall (fun cell => fst cell <> -1) cells ->
  forall current_fg p,
    current_fg = -1 \/ pen_fg p = Some current_fg ->
    replay p (term_tokens current_fg cells) = drawn_glyphs (pen_bg p) cells
    /\ pen_after p (term_tokens current_fg cells)
       = Pen (last (map Some (map fst cells)) (pen_fg p)) (pen_bg p).
Proof.
  induction 1 as [|[color glyph] cells Hcolor _ IH]; intros current_fg p Htrack;
    cbn [term_tokens drawn_glyphs flat_map map fst snd].
  - split; [reflexivity|]. simpl. now rewrite pen_eta.
  - simpl in Hcolor. rewrite last_cons.
    destruct (Z.eqb_spec color current_fg) as [->|Hne].
    + destruct Htrack as [Hunset|Hpen]; [contradiction|].
      destruct (IH current_fg p (or_intror Hpen)) as [IHr IHp].
      cbn [app]. rewrite replay_app, pen_after_app.
      destruct (replay_text p glyph) as [-> ->].
      rewrite IHr, IHp, Hpen. split; [|reflexivity].
      f_equal. f_equal. rewrite <- Hpen. now rewrite pen_eta.
    + destruct (IH color (Pen (Some color) (pen_bg p)) (or_intror eq_refl))
        as [IHr IHp].
      cbn [app replay pen_after]. rewrite apply_fg.
      rewrite replay_app, pen_after_app.
      destruct (replay_text (Pen (Some color) (pen_bg p)) glyph) as [-> ->].
      rewrite IHr, IHp. split; reflexivity.
Qed.

Lemma replay_block (cells : list (Z * Z)) :
  Forall (fun cell => fst cell <> -1 /\ snd cell <> -1) cells ->
  forall current_fg current_bg p,
    current_fg = -1 \/ pen_fg p = Some current_fg ->
    current_bg = -1 \/ pen_bg p = Some current_bg ->
    replay p (block_tokens current_fg current_bg cells) = drawn_blocks cells
    /\ pen_after p (block_tokens current_fg current_bg cells)
       = Pen (last (map Some (map fst cells)) (pen_fg p))
             (last (map Some (map snd cells)) (pen_bg p)).
Proof.
  induction 1 as [|[top_color bot_color] cells [Htop Hbot] _ IH];
    intros current_fg current_bg p Hfg Hbg;
    cbn [block_tokens drawn_blocks flat_map map fst snd].
  - split; [reflexivity|]. simpl. now rewrite pen_eta.
  - simpl in Htop, Hbot. rewrite !last_cons.
    destruct (IH top_color bot_color (Pen (Some top_color) (Some bot_color))
                (or_intror eq_refl) (or_intror eq_refl)) as [IHr IHp].
    rewrite app_assoc.
    set (pre := ((if top_color =? current_fg then []
                  else [Seq (fg_of top_color)])
                 ++ (if bot_color =? current_bg then []
                     else [Seq (bg_of bot_color)]))%list).
    assert (Hpen : pen_after p pre = Pen (Some top_color) (Some bot_color)
                   /\ replay p pre = []).
    { subst pre.
      destruct (Z.eqb_spec top_color current_fg) as [->|Hnt];
        destruct (Z.eqb_spec bot_color current_bg) as [->|Hnb];
        cbn [app pen_after replay]; rewrite ?apply_fg, ?apply_bg;
        cbn [pen_fg pen_bg];
        try (destruct Hfg as [Hfg|Hfg]; [contradiction|]);
        try (destruct Hbg as [Hbg|Hbg]; [contradiction|]);
        rewrite <- ?Hfg, <- ?Hbg, ?pen_eta; split; reflexivity. }
    destruct Hpen as [Hpen Hnone].
    rewrite (replay_app pre), (pen_after_app pre), Hpen, Hnone.
    rewrite replay_app, pen_after_app.
    destruct (replay_text (Pen (Some top_color) (Some bot_color))
                UPPER_HALF_BLOCK) as [-> ->].
    rewrite IHr, IHp. split; reflexivity.
Qed.

Lemma replay_left (p : pen) (bg_color padding_w : Z) :
  replay p (left_tokens (bg_of bg_color) padding_w)
  = repeat (" "%char, Pen (pen_fg p) (Some bg_color)) (Z.to_nat padding_w)
  /\ pen_after p (left_tokens (bg_of bg_color) padding_w)
     = if padding_w >? 0 then Pen (pen_fg p) (Some bg_color) else p.
Proof.
  unfold left_tokens. destruct (Z.gtb_spec padding_w 0).
  - cbn [replay pen_after]. rewrite apply_bg. apply replay_spaces.
  - replace (Z.to_nat padding_w) with O by lia. now split.
Qed.

Lemma replay_right (p : pen) (bg_color : Z)
  (screen_width screen_height img_width img_height : Z) :
  valid_geometry screen_width screen_height img_width img_height ->
  replay p (right_tokens (bg_of bg_color) screen_width
              ((screen_width - img_width) / 2) img_width)
  = repeat (" "%char, Pen (pen_fg p) (Some bg_color))
      (Z.to_nat (screen_width - ((screen_width - img_width) / 2 + img_width))).
Proof.
  intros Hgeo. unfold right_tokens.
  rewrite (geometry_visible_len _ _ _ _ Hgeo),
    (geometry_right_width _ _ _ _ Hgeo).
  destruct (Z.ltb_spec ((screen_width - img_width) / 2 + img_width)
              screen_width).
  - cbn [replay]. rewrite apply_bg. apply replay_spaces.
  - match goal with |- _ = repeat _ ?n => replace n with O by lia end.
    reflexivity.
Qed.

Lemma cells_colors_set (A : Type) (cells : list (Z * A)) (colors : list Z) :
  map fst cells = colors ->
  Forall (fun c => c <> -1) colors ->
  Forall (fun cell => fst cell <> -1) cells.
Proof.
  intros <- H. rewrite Forall_map in H. exact H.
Qed.

Lemma term_cells_glyph_of (pixels pixels_gray : pixel_access)
  (ascii_palette : list string) (ascii_palette_len y : Z)
  (xs : list Z) (cells : list (Z * string)) :
  mapM (term_read pixels pixels_gray ascii_palette ascii_palette_len y) xs
  = Ok cells ->
  Forall2 (fun x cell =>
             exists g,
               pixels_gray x y = Some g
               /\ getitem ascii_palette (ramp_index g ascii_palette_len)
                  = Ok (snd cell)) xs cells.
Proof.
  intros H. apply mapM_forall2 in H.
  induction H as [|x [color glyph] xs cells Hread _ IH]; constructor;
    [|assumption].
  apply term_read_inv in Hread.
  destruct Hread as (g & p & Hg & _ & _ & _ & _ & Hglyph).
  exists g. now split.
Qed.

(** X1. Drawn by a terminal, an image row of [img_to_term] under valid
    geometry is: [padding_w] spaces on the background [bg_color]; then, for
    every pixel of the row in order, its glyph
    [ascii_palette[ramp_index(luminance)]] in the foreground colour of that
    very pixel (its palette index plus 16), so that coalescing the escape
    sequences loses no colour; then the right padding, spaces on the
    background [bg_color]. The glyphs stand on the background [bg_color] when
    there is a left padding and on the terminal's own background when
    [padding_w] is 0, since the row sets the background in its padding
    only. *)
Theorem glyph_row_shows_the_pixels (pixels pixels_gray : pixel_access)
  (bg_color : Z) (ascii_palette : list string)
  (ascii_palette_len screen_width screen_height img_width img_height y : Z)
  (row : string) :
  valid_geometry screen_width screen_height img_width img_height ->
  forallb is_glyph ascii_palette = true ->
  forallb (fun x => pixel_index pixels x y) (range img_width) = true ->
  let padding_w := (screen_width - img_width) / 2 in
  term_row pixels pixels_gray (bg_of bg_color) ascii_palette ascii_palette_len
    screen_width img_width padding_w y = Ok row ->
  exists cells,
    map fst cells = row_colors pixels img_width y
    /\ Forall2 (fun x cell =>
                  exists g,
                    pixels_gray x y = Some g
                    /\ getitem ascii_palette (ramp_index g ascii_palette_len)
                       = Ok (snd cell)) (range img_width) cells
    /\ display row
       = (repeat (" "%char, Pen None (Some bg_color)) (Z.to_nat padding_w)
          ++ drawn_glyphs (if padding_w >? 0 then Some bg_color else None)
               cells
          ++ repeat (" "%char,
                     Pen (last_color (map fst cells)) (Some bg_color))
               (Z.to_nat (screen_width - (padding_w + img_width))))%list.
Proof.
  intros Hgeo Hramp Hpixels padding_w Hrow.
  apply term_row_anatomy in Hrow; [|assumption].
  destruct Hrow as (cells & body & Hcells & _ & _ & -> & Hbody).
  pose proof (term_cells_colors _ _ _ _ _ _ _ Hcells) as Hcolors.
  fold (row_colors pixels img_width y) in Hcolors.
  assert (Hset : Forall (fun cell => fst cell <> -1) cells).
  { apply (cells_colors_set _ _ _ Hcolors), row_colors_set.
    intros x Hx. rewrite forallb_forall in Hpixels.
    now apply Hpixels, in_range. }
  exists cells. split; [assumption|].
  split; [exact (term_cells_glyph_of _ _ _ _ _ _ _ Hcells)|].
  unfold display. rewrite (proj1 (reset_closes _ _ Hbody)).
  destruct (replay_left blank_pen bg_color padding_w) as [Hl Hlp].
  rewrite <- !app_assoc, replay_app, Hl, Hlp. f_equal.
  set (p1 := if padding_w >? 0 then Pen (pen_fg blank_pen) (Some bg_color)
             else blank_pen).
  destruct (replay_term cells Hset (-1) p1 (or_introl eq_refl)) as [Hc Hcp].
  rewrite replay_app, Hc, Hcp.
  assert (Hbg : pen_bg p1 = if padding_w >? 0 then Some bg_color else None).
  { subst p1. now destruct (padding_w >? 0). }
  assert (Hfg : pen_fg p1 = None).
  { subst p1. now destruct (padding_w >? 0). }
  rewrite Hbg, Hfg. f_equal.
  rewrite replay_app, (replay_right _ _ _ _ _ _ Hgeo). cbn [pen_fg].
  unfold last_color. cbn [replay]. now rewrite app_nil_r.
Qed.

Lemma glyph_row_shows_the_pixels_example :
  exists row cells,
    term_row (grid_picture [[3; 3; 5]]) (grid_picture [[0; 255; 128]])
      (bg_of 7) ["."; "+"; "#"] 2 5 3 ((5 - 3) / 2) 0 = Ok row
    /\ map fst cells = [19; 19; 21]
    /\ display row
       = (repeat (" "%char, Pen None (Some 7)) 1
          ++ drawn_glyphs (Some 7) cells
          ++ repeat (" "%char, Pen (last_color (map fst cells)) (Some 7)) 1)%list.
Proof.
  assert (Hrow : exists row,
             term_row (grid_picture [[3; 3; 5]])
               (grid_picture [[0; 255; 128]]) (bg_of 7) ["."; "+"; "#"] 2
               5 3 ((5 - 3) / 2) 0 = Ok row)
    by (vm_compute; eexists; reflexivity).
  destruct Hrow as (row & Hrow).
  destruct (glyph_row_shows_the_pixels (grid_picture [[3; 3; 5]])
              (grid_picture [[0; 255; 128]]) 7 ["."; "+"; "#"] 2 5 1 3 1 0 row
              ltac:(geometry) eq_refl eq_refl Hrow)
    as (cells & Hcolors & _ & Hdisplay).
  exists row, cells. split; [exact Hrow|]. split; [exact Hcolors|].
  exact Hdisplay.
Defined.

Lemma block_cells_lower (pixels : pixel_access) (y : Z) :
  forall (xs : list Z) (cells : list (Z * Z)),
    mapM (block_read pixels y) xs = Ok cells ->
    map snd cells
    = map (fun x => match pixels x (int_add y 1) with
                    | Some p => p + 16
                    | None => 0
                    end) xs.
Proof.
  intros xs cells H. apply mapM_forall2 in H.
  induction H as [|x [top_color bot_color] xs cells Hread _ IH];
    [reflexivity|].
  apply block_read_inv in Hread.
  destruct Hread as (t & b & _ & _ & _ & Hb & _ & ->).
  cbn [map snd]. now rewrite Hb, IH.
Qed.

(** X2. Drawn by a terminal, a row of [img_to_term_block] under valid
    geometry is: [padding_w] spaces on the background [bg_color]; then one
    upper half block for every column [x], with the colour of the pixel
    [(x, y)] in front and the colour of the pixel [(x, y + 1)] behind (palette
    indices plus 16), whatever escape sequences the two trackers left out;
    then the right padding, spaces on the background [bg_color] again. *)
Theorem block_row_shows_the_pixels (pixels : pixel_access)
  (bg_color screen_width screen_height img_width img_height y : Z)
  (row : string) :
  valid_geometry screen_width screen_height img_width img_height ->
  In y (range_by2 (int_sub img_height 1)) ->
  forallb (fun x => pixel_index pixels x y && pixel_index pixels x (y + 1))
          (range img_width) = true ->
  let padding_w := (screen_width - img_width) / 2 in
  block_row pixels (bg_of bg_color) screen_width img_width padding_w y
  = Ok row ->
  exists cells,
    map fst cells = row_colors pixels img_width y
    /\ map snd cells = row_colors pixels img_width (y + 1)
    /\ display row
       = (repeat (" "%char, Pen None (Some bg_color)) (Z.to_nat padding_w)
          ++ drawn_blocks cells
          ++ repeat (" "%char,
                     Pen (last_color (map fst cells)) (Some bg_color))
               (Z.to_nat (screen_width - (padding_w + img_width))))%list.
Proof.
  intros Hgeo Hy Hpixels padding_w Hrow.
  apply block_row_anatomy in Hrow.
  destruct Hrow as (cells & body & Hcells & _ & -> & Hbody).
  pose proof (block_cells_colors _ _ _ _ Hcells) as Htop.
  pose proof (block_cells_lower _ _ _ _ Hcells) as Hbot.
  rewrite (range_by2_rows _ _ Hy) in Hbot.
  fold (row_colors pixels img_width y) in Htop.
  fold (row_colors pixels img_width (y + 1)) in Hbot.
  rewrite forallb_forall in Hpixels.
  assert (Hset : Forall (fun cell => fst cell <> -1 /\ snd cell <> -1) cells).
  { assert (Ht : Forall (fun cell => fst cell <> -1) cells).
    { apply (cells_colors_set _ _ _ Htop), row_colors_set.
      intros x Hx. apply in_range in Hx. specialize (Hpixels x Hx).
      apply andb_true_iff in Hpixels. tauto. }
    assert (Hb : Forall (fun c => c <> -1) (map snd cells)).
    { rewrite Hbot. apply row_colors_set.
      intros x Hx. apply in_range in Hx. specialize (Hpixels x Hx).
      apply andb_true_iff in Hpixels. tauto. }
    rewrite Forall_map in Hb. rewrite Forall_forall in *.
    intros cell Hin. split; [now apply Ht|now apply Hb]. }
  exists cells. split; [assumption|]. split; [assumption|].
  unfold display. rewrite (proj1 (reset_closes _ _ Hbody)).
  destruct (replay_left blank_pen bg_color padding_w) as [Hl Hlp].
  rewrite <- !app_assoc, replay_app, Hl, Hlp. f_equal.
  set (p1 := if padding_w >? 0 then Pen (pen_fg blank_pen) (Some bg_color)
             else blank_pen).
  destruct (replay_block cells Hset (-1) (-1) p1 (or_introl eq_refl)
              (or_introl eq_refl)) as [Hc Hcp].
  rewrite replay_app, Hc, Hcp. f_equal.
  assert (Hfg : pen_fg p1 = None).
  { subst p1. now destruct (padding_w >? 0). }
  rewrite Hfg.
  rewrite replay_app, (replay_right _ _ _ _ _ _ Hgeo). cbn [pen_fg].
  unfold last_color. cbn [replay]. now rewrite app_nil_r.
Qed.

Lemma block_row_shows_the_pixels_example :
  exists row cells,
    block_row (grid_picture [[3; 3; 5]; [3; 4; 4]]) (bg_of 7) 5 3
      ((5 - 3) / 2) 0 = Ok row
    /\ map fst cells = [19; 19; 21]
    /\ map snd cells = [19; 20; 20]
    /\ display row
       = (repeat (" "%char, Pen None (Some 7)) 1
          ++ drawn_blocks cells
          ++ repeat (" "%char, Pen (last_color (map fst cells)) (Some 7)) 1)%list.
Proof.
  assert (Hrow : exists row,
             block_row (grid_picture [[3; 3; 5]; [3; 4; 4]]) (bg_of 7) 5 3
               ((5 - 3) / 2) 0 = Ok row)
    by (vm_compute; eexists; reflexivity).
  destruct Hrow as (row & Hrow).
  destruct (block_row_shows_the_pixels (grid_picture [[3; 3; 5]; [3; 4; 4]])
              7 5 2 3 2 0 row ltac:(geometry) (or_introl eq_refl) eq_refl
              Hrow)
    as (cells & Htop & Hbot & Hdisplay).
  exists row, cells. split; [exact Hrow|]. split; [exact Htop|].
  split; [exact Hbot|exact Hdisplay].
Defined.

(** ** Background sequences of the tokens *)

Lemma is_bg_bg (color : Z) : is_bg (bg_of color) = true.
Proof.
  unfold is_bg, bg_of.
  change (ESC ++ "[48;5;" ++ str color ++ "m")
    with ((ESC ++ "[48;5;") ++ str color ++ "m").
  apply prefix_append.
Qed.

Lemma is_bg_fg (color : Z) : is_bg (fg_of color) = false.
Proof.
  reflexivity.
Qed.

Lemma filter_bg_map (l : list Z) : filter is_bg (map bg_of l) = map bg_of l.
Proof.
  induction l as [|a l IH]; [reflexivity|].
  cbn [map filter]. rewrite is_bg_bg. now rewrite IH.
Qed.

Lemma bg_seqs_block (cells : list (Z * Z)) :
  forall current_fg current_bg,
    filter is_bg (seqs (block_tokens current_fg current_bg cells))
    = map bg_of (heads_from current_bg (map snd cells)).
Proof.
  induction cells as [|[top_color bot_color] cells IH];
    intros current_fg current_bg; cbn [block_tokens map snd heads_from];
    [reflexivity|].
  rewrite !seqs_app, seqs_text, !filter_app, IH.
  destruct (top_color =? current_fg); destruct (bot_color =? current_bg);
    cbn [seqs flat_map app filter map];
    rewrite ?is_bg_fg, ?is_bg_bg; reflexivity.
Qed.

Lemma bg_seqs_term (cells : list (Z * string)) :
  forall current_fg,
    filter is_bg (seqs (term_tokens current_fg cells)) = [].
Proof.
  intros current_fg. rewrite seqs_term. apply filter_none.
  apply Forall_forall. intros e He. apply in_map_iff in He.
  destruct He as (c & <- & _). apply is_bg_fg.
Qed.

Lemma bg_seqs_left (bg_color padding_w : Z) :
  filter is_bg (seqs (left_tokens (bg_of bg_color) padding_w))
  = if padding_w >? 0 then [bg_of bg_color] else [].
Proof.
  unfold left_tokens. destruct (padding_w >? 0); [|reflexivity].
  change (Seq (bg_of bg_color) :: spaces_tokens padding_w)
    with ([Seq (bg_of bg_color)] ++ spaces_tokens padding_w)%list.
  rewrite seqs_app, seqs_spaces, app_nil_r. cbn [seqs flat_map app filter].
  now rewrite is_bg_bg.
Qed.

Lemma bg_seqs_right (bg_color screen_width padding_w img_width : Z) :
  filter is_bg
    (seqs (right_tokens (bg_of bg_color) screen_width padding_w img_width))
  = if int_add padding_w img_width <? screen_width
    then [bg_of bg_color] else [].
Proof.
  unfold right_tokens. destruct (_ <? _); [|reflexivity].
  change (Seq (bg_of bg_color) :: ?l) with ([Seq (bg_of bg_color)] ++ l)%list.
  rewrite seqs_app, seqs_spaces, app_nil_r. cbn [seqs flat_map app filter].
  now rewrite is_bg_bg.
Qed.

(** ** Line count and padding for any geometry *)



Lemma half_of_negative (d : Z) : d <= 0 -> d <= d / 2 <= 0.
Proof.
  intros H. pose proof (Z.div_mod d 2 ltac:(lia)).
  pose proof (Z.mod_pos_bound d 2 ltac:(lia)). lia.
Qed.

Lemma no_padding_when_wide (bg : string) (screen_width img_width : Z) :
  c_int img_width -> 0 <= screen_width <= img_width ->
  let padding_w := floordiv (int_sub screen_width img_width) 2 in
  left_tokens bg padding_w = []
  /\ right_tokens bg screen_width padding_w img_width = [].
Proof.
  intros Hi Hw padding_w.
  assert (Hsub : int_sub screen_width img_width = screen_width - img_width).
  { apply wrap_id. unfold c_int, int_min, int_max in *. lia. }
  pose proof (half_of_negative (screen_width - img_width) ltac:(lia)) as Hhalf.
  assert (Hpw : padding_w = (screen_width - img_width) / 2).
  { subst padding_w. unfold floordiv. now rewrite Hsub. }
  assert (Hadd : int_add padding_w img_width = padding_w + img_width).
  { apply wrap_id. unfold c_int, int_min, int_max in *. lia. }
  unfold left_tokens, right_tokens. rewrite Hadd.
  destruct (Z.gtb_spec padding_w 0); [lia|].
  destruct (Z.ltb_spec (padding_w + img_width) screen_width); [lia|].
  now split.
Qed.

(** X4. A picture at least as large as the screen is not cut. With
    [0 <= screen_height <= img_height] the lines of [img_to_term] are exactly
    its [img_height] image rows, without a padding row. With
    [0 <= screen_width <= img_width] an image row of either encoder has no
    padding: it is the sequences and characters of the [img_width] cells read
    from its pixels, then the reset. Such a row of [img_to_term] carries no
    background sequence at all; such a row of [img_to_term_block] carries
    those of its cells only, one for the lower colour at the head of every
    run. *)
Theorem large_picture_is_not_cut (pixels pixels_gray : pixel_access)
  (bg_color : Z) (ascii_palette : list string)
  (ascii_palette_len screen_width screen_height img_width img_height : Z) :
  c_int img_width -> c_int img_height ->
  let padding_w := floordiv (int_sub screen_width img_width) 2 in
  (0 <= screen_height <= img_height ->
   forall lines,
     img_to_term_lines pixels pixels_gray bg_color ascii_palette
       ascii_palette_len screen_width screen_height img_width img_height
     = Ok lines ->
     mapM (term_row pixels pixels_gray (bg_of bg_color) ascii_palette
             ascii_palette_len screen_width img_width padding_w)
          (range img_height) = Ok lines
     /\ Z.of_nat (length lines) = img_height)
  /\ (0 <= screen_width <= img_width ->
      forallb is_glyph ascii_palette = true ->
      forall y row,
        term_row pixels pixels_gray (bg_of bg_color) ascii_palette
          ascii_palette_len screen_width img_width padding_w y = Ok row ->
        exists cells,
          mapM (term_read pixels pixels_gray ascii_palette ascii_palette_len
                  y) (range img_width) = Ok cells
          /\ Z.of_nat (length cells) = img_width
          /\ tokens row = (term_tokens (-1) cells ++ [Seq RESET])%list
          /\ bg_escapes row = []
          /\ Z.of_nat (visible_width row) = img_width)
  /\ (0 <= screen_width <= img_width ->
      forall y row,
        block_row pixels (bg_of bg_color) screen_width img_width padding_w y
        = Ok row ->
        exists cells,
          mapM (block_read pixels y) (range img_width) = Ok cells
          /\ Z.of_nat (length cells) = img_width
          /\ tokens row = (block_tokens (-1) (-1) cells ++ [Seq RESET])%list
          /\ bg_escapes row = map bg_of (heads_from (-1) (map snd cells))
          /\ Z.of_nat (visible_width row) = img_width).
Proof.
  intros Hiw Hih padding_w.
  split; [|split].
  - intros Hh lines Hlines. rewrite img_to_term_lines_shape in Hlines.
    fold padding_w in Hlines.
    destruct (mapM _ _) as [rows|] eqn:Hrows; simpl in Hlines; [|discriminate].
    injection Hlines as <-.
    pose proof (mapM_length _ _ _ Hrows) as Hlen.
    rewrite range_length in Hlen.
    assert (Hsub : int_sub screen_height img_height
                   = screen_height - img_height).
    { apply wrap_id. unfold c_int, int_min, int_max in *. lia. }
    pose proof (half_of_negative (screen_height - img_height) ltac:(lia)).
    unfold floordiv. rewrite Hsub.
    replace (Z.to_nat ((screen_height - img_height) / 2)) with O by lia.
    cbn [repeat app Nat.add].
    replace (Z.to_nat (screen_height - Z.of_nat (length rows))) with O by lia.
    cbn [repeat]. rewrite app_nil_r. split; [reflexivity|lia].
  - intros Hw Hramp y row Hrow.
    destruct (no_padding_when_wide (bg_of bg_color) _ _ Hiw Hw) as [Hl Hr].
    fold padding_w in Hl, Hr.
    apply term_row_anatomy in Hrow; [|assumption].
    destruct Hrow as (cells & body & Hcells & Hglyphs & _ & -> & Hbody).
    rewrite Hl, Hr, app_nil_r in Hbody. cbn [app] in Hbody.
    assert (Hlen : Z.of_nat (length cells) = img_width).
    { rewrite (mapM_length _ _ _ Hcells), range_length.
      unfold c_int, int_min, int_max in *. lia. }
    exists cells. split; [assumption|]. split; [assumption|].
    unfold bg_escapes, escapes.
    rewrite visible_width_tokens, (proj1 (reset_closes _ _ Hbody)).
    split; [reflexivity|]. split.
    + rewrite seqs_app, filter_app, bg_seqs_term. reflexivity.
    + rewrite token_width_app, token_width_seq, token_width_term.
      * lia.
      * eapply Forall_impl; [|exact Hglyphs].
        intros cell Hc. now apply glyph_facts in Hc.
  - intros Hw y row Hrow.
    destruct (no_padding_when_wide (bg_of bg_color) _ _ Hiw Hw) as [Hl Hr].
    fold padding_w in Hl, Hr.
    apply block_row_anatomy in Hrow.
    destruct Hrow as (cells & body & Hcells & _ & -> & Hbody).
    rewrite Hl, Hr, app_nil_r in Hbody. cbn [app] in Hbody.
    assert (Hlen : Z.of_nat (length cells) = img_width).
    { rewrite (mapM_length _ _ _ Hcells), range_length.
      unfold c_int, int_min, int_max in *. lia. }
    exists cells. split; [assumption|]. split; [assumption|].
    unfold bg_escapes, escapes.
    rewrite visible_width_tokens, (proj1 (reset_closes _ _ Hbody)).
    split; [reflexivity|]. split.
    + rewrite seqs_app, filter_app, bg_seqs_block.
      cbn [seqs flat_map filter app]. change (is_bg RESET) with false.
      now rewrite app_nil_r.
    + rewrite token_width_app, token_width_seq, token_width_block. lia.
Qed.

Lemma large_picture_is_not_cut_example :
  (exists lines,
      img_to_term_lines (flat_picture 3 2 0) (flat_picture 3 2 0) 0 ["."] 0
        2 1 3 2 = Ok lines
      /\ Z.of_nat (length lines) = 2)
  /\ (exists row cells,
        term_row (flat_picture 3 2 0) (flat_picture 3 2 0) (bg_of 0) ["."] 0
          2 3 (floordiv (int_sub 2 3) 2) 0 = Ok row
        /\ tokens row = (term_tokens (-1) cells ++ [Seq RESET])%list
        /\ bg_escapes row = [])
  /\ (exists row cells,
        block_row (grid_picture [[3; 3; 5]; [4; 4; 6]]) (bg_of 0)
          2 3 (floordiv (int_sub 2 3) 2) 0 = Ok row
        /\ tokens row = (block_tokens (-1) (-1) cells ++ [Seq RESET])%list
        /\ bg_escapes row = [bg_of 20; bg_of 22]).
Proof.
  assert (Hc3 : c_int 3) by (unfold c_int, int_min, int_max; lia).
  assert (Hc2 : c_int 2) by (unfold c_int, int_min, int_max; lia).
  split; [|split].
  - eexists. split; [vm_compute; reflexivity|].
    apply (proj1 (large_picture_is_not_cut (flat_picture 3 2 0)
                    (flat_picture 3 2 0) 0 ["."] 0 2 1 3 2 Hc3 Hc2));
      [lia|reflexivity].
  - assert (Hrow : exists row,
               term_row (flat_picture 3 2 0) (flat_picture 3 2 0) (bg_of 0)
                 ["."] 0 2 3 (floordiv (int_sub 2 3) 2) 0 = Ok row)
      by (vm_compute; eexists; reflexivity).
    destruct Hrow as (row & Hrow).
    destruct (proj1 (proj2 (large_picture_is_not_cut (flat_picture 3 2 0)
                              (flat_picture 3 2 0) 0 ["."] 0 2 1 3 2
                              Hc3 Hc2))
                ltac:(lia) eq_refl 0 row Hrow)
      as (cells & _ & _ & Htokens & Hbg & _).
    exists row, cells. split; [exact Hrow|]. split; assumption.
  - assert (Hrow : exists row,
               block_row (grid_picture [[3; 3; 5]; [4; 4; 6]]) (bg_of 0)
                 2 3 (floordiv (int_sub 2 3) 2) 0 = Ok row)
      by (vm_compute; eexists; reflexivity).
    destruct Hrow as (row & Hrow).
    destruct (proj2 (proj2 (large_picture_is_not_cut
                              (grid_picture [[3; 3; 5]; [4; 4; 6]])
                              no_picture 0 [] 0 2 1 3 2 Hc3 Hc2))
                ltac:(lia) 0 row Hrow)
      as (cells & Hcells & _ & Htokens & Hbg & _).
    exists row, cells. split; [exact Hrow|]. split; [exact Htokens|].
    rewrite Hbg. vm_compute in Hcells. injection Hcells as <-. reflexivity.
Defined.

(** X5. Under valid geometry the picture is centred with the odd row and
    the odd column on the far side. The lines are [top] padding rows, the
    image rows of the loop and [bottom] padding rows, with
    [top <= bottom <= top + 1] filling the screen height. An image row of
    either encoder is, token for token, [left] columns of padding (the
    background sequence and [left] spaces, or nothing for [left = 0]), the
    [img_width] cells read from the pixels of the row, [right] columns of
    padding and the reset, with [left <= right <= left + 1] filling the
    screen width. *)
Theorem picture_is_centred (pixels pixels_gray : pixel_access)
  (bg_color : Z) (ascii_palette : list string)
  (ascii_palette_len screen_width screen_height img_width img_height : Z) :
  valid_geometry screen_width screen_height img_width img_height ->
  let bg := bg_of bg_color in
  let pad := padding_row bg screen_width in
  let padding_w := floordiv (int_sub screen_width img_width) 2 in
  (forall lines,
      img_to_term_lines pixels pixels_gray bg_color ascii_palette
        ascii_palette_len screen_width screen_height img_width img_height
      = Ok lines ->
      exists rows top bottom,
        mapM (term_row pixels pixels_gray bg ascii_palette ascii_palette_len
                screen_width img_width padding_w) (range img_height)
        = Ok rows
        /\ lines = (repeat pad top ++ rows ++ repeat pad bottom)%list
        /\ Z.of_nat (length rows) = img_height
        /\ Z.of_nat top + img_height + Z.of_nat bottom = screen_height
        /\ (top <= bottom <= top + 1)%nat)
  /\ (forall lines,
        img_to_term_block_lines pixels bg_color screen_width screen_height
          img_width img_height = Ok lines ->
        exists rows top bottom,
          mapM (block_row pixels bg screen_width img_width padding_w)
               (range_by2 (img_height - 1)) = Ok rows
          /\ lines = (repeat pad top ++ rows ++ repeat pad bottom)%list
          /\ Z.of_nat (length rows) = img_height / 2
          /\ Z.of_nat top + img_height / 2 + Z.of_nat bottom = screen_height
          /\ (top <= bottom <= top + 1)%nat)
  /\ (forallb is_glyph ascii_palette = true ->
      forall y row,
        term_row pixels pixels_gray bg ascii_palette ascii_palette_len
          screen_width img_width padding_w y = Ok row ->
        exists cells left right,
          mapM (term_read pixels pixels_gray ascii_palette ascii_palette_len
                  y) (range img_width) = Ok cells
          /\ tokens row
             = (padding_tokens bg left ++ term_tokens (-1) cells
                ++ padding_tokens bg right ++ [Seq RESET])%list
          /\ token_width (term_tokens (-1) cells) = Z.to_nat img_width
          /\ Z.of_nat left + img_width + Z.of_nat right = screen_width
          /\ (left <= right <= left + 1)%nat)
  /\ (forall y row,
        block_row pixels bg screen_width img_width padding_w y = Ok row ->
        exists cells left right,
          mapM (block_read pixels y) (range img_width) = Ok cells
          /\ tokens row
             = (padding_tokens bg left ++ block_tokens (-1) (-1) cells
                ++ padding_tokens bg right ++ [Seq RESET])%list
          /\ token_width (block_tokens (-1) (-1) cells) = Z.to_nat img_width
          /\ Z.of_nat left + img_width + Z.of_nat right = screen_width
          /\ (left <= right <= left + 1)%nat).
Proof.
  intros Hgeo bg pad padding_w.
  pose proof Hgeo as (_ & _ & Hiw & Hih).
  assert (Hhalf : forall d, 0 <= d -> 0 <= d / 2 /\ d / 2 <= d - d / 2 <= d / 2 + 1).
  { intros d Hd. pose proof (Z.div_mod d 2 ltac:(lia)).
    pose proof (Z.mod_pos_bound d 2 ltac:(lia)). lia. }
  assert (Hpw : padding_w = (screen_width - img_width) / 2)
    by apply (geometry_padding_w _ _ _ _ Hgeo).
  assert (Hsides : forall l r : nat,
             l = Z.to_nat ((screen_width - img_width) / 2) ->
             r = Z.to_nat (screen_width
                           - ((screen_width - img_width) / 2 + img_width)) ->
             Z.of_nat l + img_width + Z.of_nat r = screen_width
             /\ (l <= r <= l + 1)%nat).
  { pose proof (Hhalf (screen_width - img_width) ltac:(lia)) as Hc.
    revert Hc. generalize ((screen_width - img_width) / 2).
    intros h Hc l r -> ->. lia. }
  split; [|split; [|split]].
  - intros lines Hlines.
    rewrite (img_to_term_lines_layout _ _ _ _ _ _ _ _ _ Hgeo) in Hlines.
    rewrite Hpw.
    destruct (mapM _ _) as [rows|] eqn:Hrows; simpl in Hlines; [|discriminate].
    injection Hlines as <-.
    exists rows. do 2 eexists.
    split; [reflexivity|]. split; [reflexivity|].
    apply mapM_length in Hrows. rewrite range_length in Hrows.
    pose proof (Hhalf (screen_height - img_height) ltac:(lia)) as Hc.
    revert Hc. generalize ((screen_height - img_height) / 2). intros h Hc.
    repeat split; lia.
  - intros lines Hlines.
    rewrite (img_to_term_block_lines_layout _ _ _ _ _ _ Hgeo) in Hlines.
    rewrite Hpw.
    destruct (mapM _ _) as [rows|] eqn:Hrows; simpl in Hlines; [|discriminate].
    injection Hlines as <-.
    exists rows. do 2 eexists.
    split; [reflexivity|]. split; [reflexivity|].
    apply mapM_length in Hrows. rewrite range_by2_length in Hrows.
    replace (img_height - 1 + 1) with img_height in Hrows by lia.
    assert (0 <= img_height / 2 <= img_height).
    { split; [apply Z.div_pos; lia|]. apply Z.div_le_upper_bound; lia. }
    pose proof (Hhalf (screen_height - img_height / 2) ltac:(lia)) as Hc.
    revert Hc. generalize ((screen_height - img_height / 2) / 2).
    revert H Hrows. generalize (img_height / 2).
    intros k Hk Hrows h Hc. repeat split; lia.
  - intros Hramp y row Hrow. rewrite Hpw in Hrow.
    destruct (term_row_exact _ _ _ _ _ _ _ _ _ _ _ Hgeo Hramp Hrow)
      as (cells & Hcells & Hwidths & Htokens).
    exists cells, (Z.to_nat ((screen_width - img_width) / 2)),
      (Z.to_nat (screen_width
                 - ((screen_width - img_width) / 2 + img_width))).
    split; [assumption|]. split; [exact Htokens|]. split.
    + rewrite (token_width_term _ Hwidths).
      now rewrite (mapM_length _ _ _ Hcells), range_length.
    + now apply Hsides.
  - intros y row Hrow. rewrite Hpw in Hrow.
    destruct (block_row_exact _ _ _ _ _ _ _ _ Hgeo Hrow)
      as (cells & Hcells & Htokens).
    exists cells, (Z.to_nat ((screen_width - img_width) / 2)),
      (Z.to_nat (screen_width
                 - ((screen_width - img_width) / 2 + img_width))).
    split; [assumption|]. split; [exact Htokens|]. split.
    + rewrite token_width_block.
      now rewrite (mapM_length _ _ _ Hcells), range_length.
    + now apply Hsides.
Qed.

Lemma picture_is_centred_example :
  (exists lines rows top bottom,
      img_to_term_lines (flat_picture 2 2 0) (flat_picture 2 2 0) 0
        ["."; " "] 1 5 5 2 2 = Ok lines
      /\ lines = (repeat (padding_row (bg_of 0) 5) top ++ rows
                  ++ repeat (padding_row (bg_of 0) 5) bottom)%list
      /\ Z.of_nat top + 2 + Z.of_nat bottom = 5
      /\ (top <= bottom <= top + 1)%nat)
  /\ (exists row cells left right,
        term_row (flat_picture 2 2 0) (flat_picture 2 2 0) (bg_of 0)
          ["."; " "] 1 5 2 (floordiv (int_sub 5 2) 2) 0 = Ok row
        /\ tokens row
           = (padding_tokens (bg_of 0) left ++ term_tokens (-1) cells
              ++ padding_tokens (bg_of 0) right ++ [Seq RESET])%list
        /\ Z.of_nat left + 2 + Z.of_nat right = 5
        /\ (left <= right <= left + 1)%nat).
Proof.
  split.
  - assert (Hcall : exists lines,
               img_to_term_lines (flat_picture 2 2 0) (flat_picture 2 2 0) 0
                 ["."; " "] 1 5 5 2 2 = Ok lines)
      by (vm_compute; eexists; reflexivity).
    destruct Hcall as (lines & Hcall).
    destruct (proj1 (picture_is_centred (flat_picture 2 2 0)
                       (flat_picture 2 2 0) 0 ["."; " "] 1 5 5 2 2
                       ltac:(geometry)) lines Hcall)
      as (rows & top & bottom & _ & Hlines & _ & Hsum & Hbalance).
    exists lines, rows, top, bottom.
    split; [exact Hcall|]. split; [exact Hlines|]. split; assumption.
  - assert (Hrow : exists row,
               term_row (flat_picture 2 2 0) (flat_picture 2 2 0) (bg_of 0)
                 ["."; " "] 1 5 2 (floordiv (int_sub 5 2) 2) 0 = Ok row)
      by (vm_compute; eexists; reflexivity).
    destruct Hrow as (row & Hrow).
    destruct (proj1 (proj2 (proj2 (picture_is_centred (flat_picture 2 2 0)
                                     (flat_picture 2 2 0) 0 ["."; " "] 1
                                     5 5 2 2 ltac:(geometry))))
                eq_refl 0 row Hrow)
      as (cells & left & right & _ & Htokens & _ & Hsum & Hbalance).
    exists row, cells, left, right.
    split; [exact Hrow|]. split; [exact Htokens|]. split; assumption.
Defined.

(** ** When a call returns *)

Lemma ramp_index_monotone (g1 g2 ascii_palette_len : Z) :
  0 <= g1 <= g2 -> g2 <= 255 -> 0 <= ascii_palette_len ->
  c_int (255 * ascii_palette_len) ->
  0 <= ramp_index g1 ascii_palette_len
  /\ ramp_index g1 ascii_palette_len <= ramp_index g2 ascii_palette_len
  /\ ramp_index g2 ascii_palette_len <= ascii_palette_len.
Proof.
  intros Hg1 Hg2 Hlen Hfit.
  assert (0 <= g1 * ascii_palette_len <= g2 * ascii_palette_len) by nia.
  assert (g2 * ascii_palette_len <= 255 * ascii_palette_len) by nia.
  rewrite !ramp_index_exact
    by (unfold c_int, int_min, int_max in *; lia).
  split; [apply Z.div_pos; lia|]. split.
  - apply Z.div_le_mono; lia.
  - apply Z.div_le_upper_bound; lia.
Qed.

Lemma getitem_ok_inside (l : list string) (i : Z) (g : string) :
  getitem l i = Ok g -> 0 <= i < Z.of_nat (length l).
Proof.
  unfold getitem.
  destruct (Z.leb_spec 0 i); destruct (Z.ltb_spec i (Z.of_nat (length l)));
    simpl; try discriminate.
  intros _. lia.
Qed.

(** The image rows are built, whatever the padding, when every pixel of
    the picture can be read and selects a glyph inside the ramp. *)
Lemma term_rows_built (pixels pixels_gray : pixel_access) (bg : string)
  (ascii_palette : list string)
  (ascii_palette_len screen_width img_width img_height padding_w : Z) :
  all_pixels (pixel_ok pixels) img_width img_height = true ->
  all_pixels (gray_in_ramp pixels_gray ascii_palette ascii_palette_len)
             img_width img_height = true ->
  exists rows,
    mapM (term_row pixels pixels_gray bg ascii_palette ascii_palette_len
            screen_width img_width padding_w) (range img_height) = Ok rows.
Proof.
  intros Hp Hg. rewrite all_pixels_spec in Hp, Hg.
  apply mapM_ok. intros y Hy. apply in_range in Hy.
  rewrite term_row_text.
  destruct (mapM_ok (term_read pixels pixels_gray ascii_palette
                       ascii_palette_len y) (range img_width))
    as (cells & Hcells).
  - intros x Hx. apply in_range in Hx. apply term_read_ok; auto.
  - rewrite Hcells. simpl. now eexists.
Qed.

(** X6. For luminances in [0, 255] the ramp index grows with the luminance
    from 0 to [ascii_palette_len] at most. So a call whose
    [ascii_palette_len] is smaller than the length of the ramp (the index of
    its last glyph, say) returns a text for every picture that can be read:
    no luminance leaves the ramp. *)
Theorem ramp_index_stays_in_a_longer_ramp (pixels pixels_gray : pixel_access)
  (bg_color : Z) (ascii_palette : list string)
  (ascii_palette_len screen_width screen_height img_width img_height : Z) :
  0 <= ascii_palette_len < Z.of_nat (length ascii_palette) ->
  c_int (255 * ascii_palette_len) ->
  all_pixels (pixel_ok pixels) img_width img_height = true ->
  all_pixels (gray_byte pixels_gray) img_width img_height = true ->
  ramp_index 0 ascii_palette_len = 0
  /\ (forall g1 g2, 0 <= g1 <= g2 -> g2 <= 255 ->
        0 <= ramp_index g1 ascii_palette_len
        /\ ramp_index g1 ascii_palette_len
           <= ramp_index g2 ascii_palette_len
        /\ ramp_index g2 ascii_palette_len <= ascii_palette_len)
  /\ exists text,
      img_to_term pixels pixels_gray bg_color ascii_palette ascii_palette_len
        screen_width screen_height img_width img_height = Ok text.
Proof.
  intros Hlen Hfit Hpixels Hgray.
  assert (Hmono : forall g1 g2, 0 <= g1 <= g2 -> g2 <= 255 ->
             0 <= ramp_index g1 ascii_palette_len
             /\ ramp_index g1 ascii_palette_len
                <= ramp_index g2 ascii_palette_len
             /\ ramp_index g2 ascii_palette_len <= ascii_palette_len).
  { intros g1 g2 H1 H2. apply ramp_index_monotone; try assumption. lia. }
  split; [|split; [exact Hmono|]].
  - unfold ramp_index, int_mul. reflexivity.
  - assert (Hin : all_pixels (gray_in_ramp pixels_gray ascii_palette
                                ascii_palette_len) img_width img_height
                  = true).
    { rewrite all_pixels_spec in *. intros x y Hx Hy.
      specialize (Hgray x y Hx Hy). unfold gray_byte in Hgray.
      unfold gray_in_ramp. destruct (pixels_gray x y) as [g|]; [|discriminate].
      apply andb_true_iff in Hgray. rewrite !Z.leb_le in Hgray.
      destruct (Hmono g g ltac:(lia) ltac:(lia)) as (Hlo & _ & Hhi).
      rewrite !andb_true_iff, Z.leb_le, Z.ltb_lt, c_intb_spec.
      unfold c_int, int_min, int_max. lia. }
    unfold img_to_term. rewrite img_to_term_lines_shape.
    destruct (term_rows_built pixels pixels_gray (bg_of bg_color)
                ascii_palette ascii_palette_len screen_width img_width
                img_height
                (floordiv (int_sub screen_width img_width) 2) Hpixels Hin)
      as (rows & Hrows).
    rewrite Hrows. simpl. now eexists.
Qed.

Lemma ramp_index_stays_in_a_longer_ramp_example :
  exists text,
    img_to_term (grid_picture [[0; 0]; [0; 0]])
      (grid_picture [[0; 128]; [255; 64]]) 0 [" "; "."; "+"; "#"] 3
      4 2 2 2 = Ok text.
Proof.
  apply (ramp_index_stays_in_a_longer_ramp (grid_picture [[0; 0]; [0; 0]])
           (grid_picture [[0; 128]; [255; 64]]) 0 [" "; "."; "+"; "#"] 3
           4 2 2 2);
    [simpl; lia|unfold c_int, int_min, int_max; lia|reflexivity|reflexivity].
Defined.

Lemma mapM_each {X Y : Type} (f : X -> result Y) (xs : list X) (ys : list Y) :
  mapM f xs = Ok ys -> forall x, In x xs -> exists y, f x = Ok y.
Proof.
  intros H. apply mapM_forall2 in H.
  induction H as [|x y xs ys Hxy _ IH]; intros x' Hin; [contradiction|].
  destruct Hin as [<-|Hin]; [now exists y|now apply IH].
Qed.

Lemma term_read_ok_inv (pixels pixels_gray : pixel_access)
  (ascii_palette : list string) (ascii_palette_len y x : Z)
  (cell : Z * string) :
  term_read pixels pixels_gray ascii_palette ascii_palette_len y x = Ok cell ->
  pixel_ok pixels x y = true
  /\ gray_in_ramp pixels_gray ascii_palette ascii_palette_len x y = true.
Proof.
  destruct cell as [color glyph]. intros H. apply term_read_inv in H.
  destruct H as (g & p & Hg & Hgi & Hp & Hpi & _ & Hglyph).
  apply getitem_ok_inside in Hglyph.
  unfold pixel_ok, gray_in_ramp. rewrite Hg, Hp.
  apply c_intb_spec in Hgi, Hpi. rewrite Hgi, Hpi. split; [reflexivity|].
  rewrite !andb_true_iff, Z.leb_le, Z.ltb_lt. repeat split; lia.
Qed.

Lemma mapM_err {X Y : Type} (f : X -> result Y) (e : error) (xs : list X) :
  mapM f xs = Err e -> exists x, In x xs /\ f x = Err e.
Proof.
  induction xs as [|a xs IH]; cbn [mapM]; [discriminate|].
  destruct (f a) as [b|e'] eqn:Hf; cbn [bind].
  - destruct (mapM f xs) as [ys|e'']; cbn [bind]; [discriminate|].
    intros H. injection H as ->.
    destruct (IH eq_refl) as (x & Hin & Hx).
    exists x. split; [now right|assumption].
  - intros H. injection H as ->. exists a. split; [now left|assumption].
Qed.

Lemma getitem_err (l : list string) (i : Z) (e : error) :
  getitem l i = Err e ->
  e = IndexError i /\ ~ 0 <= i < Z.of_nat (length l).
Proof.
  intros H. destruct (Z.le_gt_cases 0 i) as [Hlo|Hlo].
  - destruct (Z.lt_ge_cases i (Z.of_nat (length l))) as [Hhi|Hhi].
    + destruct (getitem_inside l i (conj Hlo Hhi)) as (g & Hg).
      rewrite Hg in H. discriminate.
    + rewrite getitem_outside in H by lia. injection H as <-.
      split; [reflexivity|lia].
  - rewrite getitem_outside in H by lia. injection H as <-.
    split; [reflexivity|lia].
Qed.

(** How the reads of a cell end when they do not give the cell: a pixel
    access raises, a value does not fit an [int], or the ramp is read
    outside the list. *)
Lemma term_read_err (pixels pixels_gray : pixel_access)
  (ascii_palette : list string) (ascii_palette_len y x : Z) (e : error) :
  term_read pixels pixels_gray ascii_palette ascii_palette_len y x = Err e ->
  match e with
  | PixelError x' y' =>
      x' = x /\ y' = y /\ (pixels_gray x y = None \/ pixels x y = None)
  | OverflowError v =>
      ~ c_int v
      /\ (pixels_gray x y = Some v
          \/ exists p, pixels x y = Some p /\ v = p + 16)
  | IndexError i =>
      exists g,
        pixels_gray x y = Some g /\ c_int g
        /\ i = ramp_index g ascii_palette_len
        /\ ~ 0 <= i < Z.of_nat (length ascii_palette)
  end.
Proof.
  unfold term_read, read, as_int.
  destruct (pixels_gray x y) as [g|] eqn:Hg; cbn [bind];
    [|intros H; injection H as <-; auto].
  destruct (c_intb g) eqn:Hcg; cbn [bind].
  2:{ intros H. injection H as <-. split; [|now left].
      rewrite <- c_intb_spec. congruence. }
  destruct (pixels x y) as [p|] eqn:Hp; cbn [bind];
    [|intros H; injection H as <-; auto].
  destruct (c_intb (p + 16)) eqn:Hcp; cbn [bind].
  2:{ intros H. injection H as <-. split; [|right; now exists p].
      rewrite <- c_intb_spec. congruence. }
  destruct (getitem _ _) as [glyph|e'] eqn:Hget; cbn [bind]; [discriminate|].
  intros H. injection H as ->.
  apply getitem_err in Hget. destruct Hget as [-> Hout].
  exists g. apply c_intb_spec in Hcg. auto.
Qed.

(** X7. For [int] arguments, a call of [img_to_term] runs to its return
    with every read of the ramp inside the list exactly when every pixel of
    the [img_width] by [img_height] picture can be read in both buffers, fits
    an [int] (the colour after the offset of 16), and has its ramp index
    inside the ramp. A call that does not stops at a pixel of the picture:
    with the exception of a pixel access or of the conversion to an [int],
    or at the unchecked read of the ramp at the index of that pixel's
    luminance, which lies outside the list. What the compiled code does
    from such a read on is not determined by the source, and is not stated
    here. *)
Theorem img_to_term_runs_inside_the_ramp_iff
  (pixels pixels_gray : pixel_access)
  (bg_color : Z) (ascii_palette : list string)
  (ascii_palette_len screen_width screen_height img_width img_height : Z) :
  c_int bg_color -> c_int ascii_palette_len ->
  c_int screen_width -> c_int screen_height ->
  c_int img_width -> c_int img_height ->
  let call :=
    img_to_term pixels pixels_gray bg_color ascii_palette ascii_palette_len
      screen_width screen_height img_width img_height in
  (is_ok call = true
   <-> all_pixels (pixel_ok pixels) img_width img_height = true
       /\ all_pixels (gray_in_ramp pixels_gray ascii_palette
                        ascii_palette_len) img_width img_height = true)
  /\ (forall e,
        call = Err e ->
        exists x y,
          0 <= x < img_width /\ 0 <= y < img_height
          /\ term_read pixels pixels_gray ascii_palette ascii_palette_len y x
             = Err e
          /\ match e with
             | PixelError x' y' =>
                 x' = x /\ y' = y
                 /\ (pixels_gray x y = None \/ pixels x y = None)
             | OverflowError v =>
                 ~ c_int v
                 /\ (pixels_gray x y = Some v
                     \/ exists p, pixels x y = Some p /\ v = p + 16)
             | IndexError i =>
                 reads_outside call i
                 /\ exists g,
                     pixels_gray x y = Some g /\ c_int g
                     /\ i = ramp_index g ascii_palette_len
                     /\ ~ 0 <= i < Z.of_nat (length ascii_palette)
             end).
Proof.
  intros _ _ _ _ _ _ call. split; [split|].
  - intros Hok. unfold call, img_to_term in Hok.
    rewrite img_to_term_lines_shape in Hok.
    destruct (mapM _ (range img_height)) as [rows|] eqn:Hrows;
      [|discriminate].
    assert (Hcell : forall x y, 0 <= x < img_width -> 0 <= y < img_height ->
               pixel_ok pixels x y = true
               /\ gray_in_ramp pixels_gray ascii_palette ascii_palette_len
                    x y = true).
    { intros x y Hx Hy. apply in_range in Hx, Hy.
      destruct (mapM_each _ _ _ Hrows y Hy) as (row & Hrow).
      rewrite term_row_text in Hrow.
      destruct (mapM _ (range img_width)) as [cells|] eqn:Hcells;
        [|discriminate].
      destruct (mapM_each _ _ _ Hcells x Hx) as (cell & Hread).
      now apply term_read_ok_inv in Hread. }
    split; apply all_pixels_spec; intros x y Hx Hy; now apply Hcell.
  - intros [Hp Hg]. unfold call, img_to_term.
    rewrite img_to_term_lines_shape.
    destruct (term_rows_built pixels pixels_gray (bg_of bg_color)
                ascii_palette ascii_palette_len screen_width img_width
                img_height
                (floordiv (int_sub screen_width img_width) 2) Hp Hg)
      as (rows & Hrows).
    now rewrite Hrows.
  - intros e He. pose proof He as Hcall. unfold call, img_to_term in He.
    rewrite img_to_term_lines_shape in He.
    destruct (mapM _ (range img_height)) as [rows|e'] eqn:Hrows;
      cbn [bind] in He; [discriminate|].
    injection He as ->.
    apply mapM_err in Hrows. destruct Hrows as (y & Hy & Hrow).
    rewrite term_row_text in Hrow.
    destruct (mapM _ (range img_width)) as [cells|e'] eqn:Hcells;
      cbn [bind] in Hrow; [discriminate|].
    injection Hrow as ->.
    apply mapM_err in Hcells. destruct Hcells as (x & Hx & Hread).
    apply in_range in Hx, Hy.
    exists x, y. split; [assumption|]. split; [assumption|].
    split; [assumption|].
    pose proof (term_read_err _ _ _ _ _ _ _ Hread) as Hkind.
    destruct e as [i|x' y'|v]; [|exact Hkind|exact Hkind].
    split; [exact Hcall|exact Hkind].
Qed.

Lemma img_to_term_runs_inside_the_ramp_iff_example :
  is_ok (img_to_term (flat_picture 2 2 0) (flat_picture 2 2 100) 0
           ["."; " "] 2 4 2 2 2) = true
  /\ all_pixels (gray_in_ramp (flat_picture 2 1 0) ["."] 1) 2 2 = false
  /\ exists x y,
      0 <= x < 2 /\ 0 <= y < 2
      /\ term_read (flat_picture 2 2 0) (flat_picture 2 2 255) ["."; " "] 2
           y x = Err (IndexError 2).
Proof.
  assert (Hc : forall z, 0 <= z <= 4 -> c_int z)
    by (intros z Hz; unfold c_int, int_min, int_max; lia).
  split; [|split].
  - apply (proj2 (proj1 (img_to_term_runs_inside_the_ramp_iff
                           (flat_picture 2 2 0) (flat_picture 2 2 100) 0
                           ["."; " "] 2 4 2 2 2
                           (Hc 0 ltac:(lia)) (Hc 2 ltac:(lia))
                           (Hc 4 ltac:(lia)) (Hc 2 ltac:(lia))
                           (Hc 2 ltac:(lia)) (Hc 2 ltac:(lia))))).
    split; reflexivity.
  - reflexivity.
  - destruct (proj2 (img_to_term_runs_inside_the_ramp_iff
                       (flat_picture 2 2 0) (flat_picture 2 2 255) 0
                       ["."; " "] 2 4 2 2 2
                       (Hc 0 ltac:(lia)) (Hc 2 ltac:(lia))
                       (Hc 4 ltac:(lia)) (Hc 2 ltac:(lia))
                       (Hc 2 ltac:(lia)) (Hc 2 ltac:(lia)))
                (IndexError 2) eq_refl)
      as (x & y & Hx & Hy & Hread & _).
    exists x, y. split; [exact Hx|]. split; [exact Hy|exact Hread].
Defined.

Lemma block_read_ok_inv (pixels : pixel_access) (y x : Z) (cell : Z * Z) :
  block_read pixels y x = Ok cell ->
  pixel_ok pixels x y = true /\ pixel_ok pixels x (int_add y 1) = true.
Proof.
  destruct cell as [top_color bot_color]. intros H.
  apply block_read_inv in H.
  destruct H as (t & b & Ht & Hti & _ & Hb & Hbi & _).
  unfold pixel_ok. rewrite Ht, Hb. apply c_intb_spec in Hti, Hbi.
  now rewrite Hti, Hbi.
Qed.

(** X8. With [0 <= img_height], [img_to_term_block] returns a text exactly
    when every pixel of the rows it pairs, the rows below
    [2 * (img_height / 2)], can be read and fits an [int] after the offset of
    16; the last row of a picture of odd height plays no part. *)
Theorem img_to_term_block_returns_iff (pixels : pixel_access)
  (bg_color screen_width screen_height img_width img_height : Z) :
  c_int img_height -> 0 <= img_height ->
  is_ok (img_to_term_block pixels bg_color screen_width screen_height
           img_width img_height) = true
  <-> all_pixels (pixel_ok pixels) img_width (2 * (img_height / 2)) = true.
Proof.
  intros Hint Hpos.
  assert (Hsub : int_sub img_height 1 = img_height - 1).
  { apply wrap_id. unfold c_int, int_min, int_max in *. lia. }
  pose proof (Z.div_mod img_height 2 ltac:(lia)) as Hdm.
  pose proof (Z.mod_pos_bound img_height 2 ltac:(lia)) as Hmb.
  assert (Hnext : forall y, In y (range_by2 (img_height - 1)) ->
                            int_add y 1 = y + 1).
  { intros y Hy. apply (range_by2_rows img_height). now rewrite Hsub. }
  unfold img_to_term_block. rewrite img_to_term_block_lines_shape, Hsub.
  split.
  - intros Hok.
    destruct (mapM _ (range_by2 _)) as [rows|] eqn:Hrows; [|discriminate].
    apply all_pixels_spec. intros x r Hx Hr.
    pose proof (Z.div_mod r 2 ltac:(lia)) as Hrdm.
    pose proof (Z.mod_pos_bound r 2 ltac:(lia)) as Hrmb.
    assert (Hy : In (2 * (r / 2)) (range_by2 (img_height - 1))).
    { apply in_range_by2. split; [lia|].
      rewrite Z.mul_comm. apply Z.mod_mul. lia. }
    destruct (mapM_each _ _ _ Hrows _ Hy) as (row & Hrow).
    rewrite block_row_text in Hrow.
    destruct (mapM _ (range img_width)) as [cells|] eqn:Hcells;
      [|discriminate].
    apply in_range in Hx.
    destruct (mapM_each _ _ _ Hcells x Hx) as (cell & Hread).
    apply block_read_ok_inv in Hread. rewrite (Hnext _ Hy) in Hread.
    assert (Hcase : r = 2 * (r / 2) \/ r = 2 * (r / 2) + 1) by lia.
    destruct Hcase as [Hc|Hc]; rewrite Hc at 1; tauto.
  - intros Hread. rewrite all_pixels_spec in Hread.
    destruct (mapM_ok (block_row pixels (bg_of bg_color) screen_width
                         img_width
                         (floordiv (int_sub screen_width img_width) 2))
                (range_by2 (img_height - 1))) as (rows & Hrows).
    + intros y Hy. pose proof (Hnext y Hy) as Hy1.
      apply in_range_by2 in Hy. destruct Hy as [Hy Heven].
      pose proof (Z.div_mod y 2 ltac:(lia)).
      rewrite block_row_text.
      destruct (mapM_ok (block_read pixels y) (range img_width))
        as (cells & Hcells).
      * intros x Hx. apply in_range in Hx. apply block_read_ok.
        -- apply Hread; lia.
        -- rewrite Hy1. apply Hread; lia.
      * rewrite Hcells. simpl. now eexists.
    + now rewrite Hrows.
Qed.

Lemma img_to_term_block_returns_iff_example :
  is_ok (img_to_term_block (flat_picture 2 2 0) 7 4 3 2 3) = true.
Proof.
  apply (proj2 (img_to_term_block_returns_iff (flat_picture 2 2 0) 7 4 3 2 3
                  ltac:(unfold c_int, int_min, int_max; lia) ltac:(lia))).
  reflexivity.
Defined.

(** ** Background sequences of a row *)

(** X9. The background tracker of [img_to_term_block] coalesces like the
    foreground one: in a row whose lower pixels hold palette indices, the
    background escape sequences are the one of the left padding (when there
    is one), then those of the first colour of every maximal run of equal
    colours in the lower source row, then the one of the right padding (when
    there is one). A row of [img_to_term] with one-character glyphs,
    whatever its pixels, has no background sequence but those of its
    paddings. *)
Theorem bg_escapes_per_row (pixels pixels_gray : pixel_access)
  (bg_color : Z) (ascii_palette : list string)
  (ascii_palette_len screen_width img_width padding_w y : Z) :
  let left := if padding_w >? 0 then [bg_of bg_color] else [] in
  let right := if int_add padding_w img_width <? screen_width
               then [bg_of bg_color] else [] in
  (forall row,
      forallb (fun x => pixel_index pixels x (int_add y 1)) (range img_width)
      = true ->
      block_row pixels (bg_of bg_color) screen_width img_width padding_w y
      = Ok row ->
      bg_escapes row
      = (left
         ++ map bg_of (run_heads (row_colors pixels img_width (int_add y 1)))
         ++ right)%list)
  /\ (forall row,
        forallb is_glyph ascii_palette = true ->
        term_row pixels pixels_gray (bg_of bg_color) ascii_palette
          ascii_palette_len screen_width img_width padding_w y = Ok row ->
        bg_escapes row = (left ++ right)%list).
Proof.
  intros left right. split.
  - intros row Hpixels Hrow. apply block_row_anatomy in Hrow.
    destruct Hrow as (cells & body & Hcells & _ & -> & Hbody).
    unfold bg_escapes, escapes. rewrite (proj1 (reset_closes _ _ Hbody)).
    rewrite !seqs_app, !filter_app, bg_seqs_block, bg_seqs_left,
      bg_seqs_right, (block_cells_lower _ _ _ _ Hcells).
    fold (row_colors pixels img_width (int_add y 1)).
    rewrite heads_from_unset.
    + cbn [seqs flat_map filter app]. change (is_bg RESET) with false.
      now rewrite !app_nil_r.
    + apply row_colors_set. intros x Hx. rewrite forallb_forall in Hpixels.
      now apply Hpixels, in_range.
  - intros row Hramp Hrow. apply term_row_anatomy in Hrow; [|assumption].
    destruct Hrow as (cells & body & Hcells & _ & _ & -> & Hbody).
    unfold bg_escapes, escapes. rewrite (proj1 (reset_closes _ _ Hbody)).
    rewrite !seqs_app, !filter_app, bg_seqs_term, bg_seqs_left,
      bg_seqs_right.
    cbn [seqs flat_map filter app]. change (is_bg RESET) with false.
    now rewrite !app_nil_r.
Qed.

Lemma bg_escapes_per_row_example :
  (exists row,
      block_row (grid_picture [[3; 3; 5]; [4; 4; 6]]) (bg_of 7) 5 3 1 0
      = Ok row
      /\ bg_escapes row = [bg_of 7; bg_of 20; bg_of 22; bg_of 7])
  /\ (exists row,
        term_row (grid_picture [[3; 3; 5]]) (grid_picture [[0; 0; 0]])
          (bg_of 7) ["."] 1 5 3 1 0 = Ok row
        /\ bg_escapes row = [bg_of 7; bg_of 7]).
Proof.
  split.
  - eexists. split; [vm_compute; reflexivity|].
    apply (proj1 (bg_escapes_per_row (grid_picture [[3; 3; 5]; [4; 4; 6]])
                    no_picture 7 [] 0 5 3 1 0)); reflexivity.
  - eexists. split; [vm_compute; reflexivity|].
    apply (proj2 (bg_escapes_per_row (grid_picture [[3; 3; 5]])
                    (grid_picture [[0; 0; 0]]) 7 ["."] 1 5 3 1 0));
      reflexivity.
Defined.

(** ** What the encoders read *)

Lemma term_row_agree (pixels pixels' pixels_gray pixels_gray' : pixel_access)
  (bg : string) (ascii_palette : list string)
  (ascii_palette_len screen_width img_width padding_w y : Z) :
  (forall x, 0 <= x < img_width ->
     pixels x y = pixels' x y /\ pixels_gray x y = pixels_gray' x y) ->
  term_row pixels pixels_gray bg ascii_palette ascii_palette_len screen_width
    img_width padding_w y
  = term_row pixels' pixels_gray' bg ascii_palette ascii_palette_len
      screen_width img_width padding_w y.
Proof.
  intros Hsame. rewrite !term_row_text.
  rewrite (mapM_ext
             (term_read pixels pixels_gray ascii_palette ascii_palette_len y)
             (term_read pixels' pixels_gray' ascii_palette ascii_palette_len
                y)); [reflexivity|].
  intros x Hx. apply in_range in Hx. destruct (Hsame x Hx) as [Hp Hg].
  unfold term_read, read. now rewrite Hp, Hg.
Qed.

Lemma block_row_agree (pixels pixels' : pixel_access) (bg : string)
  (screen_width img_width padding_w y : Z) :
  (forall x, 0 <= x < img_width ->
     pixels x y = pixels' x y
     /\ pixels x (int_add y 1) = pixels' x (int_add y 1)) ->
  block_row pixels bg screen_width img_width padding_w y
  = block_row pixels' bg screen_width img_width padding_w y.
Proof.
  intros Hsame. rewrite !block_row_text.
  rewrite (mapM_ext (block_read pixels y) (block_read pixels' y));
    [reflexivity|].
  intros x Hx. apply in_range in Hx. destruct (Hsame x Hx) as [Ht Hb].
  unfold block_read, read. now rewrite Ht, Hb.
Qed.

(** X10. The encoders read the buffers inside the [img_width] by
    [img_height] picture only: two calls whose buffers agree on the pixels
    [(x, y)] with [0 <= x < img_width] and [0 <= y < img_height] give the same
    result, text or exception, whatever the buffers hold (or fail to hold)
    elsewhere. *)
Theorem encoders_read_only_the_picture
  (pixels pixels' pixels_gray pixels_gray' : pixel_access)
  (bg_color : Z) (ascii_palette : list string)
  (ascii_palette_len screen_width screen_height img_width img_height : Z) :
  (forall x y, 0 <= x < img_width -> 0 <= y < img_height ->
     pixels x y = pixels' x y /\ pixels_gray x y = pixels_gray' x y) ->
  img_to_term pixels pixels_gray bg_color ascii_palette ascii_palette_len
    screen_width screen_height img_width img_height
  = img_to_term pixels' pixels_gray' bg_color ascii_palette ascii_palette_len
      screen_width screen_height img_width img_height
  /\ (c_int (img_height - 1) ->
      img_to_term_block pixels bg_color screen_width screen_height img_width
        img_height
      = img_to_term_block pixels' bg_color screen_width screen_height
          img_width img_height).
Proof.
  intros Hsame. split.
  - unfold img_to_term. rewrite !img_to_term_lines_shape.
    rewrite (mapM_ext
               (term_row pixels pixels_gray (bg_of bg_color) ascii_palette
                  ascii_palette_len screen_width img_width
                  (floordiv (int_sub screen_width img_width) 2))
               (term_row pixels' pixels_gray' (bg_of bg_color) ascii_palette
                  ascii_palette_len screen_width img_width
                  (floordiv (int_sub screen_width img_width) 2)));
      [reflexivity|].
    intros y Hy. apply in_range in Hy. apply term_row_agree.
    intros x Hx. now apply Hsame.
  - intros Hint. unfold img_to_term_block.
    rewrite !img_to_term_block_lines_shape.
    rewrite (mapM_ext
               (block_row pixels (bg_of bg_color) screen_width img_width
                  (floordiv (int_sub screen_width img_width) 2))
               (block_row pixels' (bg_of bg_color) screen_width img_width
                  (floordiv (int_sub screen_width img_width) 2)));
      [reflexivity|].
    intros y Hy. pose proof (range_by2_rows _ _ Hy) as Hy1.
    unfold int_sub in Hy. rewrite (wrap_id _ Hint) in Hy.
    apply in_range_by2 in Hy. apply block_row_agree.
    intros x Hx. rewrite Hy1. split; apply Hsame; lia.
Qed.

Lemma encoders_read_only_the_picture_example :
  img_to_term (flat_picture 2 2 0) (flat_picture 2 2 90) 0 ["."; "#"] 1
    4 2 2 2
  = img_to_term (flat_picture 5 7 0) (flat_picture 3 2 90) 0 ["."; "#"] 1
      4 2 2 2.
Proof.
  apply (encoders_read_only_the_picture (flat_picture 2 2 0)
           (flat_picture 5 7 0) (flat_picture 2 2 90) (flat_picture 3 2 90)
           0 ["."; "#"] 1 4 2 2 2).
  intros x y Hx Hy.
  assert (Hxs : x = 0 \/ x = 1) by lia. assert (Hys : y = 0 \/ y = 1) by lia.
  destruct Hxs as [-> | ->]; destruct Hys as [-> | ->]; split; reflexivity.
Defined.

(** ** Line breaks of the returned text *)

Lemma count_nl_app (a b : string) :
  count_nl (a ++ b) = (count_nl a + count_nl b)%nat.
Proof.
  induction a as [|c a IH]; simpl; [reflexivity|].
  destruct (Ascii.eqb c nl_char); rewrite IH; reflexivity.
Qed.

Lemma count_nl_none (s : string) : all_chars not_nl s = true -> count_nl s = O.
Proof.
  induction s as [|c s IH]; [reflexivity|].
  cbn [all_chars count_nl]. rewrite andb_true_iff. intros [Hc Hs].
  unfold not_nl in Hc. apply negb_true_iff in Hc. rewrite Hc. now apply IH.
Qed.

Lemma count_nl_join (lines : list string) :
  Forall (fun l => all_chars not_nl l = true) lines ->
  count_nl (join NL lines) = pred (length lines).
Proof.
  induction 1 as [|l lines Hl Hall IH]; [reflexivity|].
  destruct lines as [|l' lines].
  - simpl. now apply count_nl_none.
  - change (join NL (l :: l' :: lines))
      with (l ++ NL ++ join NL (l' :: lines)).
    rewrite !count_nl_app, IH, (count_nl_none _ Hl). reflexivity.
Qed.

Lemma join_ends_with_reset (lines : list string) :
  lines <> [] ->
  Forall (fun l => exists body, l = body ++ RESET) lines ->
  exists body, join NL lines = body ++ RESET.
Proof.
  intros Hne Hall. induction Hall as [|l lines Hl Hall IH]; [contradiction|].
  destruct lines as [|l' lines].
  - exact Hl.
  - destruct IH as (body & Hbody); [discriminate|].
    exists (l ++ NL ++ body).
    change (join NL (l :: l' :: lines))
      with (l ++ NL ++ join NL (l' :: lines)).
    now rewrite Hbody, !append_assoc.
Qed.

(** X11. The text returned by either encoder is its lines joined by single
    line breaks and nothing more: with one-character glyphs it holds exactly
    one line break less than it has lines, and, unless there is no line at
    all, it ends with the reset sequence of its last line, not with a line
    break. This holds for any geometry. *)
Theorem text_is_lines_without_trailing_break (pixels pixels_gray : pixel_access)
  (bg_color : Z) (ascii_palette : list string)
  (ascii_palette_len screen_width screen_height img_width img_height : Z) :
  forallb is_glyph ascii_palette = true ->
  (forall text,
      img_to_term pixels pixels_gray bg_color ascii_palette ascii_palette_len
        screen_width screen_height img_width img_height = Ok text ->
      exists lines,
        img_to_term_lines pixels pixels_gray bg_color ascii_palette
          ascii_palette_len screen_width screen_height img_width img_height
        = Ok lines
        /\ count_nl text = pred (length lines)
        /\ (lines <> [] -> exists body, text = body ++ RESET))
  /\ (forall text,
        img_to_term_block pixels bg_color screen_width screen_height img_width
          img_height = Ok text ->
        exists lines,
          img_to_term_block_lines pixels bg_color screen_width screen_height
            img_width img_height = Ok lines
          /\ count_nl text = pred (length lines)
          /\ (lines <> [] -> exists body, text = body ++ RESET)).
Proof.
  intros Hramp. split; intros text Htext.
  - unfold img_to_term in Htext.
    destruct (img_to_term_lines _ _ _ _ _ _ _ _ _) as [lines|] eqn:Hlines;
      simpl in Htext; [|discriminate].
    injection Htext as <-. exists lines. split; [reflexivity|].
    assert (Hline : forall line, In line lines ->
               all_chars not_nl line = true
               /\ exists body, line = body ++ RESET).
    { intros line Hin.
      destruct (img_to_term_lines_in _ _ _ _ _ _ _ _ _ _ Hlines line Hin)
        as [->|(y & _ & Hrow)].
      - split; [apply padding_row_not_nl|].
        destruct (padding_row_reset bg_color screen_width) as (body & Hb & _).
        now exists body.
      - split; [now apply term_row_not_nl in Hrow|].
        apply term_row_anatomy in Hrow; [|assumption].
        destruct Hrow as (cells & body & _ & _ & _ & -> & _). now exists body. }
    split.
    + apply count_nl_join, Forall_forall. intros l Hl. now apply Hline.
    + intros Hne. apply join_ends_with_reset; [assumption|].
      apply Forall_forall. intros l Hl. now apply Hline.
  - unfold img_to_term_block in Htext.
    destruct (img_to_term_block_lines _ _ _ _ _ _) as [lines|] eqn:Hlines;
      simpl in Htext; [|discriminate].
    injection Htext as <-. exists lines. split; [reflexivity|].
    assert (Hline : forall line, In line lines ->
               all_chars not_nl line = true
               /\ exists body, line = body ++ RESET).
    { intros line Hin.
      destruct (img_to_term_block_lines_in _ _ _ _ _ _ _ Hlines line Hin)
        as [->|(y & _ & Hrow)].
      - split; [apply padding_row_not_nl|].
        destruct (padding_row_reset bg_color screen_width) as (body & Hb & _).
        now exists body.
      - split; [now apply block_row_not_nl in Hrow|].
        apply block_row_anatomy in Hrow.
        destruct Hrow as (cells & body & _ & _ & -> & _). now exists body. }
    split.
    + apply count_nl_join, Forall_forall. intros l Hl. now apply Hline.
    + intros Hne. apply join_ends_with_reset; [assumption|].
      apply Forall_forall. intros l Hl. now apply Hline.
Qed.

Lemma text_is_lines_without_trailing_break_example :
  exists text lines,
    img_to_term_block (flat_picture 2 2 0) 7 4 3 2 2 = Ok text
    /\ img_to_term_block_lines (flat_picture 2 2 0) 7 4 3 2 2 = Ok lines
    /\ count_nl text = pred (length lines).
Proof.
  assert (Hcall : exists text,
             img_to_term_block (flat_picture 2 2 0) 7 4 3 2 2 = Ok text)
    by (vm_compute; eexists; reflexivity).
  destruct Hcall as (text & Hcall).
  destruct (proj2 (text_is_lines_without_trailing_break (flat_picture 2 2 0)
                     no_picture 7 [] 0 4 3 2 2 eq_refl) text Hcall)
    as (lines & Hlines & Hcount & _).
  exists text, lines. split; [exact Hcall|]. split; [exact Hlines|exact Hcount].
Defined.
